(** * Audio download service: format selection, filename sanitizing,
      request validation and the client post-processing stage.

    Shallow embedding of
    - the POST handler of /api/download (validation, title derivation,
      audio format selection, stream request),
    - the POST handler of /api/test (validation, metadata lookup),
    - the client functions [convertToMp3] and the [cleanTitle] pipeline of
      [handleDownload].

    JavaScript strings are sequences of UTF-16 code units; the regular
    expressions of the source carry no [u] flag, so they work on code
    units, and the embedding does the same. *)

From Stdlib Require Import String Ascii.
From Stdlib Require Import ZArith List Bool Lia.
From Stdlib Require Import Sorting.Sorted Sorting.Permutation.
Import ListNotations.
Local Open Scope Z_scope.

(* ===================================================================== *)
(** ** JavaScript strings                                                 *)
(* ===================================================================== *)

Module Js.

(** One UTF-16 code unit. *)
Definition char16 := Z.
Definition jsstring := list char16.

(** An ASCII literal of the source as a code unit sequence. *)
Fixpoint lit (s : string) : jsstring :=
  match s with
  | EmptyString => []
  | String a s' => Z.of_nat (nat_of_ascii a) :: lit s'
  end.

Definition between (lo hi c : char16) : bool := (lo <=? c) && (c <=? hi).

Definition is_digit (c : char16) : bool := between 48 57 c.
Definition is_upper (c : char16) : bool := between 65 90 c.
Definition is_lower (c : char16) : bool := between 97 122 c.
Definition underscore : char16 := 95.
Definition hyphen : char16 := 45.

(** The class [\w] without the unicode flag: [A-Za-z0-9_]. *)
Definition is_word (c : char16) : bool :=
  is_upper c || is_lower c || is_digit c || (c =? underscore).

(** The class [\s]: WhiteSpace and LineTerminator code points.
    [String.prototype.trim] strips the same set. *)
Definition is_space (c : char16) : bool :=
  between 9 13 c || (c =? 32) || (c =? 160) || (c =? 5760)
  || between 8192 8202 c || (c =? 8232) || (c =? 8233) || (c =? 8239)
  || (c =? 8287) || (c =? 12288) || (c =? 65279).

(** [s.replace(/[cls]/g, '')] for a character class [cls]: every matching
    code unit is deleted. *)
Definition remove_class (cls : char16 -> bool) (s : jsstring) : jsstring :=
  filter (fun c => negb (cls c)) s.

(** [s.replace(/[cls]+/g, rep)]: scanning left to right, each maximal run
    of code units of the class is replaced by [rep].  [inrun] tells that
    the previous code unit belonged to a run already replaced. *)
Fixpoint replace_runs_from (cls : char16 -> bool) (rep : jsstring)
    (inrun : bool) (s : jsstring) : jsstring :=
  match s with
  | [] => []
  | c :: t =>
      if cls c
      then (if inrun then replace_runs_from cls rep true t
            else rep ++ replace_runs_from cls rep true t)
      else c :: replace_runs_from cls rep false t
  end.

Definition replace_runs cls rep s := replace_runs_from cls rep false s.

(** Remove the last code unit when it satisfies [p]. *)
Fixpoint drop_last_if (p : char16 -> bool) (s : jsstring) : jsstring :=
  match s with
  | [] => []
  | [c] => if p c then [] else [c]
  | c :: t => c :: drop_last_if p t
  end.

(** [s.replace(/^_|_$/g, '')]: the first alternative matches one
    underscore at index 0, the second one underscore at the last index
    (when the first match has not consumed it). *)
Definition strip_edge_underscores (s : jsstring) : jsstring :=
  let after_head :=
    match s with
    | c :: t => if c =? underscore then t else s
    | [] => []
    end in
  drop_last_if (fun c => c =? underscore) after_head.

(** [s.substring(0, n)] for [0 <= n]. *)
Definition substring0 (n : nat) (s : jsstring) : jsstring := firstn n s.

Fixpoint drop_while (p : char16 -> bool) (s : jsstring) : jsstring :=
  match s with
  | [] => []
  | c :: t => if p c then drop_while p t else s
  end.

(** [s.trim()]. *)
Definition trim (s : jsstring) : jsstring :=
  rev (drop_while is_space (rev (drop_while is_space s))).

(** [s === t] on strings. *)
Fixpoint string_eq (s t : jsstring) : bool :=
  match s, t with
  | [], [] => true
  | c :: s', d :: t' => (c =? d) && string_eq s' t'
  | _, _ => false
  end.

(** A Number as [parseInt] returns one: NaN, an integer, or an infinity.
    [Finite 0] stands for both zeros; the source nowhere tells them
    apart. *)
Inductive Number : Type :=
| NotANumber
| Finite (n : Z)
| Infinity (negative : bool).

(** The Number nearest to the integer [n]: [n] itself up to 2^53 in
    magnitude; beyond, the nearest one with a significand of 53 bits,
    ties to the even significand; from 2^1024 - 2^970 on, an infinity. *)
Definition round_to_double (n : Z) : Number :=
  let a := Z.abs n in
  let e := Z.log2 a in
  if e <? 53 then Finite n
  else
    let sh := e - 52 in
    let q := Z.shiftr a sh in
    let r := a - Z.shiftl q sh in
    let half := Z.shiftl 1 (sh - 1) in
    let q' :=
      if (half <? r) || ((r =? half) && Z.odd q) then q + 1 else q in
    let m := Z.shiftl q' sh in
    if 2 ^ 1024 <=? m then Infinity (n <? 0)
    else Finite (if n <? 0 then - m else m).

(** The value of a code unit as a digit of the radix, if it is one. *)
Definition digit_value (radix : Z) (c : char16) : option Z :=
  let d :=
    if is_digit c then Some (c - 48)
    else if is_lower c then Some (c - 87)
    else if is_upper c then Some (c - 55)
    else None in
  match d with
  | Some v => if v <? radix then Some v else None
  | None => None
  end.

(** The value of the longest run of digits at the front of [s]; [None]
    when there is no digit. *)
Fixpoint digits_value (radix : Z) (acc : option Z) (s : jsstring)
  : option Z :=
  match s with
  | [] => acc
  | c :: t =>
      match digit_value radix c with
      | Some d =>
          digits_value radix
            (Some (radix * (match acc with Some a => a | None => 0 end) + d))
            t
      | None => acc
      end
  end.

(** [parseInt(s)] without a radix argument: leading white space, an
    optional sign, an optional [0x] or [0X] that selects radix 16, then
    the longest run of digits of the radix; no digit gives NaN.  The
    value read is rounded to a Number. *)
Definition parseInt (s : jsstring) : Number :=
  let s1 := drop_while is_space s in
  let signed :=
    match s1 with
    | c :: t => if c =? 45 then (true, t)
                else if c =? 43 then (false, t) else (false, s1)
    | [] => (false, [])
    end in
  let based :=
    match snd signed with
    | 48 :: x :: t =>
        if (x =? 120) || (x =? 88) then (16, t) else (10, snd signed)
    | _ => (10, snd signed)
    end in
  match digits_value (fst based) None (snd based) with
  | None => NotANumber
  | Some n => round_to_double (if fst signed then - n else n)
  end.

(** [b - a] on such Numbers. *)
Definition minus (b a : Number) : Number :=
  match b, a with
  | NotANumber, _ => NotANumber
  | _, NotANumber => NotANumber
  | Finite x, Finite y => round_to_double (x - y)
  | Finite _, Infinity t => Infinity (negb t)
  | Infinity s, Finite _ => Infinity s
  | Infinity s, Infinity t => if Bool.eqb s t then NotANumber else Infinity s
  end.

(** [n % q] for a literal [q > 0]: exact, with the sign of [n]. *)
Definition remainder (n : Number) (q : Z) : Number :=
  match n with
  | Finite a => Finite (Z.rem a q)
  | _ => NotANumber
  end.

(** The integer nearest to [p / q], ties to the even one
    ([0 <= p], [0 < q]). *)
Definition round_half_even (p q : Z) : Z :=
  let k := p / q in
  let r := p mod q in
  if (q <? 2 * r) || ((2 * r =? q) && Z.odd k) then k + 1 else k.

(** [Math.floor(n / q)] for a literal [q > 0].  The division rounds the
    quotient to a significand of 53 bits: with [e] the binary exponent
    of the quotient, to a multiple of 2^(e - 52); [Math.floor] then
    drops what is left of a fraction. *)
Definition floor_quotient (n : Number) (q : Z) : Number :=
  match n with
  | NotANumber => NotANumber
  | Infinity negative => Infinity negative
  | Finite z =>
      let a := Z.abs z in
      if a =? 0 then Finite 0
      else
        let l := Z.log2 a - Z.log2 q in
        let e :=
          if q * 2 ^ (Z.max 0 l) <=? a * 2 ^ (Z.max 0 (- l))
          then l else l - 1 in
        let k :=
          if e <=? 52 then round_half_even (a * 2 ^ (52 - e)) q
          else round_half_even a (q * 2 ^ (e - 52)) in
        let signed := if z <? 0 then - k else k in
        Finite (if e <=? 52 then Z.shiftr signed (52 - e)
                else signed * 2 ^ (e - 52))
  end.

(** [n.toString()] for an integer [n]: its decimal digits, after a minus
    sign for a negative one.  (From 10^21 on the source prints a
    significand and an exponent instead.) *)
Fixpoint digits_of (fuel : nat) (n : Z) (acc : jsstring) : jsstring :=
  match fuel with
  | O => acc
  | S fuel' =>
      let acc' := (48 + n mod 10) :: acc in
      if n <? 10 then acc' else digits_of fuel' (n / 10) acc'
  end.

Definition toString (n : Z) : jsstring :=
  if n <? 0
  then 45 :: digits_of (S (Z.to_nat (Z.log2 (- n)))) (- n) []
  else digits_of (S (Z.to_nat (Z.log2 n))) n [].

(** [s || dflt] on strings: the empty string is the only falsy one. *)
Definition or_default (s dflt : jsstring) : jsstring :=
  match s with
  | [] => dflt
  | _ => s
  end.

End Js.

(* ===================================================================== *)
(** ** Filename sanitizer                                                 *)
(* ===================================================================== *)

Module Sanitizer.
Import Js.

Definition default_title : jsstring := lit "youtube_audio".

(** Server side, /api/download:
<<
  title = info.videoDetails.title
    .replace(/[^\w\s-]/g, '')
    .replace(/\s+/g, '_')
    .trim() || 'youtube_audio';
>> *)
Definition keep_standard (c : char16) : bool :=
  is_word c || is_space c || (c =? hyphen).

Definition standardTitle (rawTitle : jsstring) : jsstring :=
  or_default
    (trim
       (replace_runs is_space [underscore]
          (remove_class (fun c => negb (keep_standard c)) rawTitle)))
    default_title.

(** Client side, [handleDownload]:
<<
  let cleanTitle = videoTitle
    .replace(/[^\w\s]/g, '')
    .replace(/\s+/g, '_')
    .replace(/_+/g, '_')
    .replace(/^_|_$/g, '')
    .substring(0, 50);
  if (!cleanTitle) { cleanTitle = 'youtube_audio'; }
>> *)
Definition keep_compat (c : char16) : bool := is_word c || is_space c.

Definition cleanTitle (videoTitle : jsstring) : jsstring :=
  or_default
    (substring0 50
       (strip_edge_underscores
          (replace_runs (fun c => c =? underscore) [underscore]
             (replace_runs is_space [underscore]
                (remove_class (fun c => negb (keep_compat c)) videoTitle)))))
    default_title.

(** The sanitizer contract of the two call sites: the server pipeline is
    the standard mode, the client pipeline the compatibility mode. *)
Definition sanitize (rawTitle : jsstring) (compatibilityMode : bool)
  : jsstring :=
  if compatibilityMode then cleanTitle rawTitle else standardTitle rawTitle.

End Sanitizer.

(* ===================================================================== *)
(** ** Format selector                                                    *)
(* ===================================================================== *)

Module Selector.
Import Js.

(** A format offered by the resolver.  [audioBitrate] is
    [number | undefined] in the source. *)
Record videoFormat : Type := {
  itag : Z;
  hasAudio : bool;
  hasVideo : bool;
  audioBitrate : option Z;
  container : jsstring;
  qualityLabel : option jsstring
}.

(** A JavaScript number as far as the selector can see one: the result of
    [parseInt]. *)
Inductive number : Type :=
| NaN
| Int (n : Z).

(** [n === k] for an integer constant [k]. *)
Definition strict_eq (n : number) (k : Z) : bool :=
  match n with
  | NaN => false
  | Int m => m =? k
  end.

(** Truthiness of [format.audioBitrate]. *)
Definition bitrate_truthy (f : videoFormat) : bool :=
  match audioBitrate f with
  | None => false
  | Some n => negb (n =? 0)
  end.

(** [(format.audioBitrate || 0)]. *)
Definition bitrate_or_0 (f : videoFormat) : Z :=
  match audioBitrate f with
  | None => 0
  | Some n => if n =? 0 then 0 else n
  end.

(** [Array.prototype.sort(cmp)] is stable: an element moves in front of
    another only when the comparator is positive on the earlier one.
    Insertion from the right realises it. *)
Fixpoint sort_insert {A : Type} (cmp : A -> A -> Z) (x : A) (l : list A)
  : list A :=
  match l with
  | [] => [x]
  | y :: t => if cmp x y <=? 0 then x :: l else y :: sort_insert cmp x t
  end.

Definition Array_sort {A : Type} (cmp : A -> A -> Z) (l : list A) : list A :=
  fold_right (sort_insert cmp) [] l.

(** [a || b] on values that are a format or [undefined]. *)
Definition or_else {A : Type} (a b : option A) : option A :=
  match a with
  | Some _ => a
  | None => b
  end.

Definition audio_only (f : videoFormat) : bool :=
  hasAudio f && negb (hasVideo f).

(**
<<
  const audioFormats = info.formats
    .filter(format => format.hasAudio && !format.hasVideo)
    .filter(format => format.audioBitrate)
    .sort((a, b) => (b.audioBitrate || 0) - (a.audioBitrate || 0));
>> *)
Definition filtered (formats : list videoFormat) : list videoFormat :=
  filter bitrate_truthy (filter audio_only formats).

Definition by_bitrate_desc (a b : videoFormat) : Z :=
  bitrate_or_0 b - bitrate_or_0 a.

Definition audioFormats (formats : list videoFormat) : list videoFormat :=
  Array_sort by_bitrate_desc (filtered formats).

Definition ideal128 (f : videoFormat) : bool :=
  (bitrate_or_0 f <=? 160) && (bitrate_or_0 f >=? 96).
Definition atmost128 (f : videoFormat) : bool := bitrate_or_0 f <=? 128.
Definition ideal192 (f : videoFormat) : bool :=
  (bitrate_or_0 f >=? 160) && (bitrate_or_0 f <=? 256).
Definition atleast192 (f : videoFormat) : bool := bitrate_or_0 f >=? 192.

(** The selection of /api/download, from [let selectedFormat] to the
    fallback [selectedFormat = audioFormats[0]]; [None] is [undefined]. *)
Definition selectFormat (targetBitrate : number)
    (formats : list videoFormat) : option videoFormat :=
  let audioFormats := audioFormats formats in
  let selectedFormat :=
    if strict_eq targetBitrate 128 then
      or_else (find ideal128 audioFormats) (find atmost128 audioFormats)
    else if strict_eq targetBitrate 192 then
      or_else (find ideal192 audioFormats) (find atleast192 audioFormats)
    else None in
  match selectedFormat with
  | Some f => Some f
  | None => nth_error audioFormats 0
  end.

End Selector.

(* ===================================================================== *)
(** ** Programs that call a collaborator                                  *)
(* ===================================================================== *)

(** The handlers are sequential programs whose only effects are calls to
    an outside party (the resolver on the server, the progress callback
    and the timer on the client).  A program is the tree of its calls:
    it either returns, or performs a call [e] and continues with the
    answer. *)
Inductive prog (E : Type -> Type) (R : Type) : Type :=
| Ret (r : R)
| Do {X : Type} (e : E X) (k : X -> prog E R).

Arguments Ret {E R} r.
Arguments Do {E R X} e k.

Fixpoint bind {E : Type -> Type} {A B : Type}
    (p : prog E A) (f : A -> prog E B) : prog E B :=
  match p with
  | Ret a => f a
  | Do e k => Do e (fun x => bind (k x) f)
  end.

Definition call {E : Type -> Type} {X : Type} (e : E X) : prog E X :=
  Do e Ret.

Declare Scope prog_scope.
Delimit Scope prog_scope with prog.
Notation "x <- p ;; q" := (bind p (fun x => q))
  (at level 61, p at next level, right associativity) : prog_scope.
Notation "p ;; q" := (bind p (fun _ => q))
  (at level 61, right associativity) : prog_scope.

(** A program that makes no call at all. *)
Definition silent {E : Type -> Type} {R : Type} (p : prog E R) : Prop :=
  exists r, p = Ret r.

(* ===================================================================== *)
(** ** Server: the two POST handlers                                      *)
(* ===================================================================== *)

Module Server.
Import Js Sanitizer Selector.

(** What [await request.json()] can resolve to.  The handlers look at a
    number only to test whether it is zero and to print it into a
    header, which takes the text of any number, so integers stand for
    the numbers.  An object is the list of its own properties. *)
#[local] Set Warnings "-register-all".
Inductive Json : Type :=
| JNull
| JBool (b : bool)
| JNumber (n : Z)
| JString (s : jsstring)
| JArray (items : list Json)
| JObject (fields : list (jsstring * Json)).

(** The value of a variable bound by destructuring the body. *)
Inductive JsValue : Type :=
| Undefined
| Value (j : Json).

(** What a call that may throw gives back. *)
Inductive result (A : Type) : Type :=
| Ok (a : A)
| Throws (message : jsstring).
Arguments Ok {A} a.
Arguments Throws {A} message.

(** What the handler catches in its outer [catch]. *)
Inductive thrown : Type :=
| TypeError
| Failure (message : jsstring).

Fixpoint property (fields : list (jsstring * Json)) (key : jsstring)
  : JsValue :=
  match fields with
  | [] => Undefined
  | (k, v) :: rest => if string_eq k key then Value v else property rest key
  end.

(** [const { key } = body]: reading a property of [null] throws a
    TypeError ([None]); a primitive or an array has none of the
    properties the handlers read. *)
Definition destructure (body : Json) (key : jsstring) : option JsValue :=
  match body with
  | JNull => None
  | JObject fields => Some (property fields key)
  | _ => Some Undefined
  end.

(** [key = dflt] in a destructuring pattern: the default replaces
    [undefined] only. *)
Definition with_default (v dflt : JsValue) : JsValue :=
  match v with
  | Undefined => dflt
  | _ => v
  end.

Definition truthy (v : JsValue) : bool :=
  match v with
  | Undefined | Value JNull => false
  | Value (JBool b) => b
  | Value (JNumber n) => negb (n =? 0)
  | Value (JString s) => match s with [] => false | _ => true end
  | Value (JArray _) | Value (JObject _) => true
  end.

(** [ToString(v)], [None] when it throws a TypeError.  A number prints
    as digits, maybe with a sign, a point and an exponent; the digits of
    the integer stand for that text.  An array prints as [join(',')]
    does, where [null] elements give the empty string.
    An object prints as "[object Object]" through
    [Object.prototype.toString], unless it has a property [toString] of
    its own: a parsed value is never callable, and [valueOf] gives no
    primitive either. *)
Fixpoint ToString (j : Json) : option jsstring :=
  match j with
  | JNull => Some (lit "null")
  | JBool b => Some (if b then lit "true" else lit "false")
  | JNumber n => Some (toString n)
  | JString s => Some s
  | JArray items =>
      (fix join (l : list Json) : option jsstring :=
         match l with
         | [] => Some []
         | x :: rest =>
             let element :=
               match x with JNull => Some [] | _ => ToString x end in
             match rest with
             | [] => element
             | _ :: _ =>
                 match element, join rest with
                 | Some a, Some b => Some (a ++ 44 :: b)
                 | _, _ => None
                 end
             end
         end) items
  | JObject fields =>
      match property fields (lit "toString") with
      | Undefined => Some (lit "[object Object]")
      | Value _ => None
      end
  end.

(** [v.toString()]: reading the method of [undefined] or [null] throws;
    otherwise the method found is the one [ToString] uses (or the
    object's own property, which cannot be called). *)
Definition toString_of (v : JsValue) : option jsstring :=
  match v with
  | Undefined | Value JNull => None
  | Value j => ToString j
  end.

Definition is_http_whitespace (c : char16) : bool :=
  (c =? 9) || (c =? 10) || (c =? 13) || (c =? 32).

(** Whether the [Headers] of a response take [value]: every code unit
    must be a byte, and once tabs, spaces, line feeds and carriage
    returns are stripped from both ends, no NUL, line feed or carriage
    return may be left.  The constructor throws a TypeError otherwise. *)
Definition header_value_ok (value : jsstring) : bool :=
  forallb (fun c => c <=? 255) value
  && forallb (fun c => negb ((c =? 0) || (c =? 10) || (c =? 13)))
       (rev (drop_while is_http_whitespace
               (rev (drop_while is_http_whitespace value)))).

(** [literals.includes(v)] for an array of string literals. *)
Definition includes (literals : list jsstring) (v : JsValue) : bool :=
  match v with
  | Value (JString s) => existsb (string_eq s) literals
  | _ => false
  end.

Record videoInfo : Type := {
  title : jsstring;
  formats : list videoFormat
}.

(** The options of the stream request [ytdl(url, options)]. *)
Inductive streamOptions : Type :=
| WithFormat (selectedFormat : option videoFormat)
    (* { format: selectedFormat, requestOptions } *)
| HighestAudioOnly.
    (* { quality: 'highestaudio', filter: 'audioonly', requestOptions } *)

(** Calls to the resolver.  [Download] stands for [ytdl(url, options)]
    together with the loop that collects the chunks of its stream. *)
Inductive resolverCall : Type -> Type :=
| ValidateURL (url : JsValue) : resolverCall bool
| GetInfo (url : JsValue) : resolverCall (result videoInfo)
| Download (url : JsValue) (options : streamOptions)
    : resolverCall (result (list Byte.byte)).

(** The text of a JSON error body. *)
Inductive errorText : Type :=
| Message (text : jsstring)
| ServerErrorOf (e : thrown)       (* `Server error: ${error.message}` *)
| InfoFailedOf (message : jsstring).
                                   (* `Info extraction failed: ${...}` *)

Record audioHeaders : Type := {
  contentType : jsstring;
  xVideoTitle : jsstring;
  xBitrate : JsValue;
  xSampleRate : JsValue;
  xOldPhoneMode : JsValue          (* the value whose toString() it is *)
}.

Inductive response : Type :=
| ErrorResponse (status : Z) (text : errorText)
| AudioResponse (body : list Byte.byte) (headers : audioHeaders)
| MetadataResponse (info : videoInfo).
    (* status 200; the payload (title, duration, author, view count,
       thumbnail, available qualities) is computed from [info] *)

Definition status_of (r : response) : Z :=
  match r with
  | ErrorResponse status _ => status
  | AudioResponse _ _ => 200
  | MetadataResponse _ => 200
  end.

Definition url_required : errorText := Message (lit "URL is required").
Definition invalid_bitrate : errorText :=
  Message (lit "Invalid bitrate. Only 128 and 192 kbps are supported.").
Definition invalid_sample_rate : errorText :=
  Message
    (lit "Invalid sample rate. Only 16000, 22050, and 44100 Hz are supported.").
Definition invalid_url : errorText := Message (lit "Invalid YouTube URL").

Definition handler := prog resolverCall response.

Local Open Scope prog_scope.

(** [parseInt(bitrate)] on a field value; a validated field is a string.
    The selector compares the result with 128 and 192 only, which an
    infinity equals as little as NaN does. *)
Definition targetBitrate (bitrate : JsValue) : number :=
  match bitrate with
  | Value (JString s) =>
      match parseInt s with Finite n => Int n | _ => NaN end
  | _ => NaN
  end.

(** /api/download after validation: title derivation, format selection
    with its [catch] fallback, stream collection, response. *)
Definition download_audio (url bitrate sampleRate oldPhoneMode : JsValue)
  : handler :=
  r1 <- call (GetInfo url) ;;
  let title :=
    match r1 with
    | Ok info => standardTitle (title info)
    | Throws _ => default_title
    end in
  r2 <- call (GetInfo url) ;;
  let options :=
    match r2 with
    | Ok info =>
        WithFormat (selectFormat (targetBitrate bitrate) (formats info))
    | Throws _ => HighestAudioOnly
    end in
  r3 <- call (Download url options) ;;
  match r3 with
  | Throws message => Ret (ErrorResponse 500 (ServerErrorOf (Failure message)))
  | Ok audioBuffer =>
      match toString_of oldPhoneMode with
      | None =>
          (* oldPhoneMode.toString() throws *)
          Ret (ErrorResponse 500 (ServerErrorOf TypeError))
      | Some text =>
          if header_value_ok text
          then
            Ret (AudioResponse audioBuffer
                   {| contentType := lit "audio/mp4";
                      xVideoTitle := title;
                      xBitrate := bitrate;
                      xSampleRate := sampleRate;
                      xOldPhoneMode := oldPhoneMode |})
          else
            (* new NextResponse(...) refuses the header value *)
            Ret (ErrorResponse 500 (ServerErrorOf TypeError))
      end
  end.

(** POST /api/download.  [json] is the outcome of [await request.json()]. *)
Definition POST_download (json : result Json) : handler :=
  match json with
  | Throws message => Ret (ErrorResponse 500 (ServerErrorOf (Failure message)))
  | Ok body =>
      match destructure body (lit "url"),
            destructure body (lit "bitrate"),
            destructure body (lit "sampleRate"),
            destructure body (lit "oldPhoneMode") with
      | Some url, Some bitrate0, Some sampleRate0, Some oldPhoneMode0 =>
          let bitrate := with_default bitrate0 (Value (JString (lit "128"))) in
          let sampleRate :=
            with_default sampleRate0 (Value (JString (lit "22050"))) in
          let oldPhoneMode := with_default oldPhoneMode0 (Value (JBool true)) in
          if negb (truthy url) then Ret (ErrorResponse 400 url_required)
          else if negb (includes [lit "128"; lit "192"] bitrate)
          then Ret (ErrorResponse 400 invalid_bitrate)
          else if negb (includes [lit "16000"; lit "22050"; lit "44100"]
                          sampleRate)
          then Ret (ErrorResponse 400 invalid_sample_rate)
          else
            valid <- call (ValidateURL url) ;;
            if negb valid then Ret (ErrorResponse 400 invalid_url)
            else download_audio url bitrate sampleRate oldPhoneMode
      | _, _, _, _ => Ret (ErrorResponse 500 (ServerErrorOf TypeError))
      end
  end.

(** POST /api/test. *)
Definition POST_test (json : result Json) : handler :=
  match json with
  | Throws message => Ret (ErrorResponse 500 (ServerErrorOf (Failure message)))
  | Ok body =>
      match destructure body (lit "url") with
      | Some url =>
          if negb (truthy url) then Ret (ErrorResponse 400 url_required)
          else
            isValid <- call (ValidateURL url) ;;
            if negb isValid then Ret (ErrorResponse 400 invalid_url)
            else
              r <- call (GetInfo url) ;;
              match r with
              | Ok info => Ret (MetadataResponse info)
              | Throws message => Ret (ErrorResponse 500 (InfoFailedOf message))
              end
      | None => Ret (ErrorResponse 500 (ServerErrorOf TypeError))
      end
  end.

(** A resolver answers every call. *)
Definition resolver := forall X, resolverCall X -> X.

(** One recorded resolver call. *)
Inductive logged : Type :=
| LValidateURL (url : JsValue)
| LGetInfo (url : JsValue)
| LDownload (url : JsValue) (options : streamOptions).

Definition log_of {X : Type} (c : resolverCall X) : logged :=
  match c with
  | ValidateURL u => LValidateURL u
  | GetInfo u => LGetInfo u
  | Download u o => LDownload u o
  end.

(** Running a handler against a resolver: the response and the calls
    made, in order. *)
Fixpoint run (ytdl : resolver) (h : handler) : response * list logged :=
  match h with
  | Ret r => (r, [])
  | Do c k =>
      let (r, calls) := run ytdl (k (ytdl _ c)) in
      (r, log_of c :: calls)
  end.

End Server.

(* ===================================================================== *)
(** ** Client: the post-processing stage                                  *)
(* ===================================================================== *)

Module Client.
Import Js.

Record blob : Type := {
  bytes : list Byte.byte;
  type : jsstring
}.

(** [new Blob(parts, { type })]. *)
Definition Blob (parts : list (list Byte.byte)) (type : jsstring) : blob :=
  {| bytes := List.concat parts; type := type |}.

(** The state of the promise [convertToMp3] returns, once the executor
    has run to its end. *)
Inductive promise (A : Type) : Type :=
| Resolved (a : A)
| Rejected (reason : jsstring)
| Pending.
Arguments Resolved {A} a.
Arguments Rejected {A} reason.
Arguments Pending {A}.

(** What the stage asks of its surroundings: a call of the progress
    callback, answered by whether the callback returned ([true]) or threw
    ([false]), and a timer wait
    [await new Promise(resolve => setTimeout(resolve, ms))]. *)
Inductive clientCall : Type -> Type :=
| OnProgress (progress : Z) : clientCall bool
| SetTimeout (ms : Z) : clientCall unit.

Local Open Scope prog_scope.

(** [if (onProgress) onProgress(progress)]; [supplied] tells whether the
    optional argument was passed. *)
Definition report (supplied : bool) (progress : Z) : prog clientCall bool :=
  if supplied then call (OnProgress progress) else Ret true.

(** [convertToMp3]: the executor of the returned promise, with its [try]
    block and its [catch] block.  The quality parameters are only logged. *)
Definition convertToMp3 (audioBuffer : list Byte.byte)
    (bitrate sampleRate : jsstring) (oldPhoneMode : bool)
    (onProgress : bool) : prog clientCall (promise blob) :=
  let catch : prog clientCall (promise blob) :=
    let fallbackBlob := Blob [audioBuffer] (lit "audio/mpeg") in
    ok <- report onProgress 100 ;;
    if ok then Ret (Resolved fallbackBlob) else Ret Pending in
  ok <- report onProgress 20 ;;
  if negb ok then catch else
  call (SetTimeout 300) ;;
  ok <- report onProgress 50 ;;
  if negb ok then catch else
  call (SetTimeout 300) ;;
  ok <- report onProgress 80 ;;
  if negb ok then catch else
  call (SetTimeout 200) ;;
  ok <- report onProgress 100 ;;
  if negb ok then catch else
  let blob := Blob [audioBuffer] (lit "audio/mpeg") in
  Ret (Resolved blob).

(** What an observer of one run sees. *)
Inductive event : Type :=
| Reported (progress : Z)
| Waited (ms : Z).

(** The callback as a transition on the state [S] it updates, together
    with the flag of [OnProgress]. *)
Definition answer {S : Type} (callback : Z -> S -> S * bool)
    (X : Type) (c : clientCall X) (s : S) : X * S * event :=
  match c in clientCall X return X * S * event with
  | OnProgress progress =>
      let (s', ok) := callback progress s in (ok, s', Reported progress)
  | SetTimeout ms => (tt, s, Waited ms)
  end.

(** One run of a client program: its result, the final state of the
    callback and the events, in order. *)
Fixpoint run {S : Type} (callback : Z -> S -> S * bool) {R : Type}
    (p : prog clientCall R) (s : S) : R * S * list event :=
  match p with
  | Ret r => (r, s, [])
  | Do c k =>
      let '(x, s1, ev) := answer callback _ c s in
      let '(r, s2, evs) := run callback (k x) s1 in
      (r, s2, ev :: evs)
  end.

(** The progress values among the events of a run. *)
Fixpoint checkpoints (evs : list event) : list Z :=
  match evs with
  | [] => []
  | Reported progress :: rest => progress :: checkpoints rest
  | Waited _ :: rest => checkpoints rest
  end.

End Client.

(* ===================================================================== *)
(** ** Vocabulary of the properties                                       *)
(* ===================================================================== *)

Section Vocabulary.
Import Js Sanitizer Selector Server.

(** What [replace(/[cls]+/g, rep)] is meant to compute, as a relation
    between subject and result: code units outside the class are copied,
    and each maximal run inside the class gives one copy of [rep]. *)
Inductive Collapsed (cls : char16 -> bool) (rep : jsstring)
  : jsstring -> jsstring -> Prop :=
| Collapsed_nil : Collapsed cls rep [] []
| Collapsed_keep c s r :
    cls c = false -> Collapsed cls rep s r ->
    Collapsed cls rep (c :: s) (c :: r)
| Collapsed_run w s r :
    w <> [] ->
    Forall (fun c => cls c = true) w ->
    match s with [] => True | c :: _ => cls c = false end ->
    Collapsed cls rep s r ->
    Collapsed cls rep (w ++ s) (rep ++ r).

(** The result of the standard pipeline before the default is applied. *)
Definition standard_body (x : jsstring) : jsstring :=
  replace_runs is_space [underscore]
    (remove_class (fun c => negb (keep_standard c)) x).

Definition is_underscore (c : char16) : bool := c =? underscore.

Definition heads_underscore (s : jsstring) : Prop :=
  match s with
  | c :: _ => c = underscore
  | [] => False
  end.

(** No two underscores next to each other. *)
Fixpoint no_double (s : jsstring) : Prop :=
  match s with
  | [] => True
  | c :: t => (c = underscore -> ~ heads_underscore t) /\ no_double t
  end.

(** The compatibility pipeline before truncation and default. *)
Definition compat_body (x : jsstring) : jsstring :=
  strip_edge_underscores
    (replace_runs is_underscore [underscore]
       (replace_runs is_space [underscore]
          (remove_class (fun c => negb (keep_compat c)) x))).

(** [A-Za-z0-9]. *)
Definition is_letter_or_digit (c : char16) : bool :=
  is_upper c || is_lower c || is_digit c.

(** All underscores at both ends removed. *)
Definition trim_underscores (s : jsstring) : jsstring :=
  rev (drop_while is_underscore (rev (drop_while is_underscore s))).

(** The standard mode as the specification words it, to be compared with
    [standardTitle]: only letters (read as ASCII letters), digits, white
    space and hyphens survive, white space runs become one underscore,
    underscores are trimmed at both ends, and the default replaces an
    empty result. *)
Definition sanitize_standard_as_specified (x : jsstring) : jsstring :=
  or_default
    (trim_underscores
       (replace_runs is_space [underscore]
          (filter (fun c => is_letter_or_digit c || is_space c
                            || (c =? hyphen)) x)))
    default_title.

(** The comparator [(a, b) => key(b) - key(a)] and the order it sorts
    into. *)
Definition by_key_desc {A : Type} (key : A -> Z) (a b : A) : Z :=
  key b - key a.
Definition key_ge {A : Type} (key : A -> Z) (a b : A) : Prop :=
  key b <= key a.

(** The test of the first tier of a bitrate class. *)
Definition ideal_test (b : Z) : videoFormat -> bool :=
  if b =? 128 then ideal128 else ideal192.

(** The ideal range of a bitrate class, in kbps. *)
Definition in_ideal_range (b n : Z) : Prop :=
  (b = 128 /\ 96 <= n <= 160) \/ (b = 192 /\ 160 <= n <= 256).

(** [f] is an audio-only candidate of [kbps] kbps. *)
Definition offers (f : videoFormat) (kbps : Z) : Prop :=
  hasAudio f = true /\ hasVideo f = false /\ audioBitrate f = Some kbps.

(** An audio-only format as the resolver lists it. *)
Definition audio_format (tag kbps : Z) : videoFormat :=
  {| itag := tag; hasAudio := true; hasVideo := false;
     audioBitrate := Some kbps; container := lit "webm";
     qualityLabel := None |}.

(** A format with a picture and no sound. *)
Definition video_only_format : videoFormat :=
  {| itag := 134; hasAudio := false; hasVideo := true;
     audioBitrate := None; container := lit "mp4";
     qualityLabel := Some (lit "360p") |}.

(** The value the destructuring pattern binds to [key]. *)
Definition field (body : Json) (key : string) : JsValue :=
  match destructure body (lit key) with
  | Some v => v
  | None => Undefined
  end.

Definition bitrate_of (body : Json) : JsValue :=
  with_default (field body "bitrate") (Value (JString (lit "128"))).

Definition sampleRate_of (body : Json) : JsValue :=
  with_default (field body "sampleRate") (Value (JString (lit "22050"))).

Definition legal_bitrate (v : JsValue) : Prop :=
  v = Value (JString (lit "128")) \/ v = Value (JString (lit "192")).

Definition legal_sample_rate (v : JsValue) : Prop :=
  v = Value (JString (lit "16000")) \/ v = Value (JString (lit "22050"))
  \/ v = Value (JString (lit "44100")).

(** A resolver with fixed answers. *)
Definition fixed_resolver (valid : bool) (info : result videoInfo)
    (audio : result (list Byte.byte)) : resolver :=
  fun X c =>
    match c in resolverCall X return X with
    | ValidateURL _ => valid
    | GetInfo _ => info
    | Download _ _ => audio
    end.

Definition down_resolver : resolver :=
  fixed_resolver true (Throws (lit "Video unavailable"))
    (Throws (lit "Video unavailable")).

(** The stream requests among the resolver calls of a run. *)
Fixpoint stream_requests (calls : list logged) : list streamOptions :=
  match calls with
  | [] => []
  | LDownload _ options :: rest => options :: stream_requests rest
  | _ :: rest => stream_requests rest
  end.

(** The callback of [handleDownload]: it stores 50 + progress * 0.4 in
    the download state, kept here in tenths of a percent, and returns. *)
Definition progress_callback (progress : Z) (shown : Z) : Z * bool :=
  (500 + progress * 4, true).

End Vocabulary.

(* ===================================================================== *)
(** ** Executions of a handler                                            *)
(* ===================================================================== *)

Section Executions.
Import Js Sanitizer Selector Server.

(** One resolver call together with the answer it got. *)
Inductive answered : Type :=
| AValidateURL (url : JsValue) (valid : bool)
| AGetInfo (url : JsValue) (info : result videoInfo)
| ADownload (url : JsValue) (options : streamOptions)
    (audio : result (list Byte.byte)).

Definition answered_of {X : Type} (c : resolverCall X) : X -> answered :=
  match c in resolverCall X return X -> answered with
  | ValidateURL u => AValidateURL u
  | GetInfo u => AGetInfo u
  | Download u o => ADownload u o
  end.

(** [exec h tr r]: the handler [h] can make the calls of [tr], get the
    answers of [tr], and respond with [r].  The answers are arbitrary:
    the resolver may answer the same call differently each time. *)
Fixpoint exec {R : Type} (h : prog resolverCall R) (tr : list answered)
    (r : R) : Prop :=
  match h with
  | Ret r' => tr = [] /\ r = r'
  | Do c k => exists x tr', tr = answered_of c x :: tr' /\ exec (k x) tr' r
  end.

(** The request the handler sends for the stream, given the answer of
    its second metadata lookup. *)
Definition stream_request (bitrate : JsValue) (info : result videoInfo)
  : streamOptions :=
  match info with
  | Ok i => WithFormat (selectFormat (targetBitrate bitrate) (formats i))
  | Throws _ => HighestAudioOnly
  end.

(** The value of oldPhoneMode after the default of the destructuring
    pattern. *)
Definition oldPhoneMode_of (body : Json) : JsValue :=
  with_default (field body "oldPhoneMode") (Value (JBool true)).

(** Whether [oldPhoneMode.toString()] returns a text that the headers of
    the response take. *)
Definition header_taken (oldPhoneMode : JsValue) : bool :=
  match toString_of oldPhoneMode with
  | Some text => header_value_ok text
  | None => false
  end.

End Executions.

(* ===================================================================== *)
(** ** /api/test: the list of available qualities                         *)
(* ===================================================================== *)

Module TestRoute.
Import Js.

(** One element of [availableQualities]:
    [{ quality: format.qualityLabel, itag: format.itag,
       container: format.container }]. *)
Record entry : Type := {
  quality : option jsstring;
  itag : Z;
  container : jsstring
}.

Definition to_entry (format : Selector.videoFormat) : entry :=
  {| quality := Selector.qualityLabel format;
     itag := Selector.itag format;
     container := Selector.container format |}.

(** [s.replace('p', '')]: a string pattern replaces its first occurrence
    only. *)
Fixpoint replace_first_p (s : jsstring) : jsstring :=
  match s with
  | [] => []
  | c :: t => if c =? 112 then t else c :: replace_first_p t
  end.

(** Truthiness of [format.quality], a string or [undefined]. *)
Definition quality_truthy (e : entry) : bool :=
  match quality e with
  | Some (_ :: _) => true
  | _ => false
  end.

(** [parseInt(a.quality?.replace('p', '') || '0')]. *)
Definition resolution (e : entry) : Number :=
  parseInt
    match quality e with
    | Some q => or_default (replace_first_p q) (lit "0")
    | None => lit "0"
    end.

(** [sort] reads the result of a comparator by its sign, NaN as +0. *)
Definition sign_of (v : Number) : Z :=
  match v with
  | NotANumber => 0
  | Finite n => n
  | Infinity negative => if negative then -1 else 1
  end.

(** The comparator [(a, b) => bRes - aRes]. *)
Definition by_resolution_desc (a b : entry) : Z :=
  sign_of (minus (resolution b) (resolution a)).

(** A consistent comparator for the elements of an array: every element
    equals itself, equality is symmetric and transitive, and so are
    "before" and "after". *)
Definition consistent {A : Type} (cmp : A -> A -> Z) (l : list A) : bool :=
  forallb
    (fun a =>
       (cmp a a =? 0)
       && forallb
            (fun b =>
               implb (cmp a b =? 0) (cmp b a =? 0)
               && forallb
                    (fun c =>
                       implb ((cmp a b =? 0) && (cmp b c =? 0))
                         (cmp a c =? 0)
                       && implb ((cmp a b <? 0) && (cmp b c <? 0))
                            (cmp a c <? 0)
                       && implb ((0 <? cmp a b) && (0 <? cmp b c))
                            (0 <? cmp a c))
                    l)
            l)
    l.

(** [array.sort(cmp)].  With a consistent comparator the result is the
    stable sort.  With any other the language leaves the order to the
    engine, and the embedding gives no result: [None]. *)
Definition sort {A : Type} (cmp : A -> A -> Z) (l : list A)
  : option (list A) :=
  if consistent cmp l then Some (Selector.Array_sort cmp l) else None.

(**
<<
  const videoFormats = info.formats
    .filter(format => format.hasVideo && format.hasAudio)
    .map(format => ({ quality: format.qualityLabel, itag: format.itag,
                      container: format.container }))
    .filter(format => format.quality)
    .sort((a, b) => { ... return bRes - aRes; });
>>
    A label that does not start with a number reads as NaN, which the
    comparator makes equal to every other label. *)
Definition unsorted_qualities (formats : list Selector.videoFormat)
  : list entry :=
  filter quality_truthy
    (map to_entry
       (filter (fun format => Selector.hasVideo format
                              && Selector.hasAudio format) formats)).

Definition availableQualities (formats : list Selector.videoFormat)
  : option (list entry) :=
  sort by_resolution_desc (unsorted_qualities formats).

(** The place of a label in the order of the Numbers: the infinities lie
    outside every finite Number, whose magnitude is below 2^1024; 0 stands
    in for NaN. *)
Definition resolution_key (e : entry) : Z :=
  match resolution e with
  | Finite n => n
  | Infinity negative => if negative then - 2 ^ 1024 else 2 ^ 1024
  | NotANumber => 0
  end.

(** A format with a picture, a quality label and, maybe, sound. *)
Definition labelled_format (tag : Z) (label : string) (audio : bool)
  : Selector.videoFormat :=
  {| Selector.itag := tag; Selector.hasAudio := audio;
     Selector.hasVideo := true; Selector.audioBitrate := Some 128;
     Selector.container := lit "mp4";
     Selector.qualityLabel := Some (lit label) |}.

End TestRoute.

(* ===================================================================== *)
(** ** Client: URL check and download flow                                *)
(* ===================================================================== *)

Module Ui.
Import Js Sanitizer Client.

(** [p] at the start of [s], and what follows it. *)
Fixpoint strip_prefix (p s : jsstring) : option jsstring :=
  match p, s with
  | [], _ => Some s
  | c :: p', d :: s' => if c =? d then strip_prefix p' s' else None
  | _ :: _, [] => None
  end.

(** A literal followed by the rest [k] of the pattern. *)
Definition literal (p : string) (k : jsstring -> bool) (s : jsstring)
  : bool :=
  match strip_prefix (lit p) s with
  | Some rest => k rest
  | None => false
  end.

(** [(p)?] followed by [k]: with the literal, or else without it. *)
Definition optional (p : string) (k : jsstring -> bool) (s : jsstring)
  : bool :=
  literal p k s || k s.

(** The code units [.] does not match. *)
Definition is_line_terminator (c : char16) : bool :=
  (c =? 10) || (c =? 13) || (c =? 8232) || (c =? 8233).

(** [.+] at the end of the pattern: one code unit is enough. *)
Definition any_plus (s : jsstring) : bool :=
  match s with
  | c :: _ => negb (is_line_terminator c)
  | [] => false
  end.

(**
<<
  const youtubeRegex = /^(https?:\/\/)?(www\.)?(youtube\.com|youtu\.be)\/.+/;
  return youtubeRegex.test(url);
>> *)
Definition url_path : jsstring -> bool := literal "/" any_plus.

Definition url_host (s : jsstring) : bool :=
  literal "youtube.com" url_path s || literal "youtu.be" url_path s.

Definition url_www : jsstring -> bool := optional "www." url_host.

Definition validateYouTubeUrl (url : jsstring) : bool :=
  literal "http" (optional "s" (literal "://" url_www)) url || url_www url.

(** The strings the pattern describes: an optional scheme, an optional
    "www.", one of the two hosts, a slash, and at least one more code
    unit that does not end a line. *)
Definition is_path (s : jsstring) : Prop :=
  exists c rest, s = lit "/" ++ c :: rest /\
                 c <> 10 /\ c <> 13 /\ c <> 8232 /\ c <> 8233.

Definition accepted_url (url : jsstring) : Prop :=
  exists scheme www host path,
    (scheme = "" \/ scheme = "http://" \/ scheme = "https://")%string /\
    (www = "" \/ www = "www.")%string /\
    (host = "youtube.com" \/ host = "youtu.be")%string /\
    is_path path /\
    url = lit scheme ++ lit www ++ lit host ++ path.

Inductive BitrateOption : Type := B128 | B192.
Inductive SampleRateOption : Type := R16000 | R22050 | R44100.

Definition bitrate_text (b : BitrateOption) : jsstring :=
  match b with
  | B128 => lit "128"
  | B192 => lit "192"
  end.

Definition sampleRate_text (r : SampleRateOption) : jsstring :=
  match r with
  | R16000 => lit "16000"
  | R22050 => lit "22050"
  | R44100 => lit "44100"
  end.

Inductive downloadStatus : Type :=
| Idle | Downloading | Converting | Completed | Error.

(** A text shown to the user: a string, the engine's wording of a
    TypeError, or the string form of a JSON value. *)
Inductive message : Type :=
| Text (s : jsstring)
| TypeErrorText
| StringOf (j : Server.Json).

(** The progress field: a literal number, or [50 + (progress * 0.4)]
    for the progress a checkpoint reported. *)
Inductive progressValue : Type :=
| Percent (n : Z)
| Scaled (progress : Z).

Record DownloadState : Type := {
  isDownloading : bool;
  progress : progressValue;
  status : downloadStatus;
  error : option message
}.

(** The body of the request to /api/download. *)
Record downloadRequest : Type := {
  url : jsstring;
  bitrate : BitrateOption;
  sampleRate : SampleRateOption;
  oldPhoneMode : bool
}.

(** What [handleDownload] reads of the response: [response.ok] and the
    headers, [None] where [headers.get] gives [null]. *)
Record httpResponse : Type := {
  ok : bool;
  xVideoTitle : option jsstring;
  xBitrate : option jsstring;
  xSampleRate : option jsstring;
  xOldPhoneMode : option jsstring
}.

Inductive uiCall : Type -> Type :=
| SetDownloadState (update : DownloadState -> DownloadState) : uiCall unit
| Fetch (request : downloadRequest)
    : uiCall (Server.result httpResponse)
| ResponseJson : uiCall (Server.result Server.Json)
| ArrayBuffer : uiCall (Server.result (list Byte.byte))
| Wait (ms : Z) : uiCall unit
| CreateObjectURL (b : blob) : uiCall jsstring
| ClickLink (href download : jsstring) : uiCall unit
| RevokeLater (href : jsstring) (ms : Z) : uiCall unit.

Local Open Scope prog_scope.

Definition enter_link : jsstring :=
  [2470; 2479; 2492; 2494; 32; 2453; 2480; 2503; 32; 2447; 2453; 2463;
   2495; 32; 2439; 2441; 2463; 2495; 2441; 2476; 32; 2482; 2495; 2434;
   2453; 32; 2470; 2495; 2472].

Definition enter_valid_link : jsstring :=
  [2470; 2479; 2492; 2494; 32; 2453; 2480; 2503; 32; 2447; 2453; 2463;
   2495; 32; 2476; 2504; 2471; 32; 2439; 2441; 2463; 2495; 2441; 2476;
   32; 2482; 2495; 2434; 2453; 32; 2470; 2495; 2472].

Definition download_failed : jsstring :=
  [2465; 2494; 2441; 2472; 2482; 2507; 2465; 32; 2476; 2509; 2479; 2480;
   2509; 2469; 32; 2489; 2479; 2492; 2503; 2459; 2503].

(** [headers.get(name) || dflt]. *)
Definition header_or (h : option jsstring) (dflt : jsstring) : jsstring :=
  match h with
  | Some s => or_default s dflt
  | None => dflt
  end.

(** The callback passed to [convertToMp3] and the timer, as calls of the
    download flow; the callback returns normally. *)
Definition translate {X : Type} (c : clientCall X) : prog uiCall X :=
  match c in clientCall X return prog uiCall X with
  | OnProgress p =>
      call (SetDownloadState
              (fun prev =>
                 {| isDownloading := isDownloading prev;
                    progress := Scaled p;
                    status := status prev;
                    error := error prev |})) ;;
      Ret true
  | SetTimeout ms => call (Wait ms)
  end.

Fixpoint embed {R : Type} (p : prog clientCall R) : prog uiCall R :=
  match p with
  | Ret r => Ret r
  | Do c k => bind (translate c) (fun x => embed (k x))
  end.

(** The [catch] block of [handleDownload]. *)
Definition fail (m : message) : prog uiCall unit :=
  call (SetDownloadState
          (fun _ =>
             {| isDownloading := false; progress := Percent 0;
                status := Error; error := Some m |})).

(** [throw new Error(errorData.error || ...)]: the message of the error. *)
Definition error_of (errorData : Server.Json) : message :=
  match Server.destructure errorData (lit "error") with
  | None => TypeErrorText
  | Some v =>
      if Server.truthy v then
        match v with
        | Server.Value (Server.JString s) => Text s
        | Server.Value j => StringOf j
        | Server.Undefined => Text download_failed
        end
      else Text download_failed
  end.

(** [handleDownload], for the url and the settings of the form. *)
Definition handleDownload (url : jsstring) (selectedBitrate : BitrateOption)
    (selectedSampleRate : SampleRateOption) (useOldPhoneMode : bool)
  : prog uiCall unit :=
  match trim url with
  | [] =>
      call (SetDownloadState
              (fun prev =>
                 {| isDownloading := isDownloading prev;
                    progress := progress prev;
                    status := Error;
                    error := Some (Text enter_link) |}))
  | _ :: _ =>
      if negb (validateYouTubeUrl url) then
        call (SetDownloadState
                (fun prev =>
                   {| isDownloading := isDownloading prev;
                      progress := progress prev;
                      status := Error;
                      error := Some (Text enter_valid_link) |}))
      else
        call (SetDownloadState
                (fun _ =>
                   {| isDownloading := true; progress := Percent 10;
                      status := Downloading; error := None |})) ;;
        fetched <- call (Fetch {| url := url; bitrate := selectedBitrate;
                                  sampleRate := selectedSampleRate;
                                  oldPhoneMode := useOldPhoneMode |}) ;;
        match fetched with
        | Server.Throws m => fail (Text m)
        | Server.Ok response =>
            if negb (ok response) then
              errorData <- call ResponseJson ;;
              match errorData with
              | Server.Throws m => fail (Text m)
              | Server.Ok j => fail (error_of j)
              end
            else
              call (SetDownloadState
                      (fun prev =>
                         {| isDownloading := isDownloading prev;
                            progress := Percent 50;
                            status := Converting;
                            error := error prev |})) ;;
              buffer <- call ArrayBuffer ;;
              match buffer with
              | Server.Throws m => fail (Text m)
              | Server.Ok audioBuffer =>
                  let videoTitle :=
                    header_or (xVideoTitle response) (lit "youtube_audio") in
                  let responseBitrate :=
                    header_or (xBitrate response)
                      (bitrate_text selectedBitrate) in
                  let responseSampleRate :=
                    header_or (xSampleRate response)
                      (sampleRate_text selectedSampleRate) in
                  let responseOldPhoneMode :=
                    match xOldPhoneMode response with
                    | Some s => string_eq s (lit "true")
                    | None => false
                    end in
                  settled <- embed (convertToMp3 audioBuffer responseBitrate
                                      responseSampleRate responseOldPhoneMode
                                      true) ;;
                  match settled with
                  | Resolved mp3Blob =>
                      call (SetDownloadState
                              (fun prev =>
                                 {| isDownloading := isDownloading prev;
                                    progress := Percent 100;
                                    status := Completed;
                                    error := error prev |})) ;;
                      downloadUrl <- call (CreateObjectURL mp3Blob) ;;
                      let filename :=
                        cleanTitle videoTitle ++ lit ".mp3" in
                      call (ClickLink downloadUrl filename) ;;
                      call (RevokeLater downloadUrl 1000)
                  | Rejected m => fail (Text m)
                  | Pending => Ret tt
                  end
              end
        end
  end.

(** The surroundings of one run: the answers of the network and of the
    browser.  No call is made twice in one run of [handleDownload]. *)
Definition world := forall X, uiCall X -> X.

(** What one run leaves behind, in order. *)
Inductive effect : Type :=
| StateSet (s : DownloadState)
| Requested (request : downloadRequest)
| ReadJson
| ReadBuffer
| Slept (ms : Z)
| MadeURL (b : blob) (href : jsstring)
| Clicked (href download : jsstring)
| RevokeScheduled (href : jsstring) (ms : Z).

Definition step {X : Type} (c : uiCall X) (x : X) (s : DownloadState)
  : DownloadState * effect :=
  match c in uiCall X return X -> DownloadState * effect with
  | SetDownloadState update => fun _ => (update s, StateSet (update s))
  | Fetch request => fun _ => (s, Requested request)
  | ResponseJson => fun _ => (s, ReadJson)
  | ArrayBuffer => fun _ => (s, ReadBuffer)
  | Wait ms => fun _ => (s, Slept ms)
  | CreateObjectURL b => fun href => (s, MadeURL b href)
  | ClickLink href download => fun _ => (s, Clicked href download)
  | RevokeLater href ms => fun _ => (s, RevokeScheduled href ms)
  end x.

(** One run of a flow from the download state [s]: the final state and
    the effects. *)
Fixpoint run_ui {R : Type} (w : world) (p : prog uiCall R)
    (s : DownloadState) : R * DownloadState * list effect :=
  match p with
  | Ret r => (r, s, [])
  | Do c k =>
      let x := w _ c in
      let (s1, e) := step c x s in
      let '(r, s2, es) := run_ui w (k x) s1 in
      (r, s2, e :: es)
  end.

(** The final state and the effects of a run. *)
Definition outcome {R : Type} (w : world) (p : prog uiCall R)
    (s : DownloadState) : DownloadState * list effect :=
  (snd (fst (run_ui w p s)), snd (run_ui w p s)).

(** The statuses the state takes during a run. *)
Fixpoint statuses (es : list effect) : list downloadStatus :=
  match es with
  | [] => []
  | StateSet s :: rest => status s :: statuses rest
  | _ :: rest => statuses rest
  end.

(** The state a run of [handleDownload] starts the request in, and the
    states it ends in. *)
Definition started : DownloadState :=
  {| isDownloading := true; progress := Percent 10;
     status := Downloading; error := None |}.

Definition finished : DownloadState :=
  {| isDownloading := true; progress := Percent 100;
     status := Completed; error := None |}.

Definition failed (m : message) : DownloadState :=
  {| isDownloading := false; progress := Percent 0;
     status := Error; error := Some m |}.

(** The download state while a checkpoint of the conversion is shown. *)
Definition converting_at (p : progressValue) : DownloadState :=
  {| isDownloading := true; progress := p;
     status := Converting; error := None |}.

(** The links clicked during a run, as pairs of address and file name. *)
Fixpoint clicked (es : list effect) : list (jsstring * jsstring) :=
  match es with
  | [] => []
  | Clicked href download :: rest => (href, download) :: clicked rest
  | _ :: rest => clicked rest
  end.

(** The requests sent during a run. *)
Fixpoint requested (es : list effect) : list downloadRequest :=
  match es with
  | [] => []
  | Requested request :: rest => request :: requested rest
  | _ :: rest => requested rest
  end.

(** Surroundings with fixed answers. *)
Definition fixed_world (fetched : Server.result httpResponse)
    (json : Server.result Server.Json)
    (buffer : Server.result (list Byte.byte)) : world :=
  fun X c =>
    match c in uiCall X return X with
    | SetDownloadState _ => tt
    | Fetch _ => fetched
    | ResponseJson => json
    | ArrayBuffer => buffer
    | Wait _ => tt
    | CreateObjectURL _ => lit "blob:1"
    | ClickLink _ _ => tt
    | RevokeLater _ _ => tt
    end.

(** The number a bitrate setting stands for. *)
Definition bitrate_number (b : BitrateOption) : Z :=
  match b with
  | B128 => 128
  | B192 => 192
  end.

(** The body the server parses from the request of the client:
    [JSON.stringify({ url, bitrate, sampleRate, oldPhoneMode })]. *)
Definition request_body (request : downloadRequest) : Server.Json :=
  Server.JObject
    [(lit "url", Server.JString (url request));
     (lit "bitrate", Server.JString (bitrate_text (bitrate request)));
     (lit "sampleRate",
      Server.JString (sampleRate_text (sampleRate request)));
     (lit "oldPhoneMode", Server.JBool (oldPhoneMode request))].

End Ui.

(* ===================================================================== *)
(** ** The earlier versions of the handler and of the file name           *)
(* ===================================================================== *)

Module Legacy.
Import Js Sanitizer Server.

Record headers : Type := {
  contentType : jsstring;
  xVideoTitle : jsstring
}.

Inductive reply : Type :=
| ErrorReply (status : Z) (text : errorText)
| AudioReply (body : list Byte.byte) (h : headers).

Local Open Scope prog_scope.

(** The earlier POST handler of /api/download: no quality settings, the
    stream is always requested as highest audio-only quality. *)
Definition POST (json : result Json) : prog resolverCall reply :=
  match json with
  | Throws message => Ret (ErrorReply 500 (ServerErrorOf (Failure message)))
  | Ok body =>
      match destructure body (lit "url") with
      | None => Ret (ErrorReply 500 (ServerErrorOf TypeError))
      | Some url =>
          if negb (truthy url) then Ret (ErrorReply 400 url_required)
          else
            valid <- call (ValidateURL url) ;;
            if negb valid then Ret (ErrorReply 400 invalid_url)
            else
              r1 <- call (GetInfo url) ;;
              let title :=
                match r1 with
                | Ok info => standardTitle (title info)
                | Throws _ => default_title
                end in
              r2 <- call (Download url HighestAudioOnly) ;;
              match r2 with
              | Throws message =>
                  Ret (ErrorReply 500 (ServerErrorOf (Failure message)))
              | Ok audioBuffer =>
                  Ret (AudioReply audioBuffer
                         {| contentType := lit "audio/mp4";
                            xVideoTitle := title |})
              end
      end
  end.

(** The file name stem of the earlier client:
<<
  const cleanTitle = videoTitle.replace(/[^\w\s-]/g, '').replace(/\s+/g, '_');
>> *)
Definition cleanTitle (videoTitle : jsstring) : jsstring :=
  replace_runs is_space [underscore]
    (remove_class (fun c => negb (keep_standard c)) videoTitle).

End Legacy.

(* ===================================================================== *)
(** ** Client: the metadata preview                                       *)
(* ===================================================================== *)

Module Preview.
Import Js.

(** The fields of [VideoInfo], read from the JSON answer as they are. *)
Record VideoInfo : Type := {
  title : Server.JsValue;
  duration : Server.JsValue;
  author : Server.JsValue;
  viewCount : Server.JsValue;
  thumbnail : Server.JsValue
}.

(** The two pieces of component state [fetchVideoInfo] writes. *)
Record previewState : Type := {
  videoInfo : option VideoInfo;
  isLoadingInfo : bool
}.

Inductive previewCall : Type -> Type :=
| SetIsLoadingInfo (b : bool) : previewCall unit
| SetVideoInfo (info : option VideoInfo) : previewCall unit
| FetchTest (url : jsstring) : previewCall (Server.result unit)
| ResponseJson : previewCall (Server.result Server.Json).

Local Open Scope prog_scope.

(** [data.name] for a parsed answer that is not [null]. *)
Definition get (data : Server.Json) (name : string) : Server.JsValue :=
  match Server.destructure data (lit name) with
  | Some v => v
  | None => Server.Undefined
  end.

(** [data.status === 'success']. *)
Definition is_success (data : Server.Json) : bool :=
  match get data "status" with
  | Server.Value (Server.JString s) => string_eq s (lit "success")
  | _ => false
  end.

(** [fetchVideoInfo]; the [finally] block ends every path that entered
    the [try]. *)
Definition fetchVideoInfo (videoUrl : jsstring) : prog previewCall unit :=
  if negb (Ui.validateYouTubeUrl videoUrl) then Ret tt
  else
    call (SetIsLoadingInfo true) ;;
    call (SetVideoInfo None) ;;
    response <- call (FetchTest videoUrl) ;;
    match response with
    | Server.Throws _ => call (SetIsLoadingInfo false)
    | Server.Ok _ =>
        parsed <- call ResponseJson ;;
        match parsed with
        | Server.Throws _ => call (SetIsLoadingInfo false)
        | Server.Ok Server.JNull =>
            (* reading data.status throws *)
            call (SetIsLoadingInfo false)
        | Server.Ok data =>
            (if is_success data then
               call (SetVideoInfo
                       (Some {| title := get data "title";
                                duration := get data "duration";
                                author := get data "author";
                                viewCount := get data "viewCount";
                                thumbnail := get data "thumbnail" |}))
             else Ret tt) ;;
            call (SetIsLoadingInfo false)
        end
    end.

(** [s.padStart(2, '0')]. *)
Definition padStart2 (s : jsstring) : jsstring :=
  match s with
  | [] => [48; 48]
  | [c] => [48; c]
  | _ => s
  end.

(** The duration shown in the preview:
<<
  {Math.floor(parseInt(videoInfo.duration) / 60)}:
  {(parseInt(videoInfo.duration) % 60).toString().padStart(2, '0')}
>>
    The number in front of the colon and the text behind it. *)
Definition duration_shown (duration : jsstring) : Number * jsstring :=
  let seconds := parseInt duration in
  (floor_quotient seconds 60,
   padStart2
     match remainder seconds 60 with
     | Finite r => toString r
     | NotANumber => lit "NaN"
     | Infinity negative =>
         if negative then lit "-Infinity" else lit "Infinity"
     end).

(** Two decimal digits that read [k]. *)
Definition reads_two_digits (s : jsstring) (k : Z) : bool :=
  match s with
  | [d1; d2] =>
      (48 <=? d1) && (d1 <=? 57) && (48 <=? d2) && (d2 <=? 57)
      && (10 * (d1 - 48) + (d2 - 48) =? k)
  | _ => false
  end.

(** The answers of the network. *)
Definition network := forall X, previewCall X -> X.

Definition apply_call {X : Type} (c : previewCall X) (s : previewState)
  : previewState :=
  match c with
  | SetIsLoadingInfo b =>
      {| videoInfo := videoInfo s; isLoadingInfo := b |}
  | SetVideoInfo info =>
      {| videoInfo := info; isLoadingInfo := isLoadingInfo s |}
  | FetchTest _ => s
  | ResponseJson => s
  end.

Definition request_of {X : Type} (c : previewCall X) : list jsstring :=
  match c with
  | FetchTest url => [url]
  | _ => []
  end.

(** One run: the final state and the urls requested. *)
Fixpoint run {R : Type} (n : network) (p : prog previewCall R)
    (s : previewState) : previewState * list jsstring :=
  match p with
  | Ret _ => (s, [])
  | Do c k =>
      let (s', urls) := run n (k (n _ c)) (apply_call c s) in
      (s', request_of c ++ urls)
  end.

(** A network with fixed answers. *)
Definition fixed_network (fetched : Server.result unit)
    (parsed : Server.result Server.Json) : network :=
  fun X c =>
    match c in previewCall X return X with
    | SetIsLoadingInfo _ => tt
    | SetVideoInfo _ => tt
    | FetchTest _ => fetched
    | ResponseJson => parsed
    end.

End Preview.

(* ===================================================================== *)
(** * Properties                                                          *)
(* ===================================================================== *)

(** ** Regular expression steps *)

Section RegexSteps.
Import Js.

Variable cls : char16 -> bool.
Variable rep : jsstring.

#[local] Abbreviation Collapsed := (Collapsed cls rep).

Lemma replace_runs_from_Collapsed (s : jsstring) :
  Collapsed s (replace_runs_from cls rep false s) /\
  forall w, w <> [] -> Forall (fun c => cls c = true) w ->
    Collapsed (w ++ s) (rep ++ replace_runs_from cls rep true s).
Proof.
  induction s as [|c t [IHf IHt]]; simpl.
  - split; [constructor|].
    intros w Hw Hall. apply Collapsed_run; auto. constructor.
  - destruct (cls c) eqn:Hc.
    + split.
      * apply (IHt [c]); [discriminate|]. constructor; auto.
      * intros w Hw Hall.
        replace (w ++ c :: t) with ((w ++ [c]) ++ t)
          by (rewrite <- app_assoc; reflexivity).
        apply IHt.
        -- destruct w; discriminate.
        -- apply Forall_app; split; auto.
    + split.
      * constructor; auto.
      * intros w Hw Hall. apply Collapsed_run; auto.
        constructor; auto.
Qed.

Lemma replace_runs_Collapsed (s : jsstring) :
  Collapsed s (replace_runs cls rep s).
Proof. apply replace_runs_from_Collapsed. Qed.

(** A subject without any code unit of the class is left alone. *)
Lemma replace_runs_from_id (b : bool) (s : jsstring) :
  Forall (fun c => cls c = false) s -> replace_runs_from cls rep b s = s.
Proof.
  revert b. induction s as [|c t IH]; intros b H; simpl; [reflexivity|].
  inversion H as [|? ? Hc Ht]; subst. rewrite Hc. f_equal. auto.
Qed.

(** Every code unit of the result comes from the replacement or is a
    code unit of the subject outside the class. *)
Lemma replace_runs_from_Forall (P : char16 -> Prop) (b : bool) (s : jsstring) :
  Forall P rep ->
  Forall (fun c => cls c = false -> P c) s ->
  Forall P (replace_runs_from cls rep b s).
Proof.
  intros Hrep. revert b. induction s as [|c t IH]; intros b H; simpl.
  - constructor.
  - inversion H as [|? ? Hc Ht]; subst.
    destruct (cls c) eqn:E.
    + destruct b; [auto|]. apply Forall_app; split; auto.
    + constructor; auto.
Qed.

(** The result is free of the class as soon as the replacement is. *)
Lemma replace_runs_from_free (b : bool) (s : jsstring) :
  Forall (fun c => cls c = false) rep ->
  Forall (fun c => cls c = false) (replace_runs_from cls rep b s).
Proof.
  intros Hrep. apply replace_runs_from_Forall; [assumption|].
  apply Forall_forall. auto.
Qed.

End RegexSteps.

(** ** Character classes *)

Section Classes.
Import Js.

Lemma word_not_space (c : char16) : is_word c = true -> is_space c = false.
Proof.
  unfold is_word, is_space, is_upper, is_lower, is_digit, between, underscore.
  intros H.
  repeat (apply orb_true_iff in H; destruct H as [H|H]);
    repeat (apply andb_true_iff in H; destruct H as [? H]);
    repeat (apply orb_false_iff; split);
    try (apply andb_false_iff); lia.
Qed.

(** The class [\w], spelled out. *)
Lemma is_word_spec (c : char16) :
  is_word c = true <->
  (65 <= c <= 90 \/ 97 <= c <= 122 \/ 48 <= c <= 57 \/ c = 95).
Proof.
  unfold is_word, is_upper, is_lower, is_digit, between, underscore.
  rewrite !orb_true_iff, !andb_true_iff, !Z.leb_le, Z.eqb_eq. tauto.
Qed.

Lemma drop_while_id (p : char16 -> bool) (s : jsstring) :
  Forall (fun c => p c = false) s -> drop_while p s = s.
Proof.
  destruct s as [|c t]; simpl; [reflexivity|].
  intros H. inversion H as [|? ? Hc _]; subst. now rewrite Hc.
Qed.

(** [trim] does nothing on a string without white space. *)
Lemma trim_id (s : jsstring) :
  Forall (fun c => is_space c = false) s -> trim s = s.
Proof.
  intros H. unfold trim. rewrite (drop_while_id _ s H).
  rewrite drop_while_id; [apply rev_involutive|].
  now apply Forall_rev.
Qed.

Lemma remove_class_Forall (cls : char16 -> bool) (s : jsstring) :
  Forall (fun c => cls c = false) (remove_class cls s).
Proof.
  unfold remove_class. apply Forall_forall. intros c Hc.
  apply filter_In in Hc. destruct Hc as [_ Hc].
  now apply negb_true_iff in Hc.
Qed.

Lemma remove_class_id (cls : char16 -> bool) (s : jsstring) :
  Forall (fun c => cls c = false) s -> remove_class cls s = s.
Proof.
  unfold remove_class. induction 1 as [|c t Hc _ IH]; simpl; [reflexivity|].
  rewrite Hc. simpl. now f_equal.
Qed.

Lemma drop_last_if_Forall (P : char16 -> Prop) (p : char16 -> bool)
    (s : jsstring) :
  Forall P s -> Forall P (drop_last_if p s).
Proof.
  induction 1 as [|c t Hc Ht IH]; simpl; [constructor|].
  destruct t as [|d t'].
  - destruct (p c); auto.
  - constructor; auto.
Qed.

Lemma strip_edge_underscores_Forall (P : char16 -> Prop) (s : jsstring) :
  Forall P s -> Forall P (strip_edge_underscores s).
Proof.
  intros H. unfold strip_edge_underscores. apply drop_last_if_Forall.
  destruct s as [|c t]; [constructor|].
  destruct (c =? underscore); [now inversion H | assumption].
Qed.

Lemma firstn_Forall (P : char16 -> Prop) (n : nat) (s : jsstring) :
  Forall P s -> Forall P (firstn n s).
Proof.
  intros H. revert n. induction H as [|c t Hc _ IH]; intros [|n]; simpl;
    constructor; auto.
Qed.

End Classes.

(** ** The sanitizer *)

Section SanitizerFacts.
Import Js Sanitizer.

Lemma standard_body_no_space (x : jsstring) :
  Forall (fun c => is_space c = false) (standard_body x).
Proof.
  apply replace_runs_from_free. constructor; [reflexivity | constructor].
Qed.

Lemma standardTitle_body (x : jsstring) :
  standardTitle x = or_default (standard_body x) default_title.
Proof.
  unfold standardTitle. fold (standard_body x).
  now rewrite (trim_id _ (standard_body_no_space x)).
Qed.

Lemma standard_body_chars (x : jsstring) :
  Forall (fun c => is_word c = true \/ c = hyphen) (standard_body x).
Proof.
  apply replace_runs_from_Forall.
  - constructor; [left; reflexivity | constructor].
  - eapply Forall_impl; [|apply remove_class_Forall].
    cbv beta. intros c Hk Hs. apply negb_false_iff in Hk.
    unfold keep_standard in Hk. rewrite Hs, orb_false_r in Hk.
    apply orb_true_iff in Hk. destruct Hk as [Hk|Hk]; [now left|].
    right. now apply Z.eqb_eq.
Qed.

Lemma default_title_chars :
  Forall (fun c => is_word c = true) default_title.
Proof. repeat constructor. Qed.

Lemma standardTitle_chars (x : jsstring) :
  Forall (fun c => is_word c = true \/ c = hyphen) (standardTitle x).
Proof.
  rewrite standardTitle_body.
  pose proof (standard_body_chars x) as H.
  destruct (standard_body x); simpl; [|assumption].
  eapply Forall_impl; [|apply default_title_chars]. now left.
Qed.

Lemma or_default_nonempty (s d : jsstring) : d <> [] -> or_default s d <> [].
Proof. destruct s; simpl; [auto | discriminate]. Qed.

Lemma standardTitle_nonempty (x : jsstring) : standardTitle x <> [].
Proof. rewrite standardTitle_body. now apply or_default_nonempty. Qed.

(** A non-empty string of word code units and hyphens is a fixed point
    of the standard pipeline. *)
Lemma standardTitle_fixed (y : jsstring) :
  Forall (fun c => is_word c = true \/ c = hyphen) y -> y <> [] ->
  standardTitle y = y.
Proof.
  intros Hy Hne. rewrite standardTitle_body. unfold standard_body.
  rewrite remove_class_id.
  - unfold replace_runs. rewrite replace_runs_from_id.
    + destruct y; [contradiction | reflexivity].
    + eapply Forall_impl; [|exact Hy]. cbv beta.
      intros c [Hc| ->]; [now apply word_not_space | reflexivity].
  - eapply Forall_impl; [|exact Hy]. cbv beta.
    intros c [Hc| ->]; [|reflexivity].
    apply negb_false_iff. unfold keep_standard. now rewrite Hc.
Qed.

End SanitizerFacts.

(** ** Shape of the compatibility pipeline *)

Section CompatShape.
Import Js Sanitizer.

Lemma collapse_shape (b : bool) (s : jsstring) :
  no_double (replace_runs_from is_underscore [underscore] b s) /\
  (b = true ->
   ~ heads_underscore (replace_runs_from is_underscore [underscore] b s)).
Proof.
  revert b. induction s as [|c t IH]; intros b; simpl.
  - split; [exact I | intros _ H; exact H].
  - destruct (is_underscore c) eqn:Hc.
    + destruct b.
      * apply IH.
      * split; [|discriminate]. simpl. split; [|apply IH].
        intros _. now apply IH.
    + unfold is_underscore in Hc. apply Z.eqb_neq in Hc.
      split; [|intros _; exact Hc]. simpl. split; [|apply IH].
      intros E. contradiction.
Qed.

Lemma collapse_id (b : bool) (s : jsstring) :
  no_double s -> (b = true -> ~ heads_underscore s) ->
  replace_runs_from is_underscore [underscore] b s = s.
Proof.
  revert b. induction s as [|c t IH]; intros b Hnd Hh; simpl;
    [reflexivity|].
  destruct Hnd as [Hc Ht].
  destruct (is_underscore c) eqn:E.
  - unfold is_underscore in E. apply Z.eqb_eq in E. subst c.
    destruct b; [exfalso; now apply Hh|].
    simpl. f_equal. apply IH; auto.
  - f_equal. apply IH; [assumption | discriminate].
Qed.

Lemma drop_last_if_no_double (s : jsstring) :
  no_double s -> no_double (drop_last_if is_underscore s).
Proof.
  induction s as [|c t IH]; simpl; [auto|].
  intros [Hc Ht]. destruct t as [|d t'].
  - destruct (is_underscore c); simpl; auto.
  - specialize (IH Ht). split; [|exact IH].
    intros E. specialize (Hc E). simpl in Hc.
    destruct t' as [|e t'']; simpl.
    + destruct (is_underscore d); simpl; auto.
    + exact Hc.
Qed.

Lemma drop_last_if_head (s : jsstring) :
  ~ heads_underscore s -> ~ heads_underscore (drop_last_if is_underscore s).
Proof.
  destruct s as [|c [|d t]]; simpl; auto.
  destruct (is_underscore c); simpl; auto.
Qed.

(** After the last underscore is dropped from a string without doubled
    underscores, the string does not end with one. *)
Lemma drop_last_if_last (s : jsstring) :
  no_double s -> last (drop_last_if is_underscore s) 0 <> underscore.
Proof.
  induction s as [|c t IH]; [discriminate|].
  intros [Hc Ht]. specialize (IH Ht). destruct t as [|d t'].
  - simpl. destruct (is_underscore c) eqn:E; [discriminate|].
    simpl. unfold is_underscore in E. now apply Z.eqb_neq in E.
  - change (drop_last_if is_underscore (c :: d :: t'))
      with (c :: drop_last_if is_underscore (d :: t')).
    destruct (drop_last_if is_underscore (d :: t')) as [|e r] eqn:Er.
    + simpl. intros E. apply (Hc E). simpl.
      destruct t' as [|e t'']; simpl in Er.
      * destruct (is_underscore d) eqn:Ed; [|discriminate].
        unfold is_underscore in Ed. now apply Z.eqb_eq in Ed.
      * discriminate.
    + exact IH.
Qed.

Lemma drop_last_if_id (s : jsstring) :
  last s 0 <> underscore -> drop_last_if is_underscore s = s.
Proof.
  induction s as [|c t IH]; [reflexivity|].
  destruct t as [|d t'].
  - simpl. intros H. destruct (is_underscore c) eqn:E; [|reflexivity].
    unfold is_underscore in E. apply Z.eqb_eq in E. contradiction.
  - intros H. change (drop_last_if is_underscore (c :: d :: t'))
      with (c :: drop_last_if is_underscore (d :: t')).
    f_equal. apply IH. exact H.
Qed.

Lemma firstn_no_double (n : nat) (s : jsstring) :
  no_double s -> no_double (firstn n s).
Proof.
  revert n. induction s as [|c t IH]; intros [|n]; simpl; auto.
  intros [Hc Ht]. split; [|auto].
  intros E. specialize (Hc E). destruct n, t; simpl; auto.
Qed.

Lemma firstn_head (n : nat) (s : jsstring) :
  ~ heads_underscore s -> ~ heads_underscore (firstn n s).
Proof. destruct n, s; simpl; auto. Qed.

Lemma replace_runs_from_length (cls : char16 -> bool) (r : char16)
    (b : bool) (s : jsstring) :
  (length (replace_runs_from cls [r] b s) <= length s)%nat.
Proof.
  revert b. induction s as [|c t IH]; intros b; simpl; [lia|].
  destruct (cls c).
  - destruct b; simpl.
    + specialize (IH true). lia.
    + specialize (IH true). lia.
  - simpl. specialize (IH false). lia.
Qed.

Lemma drop_last_if_length (p : char16 -> bool) (s : jsstring) :
  (length (drop_last_if p s) <= length s)%nat.
Proof.
  induction s as [|c t IH]; simpl; [lia|].
  destruct t as [|d t'].
  - destruct (p c); simpl; lia.
  - simpl in *. lia.
Qed.

Lemma strip_edge_underscores_length (s : jsstring) :
  (length (strip_edge_underscores s) <= length s)%nat.
Proof.
  unfold strip_edge_underscores. destruct s as [|c t].
  - simpl. lia.
  - destruct (c =? underscore).
    + pose proof (drop_last_if_length (fun c => c =? underscore) t).
      simpl. lia.
    + apply drop_last_if_length.
Qed.

Lemma cleanTitle_body (x : jsstring) :
  cleanTitle x = or_default (firstn 50 (compat_body x)) default_title.
Proof. reflexivity. Qed.

Lemma compat_body_chars (x : jsstring) :
  Forall (fun c => is_word c = true) (compat_body x).
Proof.
  apply strip_edge_underscores_Forall.
  apply replace_runs_from_Forall; [repeat constructor|].
  apply Forall_forall. intros c Hc _. revert c Hc. apply Forall_forall.
  apply replace_runs_from_Forall; [repeat constructor|].
  eapply Forall_impl; [|apply remove_class_Forall].
  cbv beta. intros c Hk Hs. apply negb_false_iff in Hk.
  unfold keep_compat in Hk. now rewrite Hs, orb_false_r in Hk.
Qed.

Lemma compat_body_shape (x : jsstring) :
  no_double (compat_body x) /\ ~ heads_underscore (compat_body x) /\
  last (compat_body x) 0 <> underscore.
Proof.
  unfold compat_body, strip_edge_underscores, replace_runs.
  set (s := replace_runs_from is_underscore [underscore] false _).
  assert (Hs : no_double s) by apply collapse_shape.
  assert (H : no_double (match s with
                         | c :: t => if c =? underscore then t else s
                         | [] => []
                         end)
              /\ ~ heads_underscore (match s with
                         | c :: t => if c =? underscore then t else s
                         | [] => []
                         end)).
  { destruct s as [|c t]; [simpl; auto|].
    destruct (c =? underscore) eqn:E.
    - apply Z.eqb_eq in E. destruct Hs as [Hc Ht]. auto.
    - apply Z.eqb_neq in E. split; [exact Hs | exact E]. }
  destruct H as [Hnd Hh].
  split; [|split].
  - now apply drop_last_if_no_double.
  - now apply drop_last_if_head.
  - now apply drop_last_if_last.
Qed.

Lemma compat_body_length (x : jsstring) :
  (length (compat_body x) <= length x)%nat.
Proof.
  unfold compat_body, replace_runs, remove_class.
  etransitivity; [apply strip_edge_underscores_length|].
  etransitivity; [apply replace_runs_from_length|].
  etransitivity; [apply replace_runs_from_length|].
  apply filter_length_le.
Qed.

End CompatShape.

(** ** Claims about the sanitizer *)

Section SanitizerClaims.
Import Js Sanitizer.


(** The claim also wants the underscores at both ends trimmed.  The code
    calls [trim()] there, but after the white space has become
    underscores, so the call removes nothing: on [" a "] the answer is
    ["_a_"].  The client pipeline does strip the underscores at the
    ends. *)
Example standard_mode_trim_removes_nothing :
  sanitize (lit " a ") false = lit "_a_" /\
  sanitize_standard_as_specified (lit " a ") = lit "a" /\
  sanitize (lit " a ") true = lit "a".
Proof. repeat split. Qed.


Lemma all_underscores_collapse (s : jsstring) :
  Forall (fun c => c = underscore) s ->
  replace_runs_from is_underscore [underscore] true s = [] /\
  (replace_runs_from is_underscore [underscore] false s = [] \/
   replace_runs_from is_underscore [underscore] false s = [underscore]).
Proof.
  induction 1 as [|c t Hc _ [IHt IHf]]; simpl; [auto|].
  subst c. simpl. rewrite IHt. auto.
Qed.

(** A title without any letter or digit leaves nothing. *)
Lemma compat_body_empty (x : jsstring) :
  Forall (fun c => is_letter_or_digit c = false) x -> compat_body x = [].
Proof.
  intros Hx. unfold compat_body, replace_runs.
  set (s2 := replace_runs_from is_space [underscore] false _).
  assert (H2 : Forall (fun c => c = underscore) s2).
  { apply replace_runs_from_Forall; [repeat constructor|].
    unfold remove_class. apply Forall_forall. intros c Hc Hs.
    apply filter_In in Hc. destruct Hc as [Hin Hk].
    rewrite negb_involutive in Hk. unfold keep_compat in Hk.
    rewrite Hs, orb_false_r in Hk.
    rewrite Forall_forall in Hx. specialize (Hx c Hin).
    unfold is_word in Hk. unfold is_letter_or_digit in Hx.
    rewrite Hx in Hk. simpl in Hk. now apply Z.eqb_eq. }
  destruct (all_underscores_collapse s2 H2) as [_ [E|E]]; rewrite E;
    reflexivity.
Qed.

(** C7: in compatibility mode the answer has 1 to 50 code units, each of
    them in [A-Za-z0-9_], and a title that would leave nothing (it has no
    letter and no digit) gives the default "youtube_audio". *)
Theorem compat_mode_pattern (x : jsstring) :
  (1 <= length (sanitize x true) <= 50)%nat /\
  Forall (fun c => 65 <= c <= 90 \/ 97 <= c <= 122 \/ 48 <= c <= 57
                   \/ c = 95) (sanitize x true) /\
  (Forall (fun c => ~ (65 <= c <= 90 \/ 97 <= c <= 122 \/ 48 <= c <= 57)) x ->
   sanitize x true = lit "youtube_audio").
Proof.
  simpl. rewrite cleanTitle_body.
  pose proof (compat_body_chars x) as Hc.
  pose proof (firstn_le_length 50 (compat_body x)) as Hl.
  split; [|split].
  - destruct (firstn 50 (compat_body x)) as [|c r] eqn:E; simpl in *; lia.
  - apply (firstn_Forall _ 50) in Hc.
    destruct (firstn 50 (compat_body x)) as [|c r] eqn:E.
    + simpl. eapply Forall_impl; [|apply default_title_chars].
      intros c Hw. now apply is_word_spec.
    + simpl. eapply Forall_impl; [|exact Hc].
      intros d Hw. now apply is_word_spec.
  - intros Hx. rewrite compat_body_empty; [reflexivity|].
    eapply Forall_impl; [|exact Hx]. cbv beta. intros c Hn.
    unfold is_letter_or_digit, is_upper, is_lower, is_digit, between.
    apply not_true_is_false. intros H. apply Hn.
    rewrite !orb_true_iff, !andb_true_iff, !Z.leb_le in H. tauto.
Qed.

Lemma compat_mode_pattern_witness :
  Forall (fun c => ~ (65 <= c <= 90 \/ 97 <= c <= 122 \/ 48 <= c <= 57))
    (lit "!!!") /\
  sanitize (lit "!!!") true = lit "youtube_audio".
Proof.
  assert (H : Forall (fun c => ~ (65 <= c <= 90 \/ 97 <= c <= 122
                                  \/ 48 <= c <= 57)) (lit "!!!")).
  { simpl. repeat constructor; lia. }
  split; [exact H|].
  exact (proj2 (proj2 (compat_mode_pattern (lit "!!!"))) H).
Defined.

End SanitizerClaims.

(** ** Idempotence of the sanitizer *)

Section Idempotence.
Import Js Sanitizer.

Lemma sanitize_standard_idempotent (x : jsstring) :
  sanitize (sanitize x false) false = sanitize x false.
Proof.
  simpl. apply standardTitle_fixed.
  - apply standardTitle_chars.
  - apply standardTitle_nonempty.
Qed.

(** A clean title is a fixed point of the compatibility pipeline when
    truncation has nothing to do and no underscore sits at its end. *)
Lemma cleanTitle_fixed (y : jsstring) :
  Forall (fun c => is_word c = true) y -> y <> [] ->
  no_double y -> ~ heads_underscore y -> (length y <= 50)%nat ->
  last y 0 <> underscore ->
  cleanTitle y = y.
Proof.
  intros Hw Hne Hnd Hh Hlen Hlast.
  rewrite cleanTitle_body. unfold compat_body.
  rewrite remove_class_id.
  2:{ eapply Forall_impl; [|exact Hw]. cbv beta. intros c Hc.
      apply negb_false_iff. unfold keep_compat. now rewrite Hc. }
  unfold replace_runs at 2. rewrite replace_runs_from_id.
  2:{ eapply Forall_impl; [|exact Hw]. intros c. apply word_not_space. }
  unfold replace_runs. rewrite collapse_id; [|assumption|discriminate].
  unfold strip_edge_underscores.
  assert (E : match y with
              | c :: t => if c =? underscore then t else y
              | [] => []
              end = y).
  { destruct y as [|c t]; [reflexivity|].
    destruct (c =? underscore) eqn:Ec; [|reflexivity].
    apply Z.eqb_eq in Ec. exfalso. now apply Hh. }
  rewrite E. fold is_underscore. rewrite drop_last_if_id by assumption.
  rewrite firstn_all2 by assumption.
  destruct y; [contradiction | reflexivity].
Qed.

(** What every answer of the compatibility mode looks like. *)
Lemma cleanTitle_shape (x : jsstring) :
  Forall (fun c => is_word c = true) (cleanTitle x) /\
  cleanTitle x <> [] /\ no_double (cleanTitle x) /\
  ~ heads_underscore (cleanTitle x) /\ (length (cleanTitle x) <= 50)%nat.
Proof.
  rewrite cleanTitle_body.
  destruct (compat_body_shape x) as (Hnd & Hh & _).
  pose proof (compat_body_chars x) as Hw.
  apply (firstn_Forall _ 50) in Hw.
  apply (firstn_no_double 50) in Hnd.
  apply (firstn_head 50) in Hh.
  pose proof (firstn_le_length 50 (compat_body x)) as Hl.
  destruct (firstn 50 (compat_body x)) as [|c r]; simpl or_default.
  - split; [apply default_title_chars|].
    split; [discriminate|].
    split; [|split; [|simpl; lia]].
    + cbv -[Z.eq]. repeat split; intros; discriminate.
    + cbv. discriminate.
  - split; [assumption|]. split; [discriminate|]. auto.
Qed.

(** Without truncation the answer does not end with an underscore. *)
Lemma cleanTitle_short_last (x : jsstring) :
  (length x <= 50)%nat -> last (cleanTitle x) 0 <> underscore.
Proof.
  intros Hlen. rewrite cleanTitle_body.
  rewrite firstn_all2 by (pose proof (compat_body_length x); lia).
  destruct (compat_body_shape x) as (_ & _ & Hlast).
  destruct (compat_body x) as [|c r]; [cbv; discriminate | exact Hlast].
Qed.

(** C6, as stated, fails in compatibility mode: forty-nine letters, a
    space and more text are cut after the underscore into fifty code
    units, and the second pass strips that underscore. *)
Lemma sanitize_idempotent_counterexample :
  sanitize
    (sanitize
       (lit "aaaaaaaaaaaaaaaaaaaaaaaaaaaaaaaaaaaaaaaaaaaaaaaaa bcd") true)
    true
  <> sanitize
       (lit "aaaaaaaaaaaaaaaaaaaaaaaaaaaaaaaaaaaaaaaaaaaaaaaaa bcd") true.
Proof.
  intros H. apply (f_equal (@length _)) in H. vm_compute in H.
  discriminate.
Qed.

(** C6 (amended): the standard mode is idempotent on every input; the
    compatibility mode satisfies sanitize(sanitize(x)) = sanitize(x)
    exactly when sanitize(x) does not end with an underscore, which only
    the truncation to 50 code units can leave there. *)
Theorem sanitize_idempotent_amended (x : jsstring) :
  sanitize (sanitize x false) false = sanitize x false /\
  (sanitize (sanitize x true) true = sanitize x true <->
   last (sanitize x true) 0 <> underscore) /\
  ((length x <= 50)%nat ->
   sanitize (sanitize x true) true = sanitize x true).
Proof.
  split; [apply sanitize_standard_idempotent|].
  destruct (cleanTitle_shape x) as (Hw & Hne & Hnd & Hh & Hlen).
  simpl. split; [split|].
  - intros E. rewrite <- E. now apply cleanTitle_short_last.
  - intros Hlast. now apply cleanTitle_fixed.
  - intros Hx. apply cleanTitle_fixed; auto.
    now apply cleanTitle_short_last.
Qed.

Lemma sanitize_idempotent_amended_witness :
  last (sanitize (lit "Official Video! (HD) 2024") true) 0 <> underscore /\
  (length (lit "Official Video! (HD) 2024") <= 50)%nat /\
  sanitize (sanitize (lit "Official Video! (HD) 2024") true) true
  = sanitize (lit "Official Video! (HD) 2024") true.
Proof.
  assert (H : last (sanitize (lit "Official Video! (HD) 2024") true) 0
              <> underscore) by (vm_compute; discriminate).
  split; [exact H|]. split; [simpl; lia|].
  exact (proj2 (proj1 (proj2
    (sanitize_idempotent_amended (lit "Official Video! (HD) 2024")))) H).
Defined.

End Idempotence.

(** ** Sorting by a key, highest first *)

Section SortDescending.
Import Selector.

Context {A : Type} (key : A -> Z).

#[local] Abbreviation by_key_desc := (by_key_desc key).
#[local] Abbreviation key_ge := (key_ge key).

Lemma sort_insert_perm (x : A) (l : list A) :
  Permutation (sort_insert by_key_desc x l) (x :: l).
Proof.
  induction l as [|y t IH]; simpl; [reflexivity|].
  destruct (by_key_desc x y <=? 0); [reflexivity|].
  rewrite IH. apply perm_swap.
Qed.

Lemma Array_sort_perm (l : list A) :
  Permutation (Array_sort by_key_desc l) l.
Proof.
  induction l as [|x t IH]; simpl; [reflexivity|].
  rewrite sort_insert_perm. now constructor.
Qed.

Lemma sort_insert_sorted (x : A) (l : list A) :
  StronglySorted key_ge l ->
  StronglySorted key_ge (sort_insert by_key_desc x l).
Proof.
  induction 1 as [|y t Ht IH Hy]; simpl.
  - repeat constructor.
  - destruct (by_key_desc x y <=? 0) eqn:E.
    + apply Z.leb_le in E. unfold by_key_desc in E.
      constructor; [now constructor|].
      constructor; [unfold key_ge; lia|].
      eapply Forall_impl; [|exact Hy]. unfold key_ge. intros; lia.
    + apply Z.leb_gt in E. unfold by_key_desc in E.
      constructor; [assumption|].
      eapply Permutation_Forall;
        [symmetry; apply sort_insert_perm|].
      constructor; [unfold key_ge; lia | assumption].
Qed.

Lemma Array_sort_sorted (l : list A) :
  StronglySorted key_ge (Array_sort by_key_desc l).
Proof.
  induction l as [|x t IH]; simpl; [constructor|].
  now apply sort_insert_sorted.
Qed.

(** Stability: elements of equal key keep their order. *)
Lemma sort_insert_stable (v : Z) (x : A) (l : list A) :
  filter (fun a => key a =? v) (sort_insert by_key_desc x l)
  = filter (fun a => key a =? v) (x :: l).
Proof.
  induction l as [|y t IH]; [reflexivity|].
  simpl sort_insert.
  destruct (by_key_desc x y <=? 0) eqn:E; [reflexivity|].
  apply Z.leb_gt in E. unfold by_key_desc in E.
  simpl in *. rewrite IH.
  destruct (key x =? v) eqn:Ex, (key y =? v) eqn:Ey; try reflexivity.
  apply Z.eqb_eq in Ex, Ey. lia.
Qed.

Lemma Array_sort_stable (v : Z) (l : list A) :
  filter (fun a => key a =? v) (Array_sort by_key_desc l)
  = filter (fun a => key a =? v) l.
Proof.
  induction l as [|x t IH]; [reflexivity|].
  simpl Array_sort. rewrite sort_insert_stable. simpl. now rewrite IH.
Qed.

(** [find] as a split of the list. *)
Lemma find_split (p : A -> bool) (l : list A) (f : A) :
  find p l = Some f ->
  exists before after,
    l = before ++ f :: after /\ Forall (fun a => p a = false) before /\
    p f = true.
Proof.
  induction l as [|a t IH]; simpl; [discriminate|].
  destruct (p a) eqn:E.
  - intros [= ->]. exists [], t. auto.
  - intros H. destruct (IH H) as (l1 & l2 & -> & Hb & Hf).
    exists (a :: l1), l2. auto.
Qed.

Lemma find_hd_filter (p : A -> bool) (l : list A) :
  find p l = hd_error (filter p l).
Proof.
  induction l as [|a t IH]; simpl; [reflexivity|].
  destruct (p a); [reflexivity | exact IH].
Qed.

(** In a list sorted highest first, the first element that satisfies a
    test has the highest key among those that do. *)
Lemma find_sorted_max (p : A -> bool) (l : list A) (f : A) :
  StronglySorted key_ge l -> find p l = Some f ->
  forall g, In g l -> p g = true -> key g <= key f.
Proof.
  intros Hs Hf g Hg Hp.
  destruct (find_split p l f Hf) as (l1 & l2 & -> & Hb & _).
  apply in_app_or in Hg. destruct Hg as [Hg|[->|Hg]].
  - rewrite Forall_forall in Hb. rewrite (Hb g Hg) in Hp. discriminate.
  - lia.
  - clear Hf Hb. induction l1 as [|a l1 IH]; simpl in Hs.
    + inversion Hs as [|? ? _ Hall]; subst.
      rewrite Forall_forall in Hall. now apply Hall.
    + inversion Hs; subst. auto.
Qed.

End SortDescending.

(** ** The format selector *)

Section SelectorFacts.
Import Js Selector.

Lemma audioFormats_sort (fs : list videoFormat) :
  audioFormats fs = Array_sort (by_key_desc bitrate_or_0) (filtered fs).
Proof. reflexivity. Qed.

Lemma audioFormats_perm (fs : list videoFormat) :
  Permutation (audioFormats fs) (filtered fs).
Proof. rewrite audioFormats_sort. apply Array_sort_perm. Qed.

Lemma audioFormats_sorted (fs : list videoFormat) :
  StronglySorted (key_ge bitrate_or_0) (audioFormats fs).
Proof. rewrite audioFormats_sort. apply Array_sort_sorted. Qed.

Lemma bitrate_or_0_known (f : videoFormat) (n : Z) :
  audioBitrate f = Some n -> bitrate_or_0 f = n.
Proof.
  unfold bitrate_or_0. intros ->. destruct (n =? 0) eqn:E; [|reflexivity].
  apply Z.eqb_eq in E. now subst.
Qed.

Lemma In_filtered (f : videoFormat) (fs : list videoFormat) :
  In f (filtered fs) <->
  In f fs /\ hasAudio f = true /\ hasVideo f = false /\
  exists n, audioBitrate f = Some n /\ n <> 0.
Proof.
  unfold filtered, audio_only, bitrate_truthy.
  rewrite !filter_In, andb_true_iff, negb_true_iff. split.
  - intros ((Hin & Ha & Hv) & Hb).
    destruct (audioBitrate f) as [n|]; [|discriminate].
    apply negb_true_iff, Z.eqb_neq in Hb. eauto 6.
  - intros (Hin & Ha & Hv & n & -> & Hn).
    repeat split; auto. now apply negb_true_iff, Z.eqb_neq.
Qed.

Lemma In_audioFormats (f : videoFormat) (fs : list videoFormat) :
  In f (audioFormats fs) <-> In f (filtered fs).
Proof.
  split; apply Permutation_in;
    [apply audioFormats_perm | symmetry; apply audioFormats_perm].
Qed.

(** Whatever is selected was found among the sorted audio formats. *)
Lemma selectFormat_In (t : number) (fs : list videoFormat) (f : videoFormat) :
  selectFormat t fs = Some f -> In f (audioFormats fs).
Proof.
  unfold selectFormat. cbv zeta. set (af := audioFormats fs).
  assert (Hfind : forall p q,
    match or_else (find p af) (find q af) with
    | Some g => Some g
    | None => nth_error af 0
    end = Some f -> In f af).
  { intros p q. destruct (find p af) as [g|] eqn:Ep; unfold or_else.
    - intros [= <-]. eapply find_some; eassumption.
    - destruct (find q af) as [g|] eqn:Eq.
      + intros [= <-]. eapply find_some; eassumption.
      + apply nth_error_In. }
  destruct (strict_eq t 128); [apply Hfind|].
  destruct (strict_eq t 192); [apply Hfind|].
  apply nth_error_In.
Qed.

Lemma selectFormat_None (t : number) (fs : list videoFormat) :
  selectFormat t fs = None <-> filtered fs = [].
Proof.
  split.
  - intros H. destruct (audioFormats fs) as [|a l] eqn:E.
    + pose proof (audioFormats_perm fs) as P. rewrite E in P.
      now apply Permutation_nil in P.
    + exfalso. revert H. unfold selectFormat, or_else. rewrite E.
      repeat match goal with
      | |- context [if ?c then _ else _] => destruct c
      | |- context [find ?p ?l] => destruct (find p l)
      end; discriminate.
  - intros H. unfold selectFormat, audioFormats. rewrite H. simpl.
    destruct (strict_eq t 128), (strict_eq t 192); reflexivity.
Qed.

Lemma ideal_test_range (b : Z) (f : videoFormat) :
  b = 128 \/ b = 192 ->
  (ideal_test b f = true <-> in_ideal_range b (bitrate_or_0 f)).
Proof.
  unfold ideal_test, in_ideal_range, ideal128, ideal192.
  intros [-> | ->]; simpl;
    rewrite andb_true_iff, Z.leb_le, Z.geb_le; lia.
Qed.

Lemma selectFormat_first_tier (b : Z) (fs : list videoFormat)
    (f : videoFormat) :
  b = 128 \/ b = 192 ->
  find (ideal_test b) (audioFormats fs) = Some f ->
  selectFormat (Int b) fs = Some f.
Proof.
  unfold selectFormat, ideal_test.
  intros [-> | ->]; simpl; intros ->; reflexivity.
Qed.

Lemma offers_filtered (f : videoFormat) (kbps : Z) (fs : list videoFormat) :
  In f fs -> offers f kbps -> kbps <> 0 ->
  In f (filtered fs) /\ bitrate_or_0 f = kbps.
Proof.
  intros Hin (Ha & Hv & Hk) H0. split.
  - apply In_filtered. eauto 8.
  - now apply bitrate_or_0_known.
Qed.

(** The first tier finds a format as soon as one is in the range. *)
Lemma first_tier_found (b : Z) (fs : list videoFormat) (g : videoFormat) :
  b = 128 \/ b = 192 -> In g (filtered fs) ->
  in_ideal_range b (bitrate_or_0 g) ->
  exists f, find (ideal_test b) (audioFormats fs) = Some f.
Proof.
  intros Hb Hg Hr.
  destruct (find (ideal_test b) (audioFormats fs)) as [f|] eqn:Ef; [eauto|].
  apply In_audioFormats in Hg.
  apply (ideal_test_range b g Hb) in Hr.
  rewrite (find_none _ _ Ef g Hg) in Hr. discriminate.
Qed.

(** What the first tier finds is in the range and has the highest
    bitrate of the range. *)
Lemma first_tier_max (b : Z) (fs : list videoFormat) (f : videoFormat) :
  b = 128 \/ b = 192 ->
  find (ideal_test b) (audioFormats fs) = Some f ->
  In f (filtered fs) /\ in_ideal_range b (bitrate_or_0 f) /\
  forall g, In g (filtered fs) -> in_ideal_range b (bitrate_or_0 g) ->
            bitrate_or_0 g <= bitrate_or_0 f.
Proof.
  intros Hb Ef. destruct (find_some _ _ Ef) as [Hin Hi].
  split; [now apply In_audioFormats|].
  split; [now apply ideal_test_range|].
  intros g Hg Hr.
  apply (find_sorted_max bitrate_or_0 (ideal_test b) (audioFormats fs));
    auto using audioFormats_sorted.
  - now apply In_audioFormats.
  - now apply ideal_test_range.
Qed.

End SelectorFacts.

(** ** Claims about the format selector *)

Section SelectorClaims.
Import Js Selector.

(** C1: for a bitrate class b of 128 or 192, when some audio-only
    candidate with a known bitrate lies in the ideal range of b, the
    selector returns a candidate f of that range, never a fallback: f is
    the first element of the sorted audio formats that lies in the range,
    so no audio-only candidate of the range has a higher bitrate, and
    among the audio-only candidates of its own bitrate f is the one the
    resolver listed first. *)
Theorem ideal_range_preferred (b : Z) (fs : list videoFormat) :
  (exists g n, In g fs /\ hasAudio g = true /\ hasVideo g = false /\
               audioBitrate g = Some n /\ in_ideal_range b n) ->
  exists f n,
    selectFormat (Int b) fs = Some f /\
    In f fs /\ hasAudio f = true /\ hasVideo f = false /\
    audioBitrate f = Some n /\ in_ideal_range b n /\
    (exists before after,
        audioFormats fs = before ++ f :: after /\
        Forall (fun g => ~ in_ideal_range b (bitrate_or_0 g)) before) /\
    (forall g m, In g fs -> hasAudio g = true -> hasVideo g = false ->
                 audioBitrate g = Some m -> in_ideal_range b m -> m <= n) /\
    find (fun g => bitrate_or_0 g =? n) (filtered fs) = Some f.
Proof.
  intros (g & m & Hg & Ha & Hv & Hm & Hr).
  assert (Hb : b = 128 \/ b = 192) by (destruct Hr as [[? _]|[? _]]; auto).
  assert (Hm0 : m <> 0) by (destruct Hr as [[_ ?]|[_ ?]]; lia).
  assert (Hgf : In g (audioFormats fs)).
  { apply In_audioFormats, In_filtered. eauto 8. }
  assert (Hgi : ideal_test b g = true).
  { apply ideal_test_range; [assumption|].
    now rewrite (bitrate_or_0_known g m Hm). }
  destruct (find (ideal_test b) (audioFormats fs)) as [f|] eqn:Ef.
  2:{ rewrite (find_none _ _ Ef g Hgf) in Hgi. discriminate. }
  pose proof (find_some _ _ Ef) as [Hfin Hfi].
  pose proof Hfin as Hff. apply In_audioFormats in Hff.
  pose proof Hff as Hf4. apply In_filtered in Hf4.
  destruct Hf4 as (Hf1 & Hf2 & Hf3 & n & Hn & Hn0).
  pose proof (bitrate_or_0_known f n Hn) as Hkey.
  apply ideal_test_range in Hfi; [|assumption]. rewrite Hkey in Hfi.
  exists f, n. repeat (split; [assumption|]).
  split; [now apply selectFormat_first_tier|].
  repeat (split; [assumption|]).
  destruct (find_split _ _ _ Ef) as (l1 & l2 & El & Hl1 & _).
  split; [|split].
  - exists l1, l2. split; [assumption|].
    eapply Forall_impl; [|exact Hl1]. cbv beta. intros a Ha' Hr'.
    apply ideal_test_range in Hr'; [|assumption]. congruence.
  - intros g' m' Hg' Ha' Hv' Hm' Hr'.
    assert (Hm'0 : m' <> 0) by (destruct Hr' as [[_ ?]|[_ ?]]; lia).
    rewrite <- Hkey, <- (bitrate_or_0_known g' m' Hm').
    apply (find_sorted_max bitrate_or_0 (ideal_test b) (audioFormats fs));
      auto using audioFormats_sorted.
    + apply In_audioFormats, In_filtered. eauto 8.
    + apply ideal_test_range; [assumption|].
      now rewrite (bitrate_or_0_known g' m' Hm').
  - rewrite find_hd_filter, <- (Array_sort_stable bitrate_or_0).
    rewrite <- audioFormats_sort, <- find_hd_filter, El.
    assert (Hskip : forall l r,
      Forall (fun a => ideal_test b a = false) l ->
      find (fun g0 => bitrate_or_0 g0 =? n) (l ++ f :: r) = Some f).
    { induction l as [|a l IH]; intros r Hl; simpl.
      - now rewrite Hkey, Z.eqb_refl.
      - apply Forall_cons_iff in Hl. destruct Hl as [Ha' Hl'].
        destruct (bitrate_or_0 a =? n) eqn:E; [|now apply IH].
        apply Z.eqb_eq in E. exfalso.
        assert (ideal_test b a = true); [|congruence].
        apply ideal_test_range; [assumption|]. now rewrite E. }
    now apply Hskip.
Qed.

Lemma ideal_range_preferred_witness :
  exists f n,
    selectFormat (Int 192) [audio_format 1 128; audio_format 2 160] = Some f /\
    audioBitrate f = Some n /\ in_ideal_range 192 n.
Proof.
  destruct (ideal_range_preferred 192 [audio_format 1 128; audio_format 2 160])
    as (f & n & Hs & _ & _ & _ & Hn & Hr & _).
  - exists (audio_format 2 160), 160. simpl.
    repeat split; auto. right. lia.
  - exists f, n. auto.
Defined.

(** C2: for class 128 and a candidate list made of four audio-only
    candidates of 96, 128, 160 and 320 kbps, in whatever order the
    resolver lists them, the selector returns the 160 kbps candidate,
    the first of the ideal range in descending order, and not the 128
    kbps one. *)
Theorem select_128_prefers_160 (f96 f128 f160 f320 : videoFormat)
    (fs : list videoFormat) :
  offers f96 96 -> offers f128 128 -> offers f160 160 -> offers f320 320 ->
  Permutation fs [f96; f128; f160; f320] ->
  selectFormat (Int 128) fs = Some f160 /\
  selectFormat (Int 128) fs <> Some f128.
Proof.
  intros H96 H128 H160 H320 Hperm.
  assert (Hin : forall g, In g fs <-> In g [f96; f128; f160; f320]).
  { intros g. split; apply Permutation_in; [assumption | now symmetry]. }
  assert (Hb : 128 = 128 \/ 128 = 192) by now left.
  destruct (offers_filtered f160 160 fs) as [Hf160 Hk160];
    [apply Hin; simpl; auto | assumption | lia |].
  destruct (first_tier_found 128 fs f160 Hb Hf160) as [f Ef].
  { rewrite Hk160. left. lia. }
  destruct (first_tier_max 128 fs f Hb Ef) as (Hf & Hr & Hmax).
  specialize (Hmax f160 Hf160). rewrite Hk160 in Hmax.
  assert (Hk : bitrate_or_0 f = 160).
  { assert (160 <= bitrate_or_0 f) by (apply Hmax; left; lia).
    destruct Hr as [[_ ?]|[? _]]; lia. }
  assert (E : f = f160).
  { apply In_filtered in Hf. destruct Hf as [Hf _]. apply Hin in Hf.
    destruct Hf as [<-|[<-|[<-|[<-|[]]]]]; [| |reflexivity|].
    - destruct H96 as (_ & _ & H).
      rewrite (bitrate_or_0_known _ _ H) in Hk. lia.
    - destruct H128 as (_ & _ & H).
      rewrite (bitrate_or_0_known _ _ H) in Hk. lia.
    - destruct H320 as (_ & _ & H).
      rewrite (bitrate_or_0_known _ _ H) in Hk. lia. }
  subst f. rewrite (selectFormat_first_tier 128 fs f160 Hb Ef).
  split; [reflexivity|].
  intros [= E]. subst f128.
  destruct H128 as (_ & _ & H1). destruct H160 as (_ & _ & H2).
  rewrite H1 in H2. discriminate.
Qed.

Lemma select_128_prefers_160_witness :
  selectFormat (Int 128)
    [audio_format 1 96; audio_format 2 128; audio_format 3 160;
     audio_format 4 320]
  = Some (audio_format 3 160) /\
  selectFormat (Int 128)
    [audio_format 1 96; audio_format 2 128; audio_format 3 160;
     audio_format 4 320]
  <> Some (audio_format 2 128).
Proof.
  apply (select_128_prefers_160 (audio_format 1 96) (audio_format 2 128)
           (audio_format 3 160) (audio_format 4 320));
    first [apply Permutation_refl | repeat split; reflexivity].
Defined.

(** The sorted audio formats of that scenario. *)
Example scenario_128_sorted :
  audioFormats
    [audio_format 1 96; audio_format 2 128; audio_format 3 160;
     audio_format 4 320]
  = [audio_format 4 320; audio_format 3 160; audio_format 2 128;
     audio_format 1 96].
Proof. reflexivity. Qed.

(** C3, as stated, fails: a list that holds only a video format is not
    empty, and the selector returns no candidate for it. *)
Lemma select_nonempty_counterexample :
  [video_only_format] <> [] /\
  selectFormat (Int 128) [video_only_format] = None /\
  selectFormat (Int 192) [video_only_format] = None.
Proof. repeat split. discriminate. Qed.

(** C3 (amended): for every requested bitrate (128 and 192 among them)
    and every candidate list with at least one audio-only candidate of
    known, non-zero bitrate, the selector returns a candidate of the list
    with hasAudio = true and hasVideo = false; and for every candidate
    list, whatever the selector returns has hasAudio = true and
    hasVideo = false, so a format with video is never the result. *)
Theorem select_audio_only (t : number) (fs : list videoFormat) :
  ((exists g n, In g fs /\ hasAudio g = true /\ hasVideo g = false /\
                audioBitrate g = Some n /\ n <> 0) ->
   exists f, selectFormat t fs = Some f) /\
  (forall f, selectFormat t fs = Some f ->
             In f fs /\ hasAudio f = true /\ hasVideo f = false).
Proof.
  split.
  - intros (g & n & Hg & Ha & Hv & Hn & Hn0).
    destruct (selectFormat t fs) as [f|] eqn:E; [eauto|].
    apply selectFormat_None in E.
    assert (H : In g (filtered fs)) by (apply In_filtered; eauto 8).
    rewrite E in H. destruct H.
  - intros f H. apply selectFormat_In, In_audioFormats, In_filtered in H.
    tauto.
Qed.

Lemma select_audio_only_witness :
  exists f,
    selectFormat (Int 128) [video_only_format; audio_format 7 48] = Some f /\
    hasAudio f = true /\ hasVideo f = false.
Proof.
  destruct (proj1 (select_audio_only (Int 128)
                     [video_only_format; audio_format 7 48])) as [f Hf].
  - exists (audio_format 7 48), 48. simpl. repeat split; auto. lia.
  - exists f. split; [exact Hf|].
    apply (proj2 (select_audio_only (Int 128)
                    [video_only_format; audio_format 7 48]) f Hf).
Defined.

(** C10: for class 192, when the second tier (first sorted format of at
    least 192 kbps) finds a format, that format is the head of the sorted
    audio formats, the one the final fallback takes, and no audio format
    has a higher bitrate; so the selection for class 192 is the first
    tier's match or else the head, with or without the second tier. *)
Theorem second_tier_192_is_global_best (fs : list videoFormat) :
  (forall f, find atleast192 (audioFormats fs) = Some f ->
     nth_error (audioFormats fs) 0 = Some f /\
     forall g, In g (filtered fs) -> bitrate_or_0 g <= bitrate_or_0 f) /\
  selectFormat (Int 192) fs
  = or_else (find ideal192 (audioFormats fs)) (nth_error (audioFormats fs) 0).
Proof.
  assert (H : forall f, find atleast192 (audioFormats fs) = Some f ->
     nth_error (audioFormats fs) 0 = Some f /\
     forall g, In g (filtered fs) -> bitrate_or_0 g <= bitrate_or_0 f).
  { intros f Hf. pose proof (audioFormats_sorted fs) as Hs.
    assert (Hhd : nth_error (audioFormats fs) 0 = Some f).
    { destruct (audioFormats fs) as [|a l]; [discriminate|].
      simpl in *. destruct (atleast192 a) eqn:Ea; [exact Hf|].
      exfalso. apply find_some in Hf. destruct Hf as [Hin Hf].
      inversion Hs as [|? ? _ Hall]; subst.
      rewrite Forall_forall in Hall. specialize (Hall f Hin).
      unfold key_ge in Hall. unfold atleast192 in *.
      rewrite Z.geb_leb in Ea, Hf.
      apply Z.leb_le in Hf. apply Z.leb_gt in Ea. lia. }
    split; [exact Hhd|]. intros g Hg. apply In_audioFormats in Hg.
    destruct (audioFormats fs) as [|a l]; [destruct Hg|].
    simpl in Hhd. injection Hhd as ->.
    destruct Hg as [->|Hg]; [lia|].
    inversion Hs as [|? ? _ Hall]; subst.
    rewrite Forall_forall in Hall. now apply Hall. }
  split; [exact H|].
  unfold selectFormat. cbv zeta. simpl strict_eq. cbv iota.
  destruct (find ideal192 (audioFormats fs)) as [f|]; [reflexivity|].
  unfold or_else.
  destruct (find atleast192 (audioFormats fs)) as [f|] eqn:E;
    [|reflexivity].
  symmetry. now apply H.
Qed.

Lemma second_tier_192_is_global_best_witness :
  nth_error (audioFormats [audio_format 1 128; audio_format 2 320;
                           audio_format 3 256]) 0
  = Some (audio_format 2 320).
Proof.
  apply (proj1 (second_tier_192_is_global_best
                  [audio_format 1 128; audio_format 2 320;
                   audio_format 3 256]) (audio_format 2 320)).
  reflexivity.
Defined.

End SelectorClaims.

(** ** Request validation *)

Section ValidationClaims.
Import Js Selector Server.

Lemma string_eq_spec (s t : jsstring) : string_eq s t = true <-> s = t.
Proof.
  revert t. induction s as [|c s IH]; intros [|d t]; simpl;
    try (split; [discriminate | discriminate]); [tauto|].
  rewrite andb_true_iff, Z.eqb_eq, IH. split.
  - intros [-> ->]. reflexivity.
  - intros [= -> ->]. auto.
Qed.

Lemma includes_spec (literals : list jsstring) (v : JsValue) :
  includes literals v = true <->
  exists s, In s literals /\ v = Value (JString s).
Proof.
  unfold includes. split.
  - destruct v as [|[]]; try discriminate.
    intros H. apply existsb_exists in H. destruct H as (t & Hin & E).
    apply string_eq_spec in E. subst. eauto.
  - intros (s & Hin & ->). apply existsb_exists. exists s.
    split; [assumption | now apply string_eq_spec].
Qed.

Lemma includes_bitrate (v : JsValue) :
  includes [lit "128"; lit "192"] v = true <-> legal_bitrate v.
Proof.
  rewrite includes_spec. unfold legal_bitrate. split.
  - intros (s & [<-|[<-|[]]] & ->); auto.
  - intros [-> | ->]; eexists; (split; [|reflexivity]); simpl; auto.
Qed.

Lemma includes_sample_rate (v : JsValue) :
  includes [lit "16000"; lit "22050"; lit "44100"] v = true
  <-> legal_sample_rate v.
Proof.
  rewrite includes_spec. unfold legal_sample_rate. split.
  - intros (s & [<-|[<-|[<-|[]]]] & ->); auto.
  - intros [-> | [-> | ->]]; eexists; (split; [|reflexivity]); simpl; auto.
Qed.

(** How /api/download starts on a body that is not [null]. *)
Lemma POST_download_unfold (body : Json) :
  body <> JNull ->
  POST_download (Ok body) =
    if negb (truthy (field body "url"))
    then Ret (ErrorResponse 400 url_required)
    else if negb (includes [lit "128"; lit "192"] (bitrate_of body))
    then Ret (ErrorResponse 400 invalid_bitrate)
    else if negb (includes [lit "16000"; lit "22050"; lit "44100"]
                    (sampleRate_of body))
    then Ret (ErrorResponse 400 invalid_sample_rate)
    else
      bind (call (ValidateURL (field body "url")))
        (fun valid =>
           if negb valid then Ret (ErrorResponse 400 invalid_url)
           else download_audio (field body "url") (bitrate_of body)
                  (sampleRate_of body)
                  (with_default (field body "oldPhoneMode")
                     (Value (JBool true)))).
Proof.
  intros Hb. unfold POST_download, bitrate_of, sampleRate_of, field.
  destruct body; try contradiction; reflexivity.
Qed.

(** C8, as stated, fails: the body [null] parses, has no [url] field, and
    both handlers answer it with status 500, because destructuring
    [null] throws into the outer [catch]. *)
Lemma null_body_counterexample :
  destructure JNull (lit "url") = None /\
  POST_download (Ok JNull)
  = Ret (ErrorResponse 500 (ServerErrorOf TypeError)) /\
  POST_test (Ok JNull) = Ret (ErrorResponse 500 (ServerErrorOf TypeError)) /\
  status_of (ErrorResponse 500 (ServerErrorOf TypeError)) <> 400.
Proof. repeat split. discriminate. Qed.

(** C8 (amended): for every request to either endpoint whose body parses
    to a JSON value other than null, a missing, empty or otherwise falsy
    url yields status 400 with the message "URL is required"; on
    /api/download, with a url present, a bitrate outside "128"/"192"
    yields status 400 with the bitrate message, and with a legal bitrate
    a sample rate outside "16000"/"22050"/"44100" yields status 400 with
    the sample rate message; an illegal bitrate or sample rate always
    yields status 400; the three messages differ; and in all these cases
    the response is produced without a single resolver call. *)
Theorem validation_before_resolver (ytdl : resolver) (body : Json) :
  body <> JNull ->
  (field body "url" = Undefined \/ field body "url" = Value (JString [])
   \/ truthy (field body "url") = false ->
   run ytdl (POST_download (Ok body))
   = (ErrorResponse 400 (Message (lit "URL is required")), []) /\
   run ytdl (POST_test (Ok body))
   = (ErrorResponse 400 (Message (lit "URL is required")), [])) /\
  (truthy (field body "url") = true -> ~ legal_bitrate (bitrate_of body) ->
   run ytdl (POST_download (Ok body)) = (ErrorResponse 400 invalid_bitrate, []))
  /\
  (truthy (field body "url") = true -> legal_bitrate (bitrate_of body) ->
   ~ legal_sample_rate (sampleRate_of body) ->
   run ytdl (POST_download (Ok body))
   = (ErrorResponse 400 invalid_sample_rate, [])) /\
  (~ legal_bitrate (bitrate_of body) \/
   ~ legal_sample_rate (sampleRate_of body) ->
   exists text,
     run ytdl (POST_download (Ok body)) = (ErrorResponse 400 text, [])) /\
  url_required <> invalid_bitrate /\ url_required <> invalid_sample_rate /\
  invalid_bitrate <> invalid_sample_rate.
Proof.
  intros Hb. rewrite (POST_download_unfold body Hb).
  assert (Hbr : ~ legal_bitrate (bitrate_of body) ->
                includes [lit "128"; lit "192"] (bitrate_of body) = false).
  { intros H. apply not_true_is_false. now rewrite includes_bitrate. }
  assert (Hsr : ~ legal_sample_rate (sampleRate_of body) ->
                includes [lit "16000"; lit "22050"; lit "44100"]
                  (sampleRate_of body) = false).
  { intros H. apply not_true_is_false. now rewrite includes_sample_rate. }
  split; [|split; [|split; [|split]]].
  - intros H.
    assert (Hu : truthy (field body "url") = false).
    { destruct H as [-> | [-> | H]]; auto. }
    rewrite Hu. split; [reflexivity|].
    unfold POST_test. unfold field in Hu.
    destruct body; try contradiction; simpl in *; try reflexivity.
    now rewrite Hu.
  - intros Hu Hbad. now rewrite Hu, (Hbr Hbad).
  - intros Hu Hgood Hbad. apply includes_bitrate in Hgood.
    now rewrite Hu, Hgood, (Hsr Hbad).
  - intros Hbad. destruct (truthy (field body "url")); cbn [negb];
      [|eexists; reflexivity].
    destruct (includes [lit "128"; lit "192"] (bitrate_of body));
      cbn [negb]; [|eexists; reflexivity].
    destruct Hbad as [Hbad|Hbad].
    + discriminate (Hbr Hbad).
    + rewrite (Hsr Hbad). cbn [negb]. eexists; reflexivity.
  - repeat split; intros H; vm_compute in H; discriminate.
Qed.

Lemma validation_before_resolver_witness :
  run down_resolver
    (POST_download (Ok (JObject [(lit "bitrate", JString (lit "320"))])))
  = (ErrorResponse 400 (Message (lit "URL is required")), []) /\
  run down_resolver
    (POST_download
       (Ok (JObject [(lit "url", JString (lit "https://youtu.be/x"));
                     (lit "bitrate", JString (lit "320"))])))
  = (ErrorResponse 400 invalid_bitrate, []).
Proof.
  pose (ytdl := down_resolver). split.
  - apply (validation_before_resolver ytdl
             (JObject [(lit "bitrate", JString (lit "320"))])).
    + discriminate.
    + left. reflexivity.
  - apply (validation_before_resolver ytdl
             (JObject [(lit "url", JString (lit "https://youtu.be/x"));
                       (lit "bitrate", JString (lit "320"))])).
    + discriminate.
    + reflexivity.
    + intros [H|H]; vm_compute in H; discriminate.
Defined.

End ValidationClaims.

(** ** The stream request of /api/download *)

Section StreamRequest.
Import Js Sanitizer Selector Server.

Lemma run_bind_call {X : Type} (ytdl : resolver) (c : resolverCall X)
    (k : X -> handler) :
  run ytdl (bind (call c) k)
  = (fst (run ytdl (k (ytdl _ c))), log_of c :: snd (run ytdl (k (ytdl _ c)))).
Proof.
  simpl. destruct (run ytdl (k (ytdl X c))). reflexivity.
Qed.

(** What the handler asks of the resolver once validation has passed and
    the metadata arrived. *)
Lemma download_audio_request (valid_audio : result (list Byte.byte))
    (info : videoInfo) (url bitrate sampleRate oldPhoneMode : JsValue) :
  stream_requests
    (snd (run (fixed_resolver true (Ok info) valid_audio)
            (download_audio url bitrate sampleRate oldPhoneMode)))
  = [WithFormat (selectFormat (targetBitrate bitrate) (formats info))].
Proof.
  unfold download_audio. rewrite !run_bind_call. simpl.
  destruct valid_audio; [|reflexivity].
  destruct (toString_of oldPhoneMode) as [text|]; [|reflexivity].
  destruct (header_value_ok text); reflexivity.
Qed.

(** The sibling path: when the metadata lookup throws, the [catch] block
    asks for the best audio-only stream. *)
Lemma download_audio_request_catch (valid_audio : result (list Byte.byte))
    (message : jsstring) (url bitrate sampleRate oldPhoneMode : JsValue) :
  stream_requests
    (snd (run (fixed_resolver true (Throws message) valid_audio)
            (download_audio url bitrate sampleRate oldPhoneMode)))
  = [HighestAudioOnly].
Proof.
  unfold download_audio. rewrite !run_bind_call. simpl.
  destruct valid_audio; [|reflexivity].
  destruct (toString_of oldPhoneMode) as [text|]; [|reflexivity].
  destruct (header_value_ok text); reflexivity.
Qed.

(** The selector on an empty filtered set: no format, for every
    requested bitrate, and nothing thrown (the function is total). *)
Lemma select_empty_filtered (t : number) (fs : list videoFormat) :
  filtered fs = [] -> selectFormat t fs = None.
Proof. apply selectFormat_None. Qed.

(** C4 at its failing input: the resolver lists one video-only format,
    so the filtered set is empty and the selector signals none; the
    handler then does not ask for the best audio-only stream (the
    request of its [catch] block), it passes the undefined format on. *)
Theorem empty_filtered_set_request :
  filtered [video_only_format] = [] /\
  selectFormat (Int 128) [video_only_format] = None /\
  run (fixed_resolver true
         (Ok {| title := lit "clip"; formats := [video_only_format] |})
         (Ok []))
    (POST_download
       (Ok (JObject [(lit "url", JString (lit "https://youtu.be/x"))])))
  = (AudioResponse []
       {| contentType := lit "audio/mp4";
          xVideoTitle := lit "clip";
          xBitrate := Value (JString (lit "128"));
          xSampleRate := Value (JString (lit "22050"));
          xOldPhoneMode := Value (JBool true) |},
     [LValidateURL (Value (JString (lit "https://youtu.be/x")));
      LGetInfo (Value (JString (lit "https://youtu.be/x")));
      LGetInfo (Value (JString (lit "https://youtu.be/x")));
      LDownload (Value (JString (lit "https://youtu.be/x")))
        (WithFormat None)]) /\
  WithFormat None <> HighestAudioOnly.
Proof. repeat split. discriminate. Qed.

End StreamRequest.

(** ** The client post-processing stage *)

Section ClientClaims.
Import Js Client.

Context {S : Type}.

Lemma Blob_single (audioBuffer : list Byte.byte) (ty : jsstring) :
  Blob [audioBuffer] ty = {| bytes := audioBuffer; type := ty |}.
Proof. unfold Blob. simpl. now rewrite app_nil_r. Qed.

(** The promise settles on the relabelled input or stays pending; it is
    never rejected, whatever the callback does. *)
Lemma convertToMp3_never_rejects (callback : Z -> S -> S * bool) (s : S)
    (audioBuffer : list Byte.byte) (bitrate sampleRate : jsstring)
    (oldPhoneMode onProgress : bool) :
  match fst (fst (run callback
                    (convertToMp3 audioBuffer bitrate sampleRate
                       oldPhoneMode onProgress) s)) with
  | Resolved b => b = {| bytes := audioBuffer; type := lit "audio/mpeg" |}
  | Rejected _ => False
  | Pending => onProgress = true
  end.
Proof.
  unfold convertToMp3, report. rewrite Blob_single.
  destruct onProgress; [|reflexivity].
  simpl.
  repeat match goal with
  | |- context [callback ?n ?st] =>
      let ok := fresh "ok" in
      destruct (callback n st) as [? ok]; destruct ok; simpl
  end; reflexivity.
Qed.

(** C9: for every input buffer and quality parameters the stage never
    rejects, and a blob it resolves with has exactly the input bytes and
    the type audio/mpeg, whatever the progress callback does and whether
    or not one is passed; with a callback that returns normally (the one
    of [handleDownload] does) the stage resolves, and the callback
    receives exactly 20, 50, 80, 100, in this strictly increasing order,
    with the three waits in between. *)
Theorem convertToMp3_passthrough (callback : Z -> S -> S * bool) (s : S)
    (audioBuffer : list Byte.byte) (bitrate sampleRate : jsstring)
    (oldPhoneMode : bool) :
  (forall onProgress,
     match fst (fst (run callback
                       (convertToMp3 audioBuffer bitrate sampleRate
                          oldPhoneMode onProgress) s)) with
     | Resolved b => bytes b = audioBuffer /\ type b = lit "audio/mpeg"
     | Rejected _ => False
     | Pending => onProgress = true
     end) /\
  ((forall progress st, snd (callback progress st) = true) ->
   fst (fst (run callback
               (convertToMp3 audioBuffer bitrate sampleRate oldPhoneMode
                  true) s))
   = Resolved {| bytes := audioBuffer; type := lit "audio/mpeg" |} /\
   snd (run callback
          (convertToMp3 audioBuffer bitrate sampleRate oldPhoneMode true) s)
   = [Reported 20; Waited 300; Reported 50; Waited 300; Reported 80;
      Waited 200; Reported 100] /\
   checkpoints
     (snd (run callback
             (convertToMp3 audioBuffer bitrate sampleRate oldPhoneMode true)
             s))
   = [20; 50; 80; 100] /\
   StronglySorted Z.lt [20; 50; 80; 100] /\
   snd (fst (run callback
               (convertToMp3 audioBuffer bitrate sampleRate oldPhoneMode
                  true) s))
   = fst (callback 100 (fst (callback 80 (fst (callback 50
            (fst (callback 20 s)))))))).
Proof.
  split.
  - intros onProgress.
    pose proof (convertToMp3_never_rejects callback s audioBuffer bitrate
                  sampleRate oldPhoneMode onProgress) as H.
    destruct (fst (fst (run callback _ s))) as [b| |]; [|exact H|exact H].
    subst b. split; reflexivity.
  - intros Hok. unfold convertToMp3, report. rewrite Blob_single. simpl.
    repeat match goal with
    | |- context [callback ?n ?st] =>
        let E := fresh "E" in
        pose proof (Hok n st) as E;
        destruct (callback n st) as [? ?]; simpl in E; subst; simpl
    end.
    repeat split. repeat constructor.
Qed.

End ClientClaims.

Section ClientWitness.
Import Js Client.

Lemma convertToMp3_passthrough_witness :
  (forall progress st, snd (progress_callback progress st) = true) /\
  fst (fst (run progress_callback
              (convertToMp3 [Byte.x49; Byte.x44; Byte.x33] (lit "128")
                 (lit "22050") true true) 500))
  = Resolved {| bytes := [Byte.x49; Byte.x44; Byte.x33];
                type := lit "audio/mpeg" |}.
Proof.
  assert (H : forall progress st : Z,
             snd (progress_callback progress st) = true)
    by reflexivity.
  split; [exact H|].
  exact (proj1 (proj2 (convertToMp3_passthrough progress_callback 500
                         [Byte.x49; Byte.x44; Byte.x33] (lit "128")
                         (lit "22050") true) H)).
Defined.

End ClientWitness.

(** ** Scenarios of the specification *)

Section Scenarios.
Import Js Sanitizer Selector Server.

Example sanitize_empty :
  sanitize [] false = lit "youtube_audio" /\
  sanitize [] true = lit "youtube_audio".
Proof. split; reflexivity. Qed.

Example sanitize_punctuation :
  sanitize (lit "!!!") false = lit "youtube_audio" /\
  sanitize (lit "!!!") true = lit "youtube_audio".
Proof. split; reflexivity. Qed.

(** "Official Video! (HD) - 2024" with an em dash (U+2014). *)
Example sanitize_official_video :
  sanitize (lit "Official Video! (HD) " ++ [8212] ++ lit " 2024") true
  = lit "Official_Video_HD_2024".
Proof. reflexivity. Qed.

Example select_192_of_128_160 :
  selectFormat (Int 192) [audio_format 1 128; audio_format 2 160]
  = Some (audio_format 2 160).
Proof. reflexivity. Qed.

(** The second tier: at most 128 kbps for class 128, at least 192 kbps
    for class 192. *)
Example select_one_sided :
  selectFormat (Int 128) [audio_format 1 320; audio_format 2 64]
  = Some (audio_format 2 64) /\
  selectFormat (Int 192) [audio_format 1 64; audio_format 2 320]
  = Some (audio_format 2 320).
Proof. split; reflexivity. Qed.

(** The last fallback: the highest bitrate. *)
Example select_fallback :
  selectFormat (Int 128) [audio_format 1 256; audio_format 2 320]
  = Some (audio_format 2 320) /\
  selectFormat (Int 192) [audio_format 1 64; audio_format 2 128]
  = Some (audio_format 2 128).
Proof. split; reflexivity. Qed.

(** Equal bitrates keep the order of the resolver. *)
Example select_stable :
  selectFormat (Int 128) [audio_format 1 128; audio_format 2 128]
  = Some (audio_format 1 128).
Proof. reflexivity. Qed.

Example parseInt_bitrates :
  targetBitrate (Value (JString (lit "128"))) = Int 128 /\
  targetBitrate (Value (JString (lit "192"))) = Int 192.
Proof. split; reflexivity. Qed.

(** A body that does not parse is answered with status 500. *)
Example unparseable_body :
  POST_download (Throws (lit "Unexpected end of JSON input"))
  = Ret (ErrorResponse 500
           (ServerErrorOf (Failure (lit "Unexpected end of JSON input")))).
Proof. reflexivity. Qed.

(** A body that is not an object has no url: status 400. *)
Example number_body :
  POST_test (Ok (JNumber 5)) = Ret (ErrorResponse 400 url_required).
Proof. reflexivity. Qed.

End Scenarios.

(* ===================================================================== *)
(** * Further properties of the code                                      *)
(* ===================================================================== *)

(** ** Server title and client file name *)

Section TitleComposition.
Import Js Sanitizer.

Lemma remove_class_none (s : jsstring) : remove_class (fun _ => false) s = s.
Proof.
  unfold remove_class. induction s as [|c t IH]; simpl; [reflexivity|].
  f_equal. exact IH.
Qed.

Lemma replace_runs_from_cons (cls : char16 -> bool) (rep : jsstring)
    (b : bool) (c : char16) (t : jsstring) :
  replace_runs_from cls rep b (c :: t)
  = if cls c
    then (if b then replace_runs_from cls rep true t
          else rep ++ replace_runs_from cls rep true t)
    else c :: replace_runs_from cls rep false t.
Proof. reflexivity. Qed.

Lemma remove_class_cons (D : char16 -> bool) (c : char16) (t : jsstring) :
  remove_class D (c :: t)
  = if D c then remove_class D t else c :: remove_class D t.
Proof. unfold remove_class. simpl. now destruct (D c). Qed.

(** Replacing white space runs, dropping code units that are neither
    white space nor underscores, then collapsing underscores, is one
    replacement of the runs of white space and underscores in what the
    dropping leaves.  [b] and [b'] are the scanner states on both
    sides. *)
Lemma collapse_after_drop (D : char16 -> bool) (b b' : bool) (s : jsstring) :
  (forall c, is_space c = true \/ is_underscore c = true -> D c = false) ->
  (b = true -> b' = true) ->
  replace_runs_from is_underscore [underscore] b'
    (remove_class D (replace_runs_from is_space [underscore] b s))
  = replace_runs_from (fun c => is_space c || is_underscore c) [underscore] b'
      (remove_class D s).
Proof.
  intros HD. revert b b'.
  assert (HU : D underscore = false) by (apply HD; right; reflexivity).
  induction s as [|c t IH]; intros b b' Hb; [reflexivity|].
  rewrite (replace_runs_from_cons is_space), (remove_class_cons D c t).
  destruct (is_space c) eqn:Ews.
  - rewrite (HD c (or_introl Ews)).
    rewrite replace_runs_from_cons. cbv beta. rewrite Ews. simpl orb.
    cbv iota. destruct b.
    + rewrite (Hb eq_refl). now apply IH.
    + change ([underscore] ++ replace_runs_from is_space [underscore] true t)
        with (underscore :: replace_runs_from is_space [underscore] true t).
      rewrite remove_class_cons, HU, replace_runs_from_cons.
      change (is_underscore underscore) with true. cbv iota.
      now rewrite (IH true true (fun _ => eq_refl)).
  - rewrite remove_class_cons. destruct (D c) eqn:EDc.
    + apply IH. discriminate.
    + rewrite !replace_runs_from_cons. cbv beta. rewrite Ews. simpl orb.
      destruct (is_underscore c) eqn:EU.
      * rewrite (IH false true); [reflexivity | discriminate].
      * rewrite (IH false false); [reflexivity | discriminate].
Qed.

Lemma keep_compat_standard (c : char16) :
  keep_compat c = true -> keep_standard c = true.
Proof. unfold keep_compat, keep_standard. intros ->. reflexivity. Qed.

Lemma compat_filter_after_standard (x : jsstring) :
  remove_class (fun c => negb (keep_compat c))
    (remove_class (fun c => negb (keep_standard c)) x)
  = remove_class (fun c => negb (keep_compat c)) x.
Proof.
  unfold remove_class. induction x as [|c t IH]; simpl; [reflexivity|].
  rewrite !negb_involutive.
  destruct (keep_standard c) eqn:Es; simpl.
  - rewrite negb_involutive. destruct (keep_compat c); simpl; now rewrite IH.
  - destruct (keep_compat c) eqn:Ec; [|exact IH].
    apply keep_compat_standard in Ec. congruence.
Qed.

Lemma compat_keeps_space_underscore (c : char16) :
  is_space c = true \/ is_underscore c = true ->
  negb (keep_compat c) = false.
Proof.
  unfold keep_compat, is_underscore, is_word. intros [H|H]; rewrite H;
    rewrite ?orb_true_r; reflexivity.
Qed.

(** The compatibility pipeline gives the same on the standard body of a
    title as on the title. *)
Lemma compat_body_standard_body (x : jsstring) :
  compat_body (standard_body x) = compat_body x.
Proof.
  unfold compat_body. f_equal.
  set (r := remove_class (fun c => negb (keep_compat c))).
  transitivity
    (replace_runs_from (fun c => is_space c || is_underscore c) [underscore]
       false (r x)).
  - unfold standard_body, replace_runs.
    rewrite (replace_runs_from_id is_space [underscore] false
               (r (replace_runs_from is_space [underscore] false _))).
    + unfold r. rewrite collapse_after_drop;
        [| apply compat_keeps_space_underscore | discriminate].
      fold r. unfold r at 1. now rewrite compat_filter_after_standard.
    + unfold r, remove_class.
      apply Forall_forall. intros c Hc. apply filter_In in Hc.
      destruct Hc as [Hc _]. revert c Hc. apply Forall_forall.
      apply replace_runs_from_free. repeat constructor.
  - unfold replace_runs.
    rewrite <- (remove_class_none
                  (replace_runs_from is_space [underscore] false (r x))).
    rewrite collapse_after_drop; [|intros; reflexivity | discriminate].
    now rewrite remove_class_none.
Qed.

(** X1: the file name stem the client derives from the title header sent
    by the server is the stem it would derive from the raw title. *)
Theorem cleanTitle_of_standardTitle (x : jsstring) :
  cleanTitle (standardTitle x) = cleanTitle x.
Proof.
  rewrite standardTitle_body.
  destruct (standard_body x) as [|c r] eqn:E.
  - simpl or_default. rewrite (cleanTitle_body x).
    rewrite <- compat_body_standard_body, E. reflexivity.
  - simpl or_default. rewrite <- E.
    rewrite !cleanTitle_body. now rewrite compat_body_standard_body.
Qed.

End TitleComposition.

(** ** What the sanitizer keeps *)

Section SanitizerKeeps.
Import Js Sanitizer.

Variable P : char16 -> bool.

Lemma filter_replace_runs (cls : char16 -> bool) (rep : jsstring)
    (b : bool) (s : jsstring) :
  (forall c, cls c = true -> P c = false) ->
  Forall (fun c => P c = false) rep ->
  filter P (replace_runs_from cls rep b s) = filter P s.
Proof.
  intros Hcls Hrep.
  assert (Hr : filter P rep = []).
  { induction Hrep as [|c r Hc _ IH]; simpl; [reflexivity|].
    now rewrite Hc. }
  revert b. induction s as [|c t IH]; intros b; [reflexivity|].
  rewrite replace_runs_from_cons. simpl filter.
  destruct (cls c) eqn:E.
  - rewrite (Hcls c E). destruct b; [apply IH|].
    rewrite filter_app, Hr. apply IH.
  - simpl. now rewrite IH.
Qed.

Lemma filter_remove_class (D : char16 -> bool) (s : jsstring) :
  (forall c, P c = true -> D c = false) ->
  filter P (remove_class D s) = filter P s.
Proof.
  intros HD. induction s as [|c t IH]; [reflexivity|].
  rewrite remove_class_cons. simpl. destruct (P c) eqn:E.
  - rewrite (HD c E). simpl. now rewrite E, IH.
  - destruct (D c); [exact IH|]. simpl. now rewrite E.
Qed.

Lemma filter_drop_last_if (p : char16 -> bool) (s : jsstring) :
  (forall c, p c = true -> P c = false) ->
  filter P (drop_last_if p s) = filter P s.
Proof.
  intros Hp. induction s as [|c t IH]; [reflexivity|].
  destruct t as [|d t'].
  - simpl. destruct (p c) eqn:E; [|reflexivity]. now rewrite (Hp c E).
  - change (drop_last_if p (c :: d :: t'))
      with (c :: drop_last_if p (d :: t')).
    change (c :: drop_last_if p (d :: t'))
      with ([c] ++ drop_last_if p (d :: t')).
    change (c :: d :: t') with ([c] ++ d :: t').
    now rewrite !filter_app, IH.
Qed.

Lemma filter_strip_edge_underscores (s : jsstring) :
  P underscore = false ->
  filter P (strip_edge_underscores s) = filter P s.
Proof.
  intros HU. unfold strip_edge_underscores.
  rewrite filter_drop_last_if.
  - destruct s as [|c t]; [reflexivity|].
    destruct (c =? underscore) eqn:E; [|reflexivity].
    apply Z.eqb_eq in E. subst c. simpl. now rewrite HU.
  - intros c E. apply Z.eqb_eq in E. now subst c.
Qed.

End SanitizerKeeps.

Section SanitizerLetters.
Import Js Sanitizer.

Lemma letter_or_digit_word (c : char16) :
  is_letter_or_digit c = true -> is_word c = true.
Proof. unfold is_word, is_letter_or_digit. intros ->. reflexivity. Qed.

Lemma space_not_letter_or_digit (c : char16) :
  is_space c = true -> is_letter_or_digit c = false.
Proof.
  intros Hs. apply not_true_is_false. intros H.
  apply letter_or_digit_word, word_not_space in H. congruence.
Qed.

Lemma underscore_not_letter_or_digit (c : char16) :
  is_underscore c = true -> is_letter_or_digit c = false.
Proof.
  unfold is_underscore. intros H. apply Z.eqb_eq in H. now subst c.
Qed.

Lemma standard_body_letters (x : jsstring) :
  filter is_letter_or_digit (standard_body x) = filter is_letter_or_digit x.
Proof.
  unfold standard_body, replace_runs.
  rewrite filter_replace_runs, filter_remove_class; trivial.
  - intros c H. apply negb_false_iff. unfold keep_standard.
    now rewrite (letter_or_digit_word c H).
  - apply space_not_letter_or_digit.
  - repeat constructor.
Qed.

Lemma compat_body_letters (x : jsstring) :
  filter is_letter_or_digit (compat_body x) = filter is_letter_or_digit x.
Proof.
  unfold compat_body, replace_runs.
  rewrite filter_strip_edge_underscores by reflexivity.
  rewrite !filter_replace_runs, filter_remove_class; trivial.
  - intros c H. apply negb_false_iff. unfold keep_compat.
    now rewrite (letter_or_digit_word c H).
  - apply space_not_letter_or_digit.
  - repeat constructor.
  - apply underscore_not_letter_or_digit.
  - repeat constructor.
Qed.

Lemma filter_nonempty (p : char16 -> bool) (s : jsstring) :
  Exists (fun c => p c = true) s -> filter p s <> [].
Proof.
  induction 1 as [c t Hc | c t _ IH]; simpl.
  - rewrite Hc. discriminate.
  - destruct (p c); [discriminate | exact IH].
Qed.

(** X2: when the title has a letter or a digit, sanitizing loses none of
    its letters and digits and keeps their order.  The standard mode
    returns all of them.  The compatibility mode returns the first 50
    code units of the cleaned title, so the letters and digits it loses
    are exactly those behind position 50 of the cleaned title: none
    when the answer is shorter than 50 code units, and none for a title
    of at most 50 code units. *)
Theorem sanitize_keeps_letters_and_digits (x : jsstring) :
  Exists (fun c => 65 <= c <= 90 \/ 97 <= c <= 122 \/ 48 <= c <= 57) x ->
  filter is_letter_or_digit (sanitize x false) = filter is_letter_or_digit x
  /\
  sanitize x true = firstn 50 (compat_body x) /\
  filter is_letter_or_digit x
  = filter is_letter_or_digit (sanitize x true)
    ++ filter is_letter_or_digit (skipn 50 (compat_body x)) /\
  ((length (sanitize x true) < 50)%nat ->
   filter is_letter_or_digit (sanitize x true)
   = filter is_letter_or_digit x) /\
  ((length x <= 50)%nat ->
   filter is_letter_or_digit (sanitize x true)
   = filter is_letter_or_digit x).
Proof.
  intros Hx.
  assert (Hx' : Exists (fun c => is_letter_or_digit c = true) x).
  { eapply Exists_impl; [|exact Hx]. cbv beta. intros c H.
    unfold is_letter_or_digit, is_upper, is_lower, is_digit, between.
    rewrite !orb_true_iff, !andb_true_iff, !Z.leb_le. tauto. }
  apply filter_nonempty in Hx'. split.
  - simpl. rewrite standardTitle_body.
    rewrite <- standard_body_letters in Hx'.
    destruct (standard_body x) as [|c r] eqn:E; [now destruct Hx'|].
    simpl or_default. rewrite <- E. apply standard_body_letters.
  - assert (Hcut : sanitize x true = firstn 50 (compat_body x)).
    { simpl. rewrite cleanTitle_body.
      rewrite <- compat_body_letters in Hx'.
      destruct (compat_body x) as [|c r]; [now destruct Hx'|].
      reflexivity. }
    assert (Hall : filter is_letter_or_digit x
                   = filter is_letter_or_digit (sanitize x true)
                     ++ filter is_letter_or_digit
                          (skipn 50 (compat_body x))).
    { rewrite Hcut, <- filter_app, firstn_skipn. symmetry.
      apply compat_body_letters. }
    split; [exact Hcut|]. split; [exact Hall|]. split.
    + intros Hlen. rewrite Hcut in Hlen. rewrite length_firstn in Hlen.
      symmetry. etransitivity; [exact Hall|].
      rewrite skipn_all2 by lia. simpl. apply app_nil_r.
    + intros Hlen. pose proof (compat_body_length x) as Hb.
      symmetry. etransitivity; [exact Hall|].
      rewrite skipn_all2 by lia. simpl. apply app_nil_r.
Qed.

Lemma sanitize_keeps_letters_and_digits_witness :
  filter is_letter_or_digit (sanitize (lit "Hi - there (2024)!") true)
  = lit "Hithere2024".
Proof.
  assert (H : Exists (fun c => 65 <= c <= 90 \/ 97 <= c <= 122
                               \/ 48 <= c <= 57)
                (lit "Hi - there (2024)!")).
  { simpl. apply Exists_cons_hd. lia. }
  destruct (sanitize_keeps_letters_and_digits (lit "Hi - there (2024)!") H)
    as (_ & _ & _ & Hshort & _).
  rewrite Hshort; [reflexivity|].
  simpl. lia.
Defined.

(** Behind position 50 letters are lost: of 60 letters 50 are kept. *)
Example sanitize_cuts_at_50 :
  sanitize (repeat 97 60) true = repeat 97 50 /\
  sanitize (repeat 97 60) false = repeat 97 60.
Proof. split; reflexivity. Qed.

(** X3: the titles the standard mode returns unchanged are exactly the
    non-empty strings of letters, digits, underscores and hyphens. *)
Theorem standardTitle_fixed_points (x : jsstring) :
  sanitize x false = x <->
  x <> [] /\
  Forall (fun c => 65 <= c <= 90 \/ 97 <= c <= 122 \/ 48 <= c <= 57
                   \/ c = 95 \/ c = 45) x.
Proof.
  simpl. split.
  - intros E. split.
    + rewrite <- E. apply standardTitle_nonempty.
    + rewrite <- E. eapply Forall_impl; [|apply standardTitle_chars].
      cbv beta. intros c [H|H].
      * apply is_word_spec in H. tauto.
      * unfold hyphen in H. tauto.
  - intros [Hne Hall]. apply standardTitle_fixed; [|assumption].
    eapply Forall_impl; [|exact Hall]. cbv beta. intros c H.
    destruct (Z.eq_dec c 45) as [->|Hn]; [now right|].
    left. apply is_word_spec. tauto.
Qed.

Lemma standardTitle_fixed_points_witness :
  sanitize (lit "lo-fi_mix_01") false = lit "lo-fi_mix_01".
Proof.
  apply (proj2 (standardTitle_fixed_points (lit "lo-fi_mix_01"))).
  split; [discriminate|].
  simpl. repeat (apply Forall_cons; [lia|]). apply Forall_nil.
Defined.

End SanitizerLetters.

(** ** More on the format selector *)

Section SelectorMore.
Import Js Selector.

Lemma filter_filter_and {A : Type} (p q : A -> bool) (l : list A) :
  filter p (filter q l) = filter (fun x => q x && p x) l.
Proof.
  induction l as [|a l IH]; simpl; [reflexivity|].
  destruct (q a); simpl; [|exact IH].
  destruct (p a); now rewrite IH.
Qed.

(** X4: the sorted audio formats are exactly the formats with audio,
    without video and with a known, non-zero bitrate; none is lost or
    repeated; they stand highest bitrate first, and formats of equal
    bitrate keep the order of the resolver. *)
Theorem audioFormats_descending (fs : list videoFormat) :
  Permutation (audioFormats fs)
    (filter (fun f => hasAudio f && negb (hasVideo f)
                      && match audioBitrate f with
                         | Some n => negb (n =? 0)
                         | None => false
                         end) fs) /\
  StronglySorted (fun a b => bitrate_or_0 b <= bitrate_or_0 a)
    (audioFormats fs) /\
  forall v, filter (fun f => bitrate_or_0 f =? v) (audioFormats fs)
            = filter (fun f => bitrate_or_0 f =? v) (filtered fs).
Proof.
  split; [|split].
  - rewrite audioFormats_perm. unfold filtered.
    rewrite filter_filter_and. erewrite filter_ext; [reflexivity|].
    intros f. unfold audio_only, bitrate_truthy. reflexivity.
  - apply audioFormats_sorted.
  - intros v. rewrite audioFormats_sort. apply Array_sort_stable.
Qed.

(** The head of the sorted audio formats has the highest bitrate. *)
Lemma audioFormats_head_max (fs : list videoFormat) (f : videoFormat) :
  nth_error (audioFormats fs) 0 = Some f ->
  In f (filtered fs) /\
  forall g, In g (filtered fs) -> bitrate_or_0 g <= bitrate_or_0 f.
Proof.
  intros H. pose proof (audioFormats_sorted fs) as Hs. split.
  - apply In_audioFormats. eapply nth_error_In; eassumption.
  - intros g Hg. apply In_audioFormats in Hg.
    destruct (audioFormats fs) as [|a l]; [discriminate|].
    simpl in H. injection H as ->.
    destruct Hg as [->|Hg]; [lia|].
    inversion Hs as [|? ? _ Hall]; subst.
    rewrite Forall_forall in Hall. now apply Hall.
Qed.

Lemma find_none_iff (p : videoFormat -> bool) (l : list videoFormat) :
  find p l = None <-> forall g, In g l -> p g = false.
Proof.
  split; [apply find_none|].
  intros H. destruct (find p l) as [f|] eqn:E; [|reflexivity].
  apply find_some in E. destruct E as [Hin Hp].
  rewrite (H f Hin) in Hp. discriminate.
Qed.

(** X5: for class 128, when no audio format lies in 96..160 but some
    audio format has at most 128 kbps, the selector returns the format
    of highest bitrate among those of at most 128 kbps (it is below 96),
    whatever formats above 160 kbps are on offer. *)
Theorem second_tier_128 (fs : list videoFormat) :
  (forall g n, In g fs -> offers g n -> n <> 0 -> ~ 96 <= n <= 160) ->
  (exists g n, In g fs /\ offers g n /\ n <> 0 /\ n <= 128) ->
  exists f n,
    selectFormat (Int 128) fs = Some f /\
    In f fs /\ offers f n /\ n <> 0 /\ n < 96 /\
    forall g m, In g fs -> offers g m -> m <> 0 -> m <= 128 -> m <= n.
Proof.
  intros Hnone (g & m & Hg & Hog & Hm0 & Hm).
  assert (Hideal : find ideal128 (audioFormats fs) = None).
  { apply find_none_iff. intros a Ha.
    apply In_audioFormats, In_filtered in Ha.
    destruct Ha as (Hin & Haud & Hvid & k & Hk & Hk0).
    apply not_true_is_false. unfold ideal128.
    rewrite (bitrate_or_0_known a k Hk), andb_true_iff, Z.leb_le, Z.geb_le.
    intros [? ?]. apply (Hnone a k); unfold offers; auto; lia. }
  destruct (offers_filtered g m fs Hg Hog Hm0) as [Hgf Hgk].
  destruct (find atmost128 (audioFormats fs)) as [f|] eqn:Ef.
  2:{ apply In_audioFormats in Hgf.
      pose proof (find_none _ _ Ef g Hgf) as H. unfold atmost128 in H.
      rewrite Hgk in H. apply Z.leb_gt in H. lia. }
  pose proof (find_some _ _ Ef) as [Hfin Hfp].
  pose proof Hfin as Hff. apply In_audioFormats, In_filtered in Hff.
  destruct Hff as (Hin & Haud & Hvid & n & Hn & Hn0).
  pose proof (bitrate_or_0_known f n Hn) as Hkey.
  unfold atmost128 in Hfp. rewrite Hkey in Hfp. apply Z.leb_le in Hfp.
  exists f, n. split; [|split; [assumption|split; [|split; [assumption|]]]].
  - unfold selectFormat. cbv zeta. simpl strict_eq. cbv iota.
    rewrite Hideal, Ef. reflexivity.
  - unfold offers. auto.
  - split.
    + assert (~ 96 <= n <= 160)
        by (apply (Hnone f n); unfold offers; auto).
      lia.
    + intros g' m' Hg' Hog' Hm'0 Hm'.
      destruct (offers_filtered g' m' fs Hg' Hog' Hm'0) as [Hgf' Hgk'].
      rewrite <- Hkey, <- Hgk'.
      apply (find_sorted_max bitrate_or_0 atmost128 (audioFormats fs));
        auto using audioFormats_sorted.
      * now apply In_audioFormats.
      * unfold atmost128. rewrite Hgk'. now apply Z.leb_le.
Qed.

Lemma second_tier_128_witness :
  exists f n,
    selectFormat (Int 128) [audio_format 1 320; audio_format 2 48;
                            audio_format 3 64] = Some f /\
    offers f n /\ n < 96.
Proof.
  destruct (second_tier_128 [audio_format 1 320; audio_format 2 48;
                             audio_format 3 64])
    as (f & n & Hs & _ & Ho & _ & Hn & _).
  - intros g n Hin (_ & _ & Hb) _.
    simpl in Hin. destruct Hin as [<-|[<-|[<-|[]]]];
      simpl in Hb; injection Hb as <-; lia.
  - exists (audio_format 2 48), 48. unfold offers. simpl.
    repeat split; auto; lia.
  - exists f, n. auto.
Defined.

(** X6: when neither tier of the requested class can match (class 128
    and every audio format above 160 kbps; class 192 and every audio
    format below 160 kbps; or a bitrate that is neither 128 nor 192) and
    there is an audio format, the selector returns an audio format of
    the highest bitrate on offer. *)
Theorem fallback_highest (t : number) (fs : list videoFormat) :
  (strict_eq t 128 = true ->
   forall g, In g (filtered fs) -> 160 < bitrate_or_0 g) ->
  (strict_eq t 192 = true ->
   forall g, In g (filtered fs) -> bitrate_or_0 g < 160) ->
  filtered fs <> [] ->
  exists f,
    selectFormat t fs = Some f /\ In f (filtered fs) /\
    forall g, In g (filtered fs) -> bitrate_or_0 g <= bitrate_or_0 f.
Proof.
  intros H128 H192 Hne.
  assert (Hhead : selectFormat t fs = nth_error (audioFormats fs) 0).
  { unfold selectFormat. cbv zeta.
    destruct (strict_eq t 128) eqn:E1; [|destruct (strict_eq t 192) eqn:E2];
      [| |reflexivity].
    - specialize (H128 eq_refl).
      replace (find ideal128 (audioFormats fs)) with (@None videoFormat).
      2:{ symmetry. apply find_none_iff. intros g Hg.
          apply In_audioFormats, H128 in Hg. unfold ideal128.
          apply andb_false_iff. left. apply Z.leb_gt. lia. }
      replace (find atmost128 (audioFormats fs)) with (@None videoFormat).
      2:{ symmetry. apply find_none_iff. intros g Hg.
          apply In_audioFormats, H128 in Hg. unfold atmost128.
          apply Z.leb_gt. lia. }
      reflexivity.
    - specialize (H192 eq_refl).
      replace (find ideal192 (audioFormats fs)) with (@None videoFormat).
      2:{ symmetry. apply find_none_iff. intros g Hg.
          apply In_audioFormats, H192 in Hg. unfold ideal192.
          apply andb_false_iff. left. rewrite Z.geb_leb.
          apply Z.leb_gt. lia. }
      replace (find atleast192 (audioFormats fs)) with (@None videoFormat).
      2:{ symmetry. apply find_none_iff. intros g Hg.
          apply In_audioFormats, H192 in Hg. unfold atleast192.
          rewrite Z.geb_leb. apply Z.leb_gt. lia. }
      reflexivity. }
  destruct (selectFormat t fs) as [f|] eqn:E.
  - exists f. split; [reflexivity|]. now apply audioFormats_head_max.
  - apply selectFormat_None in E. contradiction.
Qed.

Lemma fallback_highest_witness :
  exists f,
    selectFormat (Int 128) [audio_format 1 192; audio_format 2 320]
    = Some f /\ bitrate_or_0 (audio_format 1 192) <= bitrate_or_0 f.
Proof.
  destruct (fallback_highest (Int 128)
              [audio_format 1 192; audio_format 2 320])
    as (f & Hs & _ & Hmax).
  - intros _ g Hg. simpl in Hg.
    destruct Hg as [<-|[<-|[]]]; vm_compute; reflexivity.
  - discriminate.
  - discriminate.
  - exists f. split; [exact Hs|]. apply Hmax. simpl. auto.
Defined.

End SelectorMore.

(** ** The order of the resolver's list *)

Section SelectorOrder.
Import Js Selector.

Lemma filter_Permutation {A : Type} (p : A -> bool) (l l' : list A) :
  Permutation l l' -> Permutation (filter p l) (filter p l').
Proof.
  induction 1 as [|a l l' _ IH|a b l|l l' l'' _ IH1 _ IH2]; simpl.
  - constructor.
  - destruct (p a); [now constructor | exact IH].
  - destruct (p a), (p b); try reflexivity. apply perm_swap.
  - now transitivity (filter p l').
Qed.

(** Two lists sorted highest key first with the same elements and
    pairwise distinct keys are the same list. *)
Lemma sorted_distinct_unique {A : Type} (key : A -> Z) (l l' : list A) :
  StronglySorted (key_ge key) l -> StronglySorted (key_ge key) l' ->
  Permutation l l' -> NoDup (map key l) -> l = l'.
Proof.
  intros Hs. revert l'. induction Hs as [|a t Ht IH Ha]; intros l' Hs' Hp Hnd.
  - apply Permutation_nil in Hp. now subst.
  - destruct l' as [|a' t'].
    { symmetry in Hp. apply Permutation_nil in Hp. discriminate. }
    inversion Hs' as [|? ? Ht' Ha']; subst.
    simpl in Hnd. inversion Hnd as [|? ? Hnotin Hnd']; subst.
    assert (E : a = a').
    { assert (Hin : In a (a' :: t'))
        by (eapply Permutation_in; [exact Hp | now left]).
      destruct Hin as [->|Hin]; [reflexivity|].
      assert (Hin' : In a' (a :: t))
        by (eapply Permutation_in; [symmetry; exact Hp | now left]).
      destruct Hin' as [->|Hin']; [reflexivity|].
      exfalso. apply Hnotin.
      rewrite Forall_forall in Ha, Ha'.
      specialize (Ha a' Hin'). specialize (Ha' a Hin).
      unfold key_ge in Ha, Ha'.
      replace (key a) with (key a') by lia.
      now apply in_map. }
    subst a'. f_equal. apply IH; auto.
    now apply Permutation_cons_inv in Hp.
Qed.

(** X7: when the audio formats have pairwise distinct bitrates, the
    selection does not depend on the order in which the resolver lists
    the formats. *)
Theorem selectFormat_order_independent (t : number)
    (fs fs' : list videoFormat) :
  Permutation fs fs' ->
  NoDup (map bitrate_or_0 (filtered fs)) ->
  selectFormat t fs = selectFormat t fs'.
Proof.
  intros Hp Hnd.
  assert (E : audioFormats fs = audioFormats fs').
  { apply (sorted_distinct_unique bitrate_or_0);
      auto using audioFormats_sorted.
    - rewrite !audioFormats_perm. unfold filtered.
      now do 2 apply filter_Permutation.
    - eapply Permutation_NoDup; [|exact Hnd].
      apply Permutation_map. symmetry. apply audioFormats_perm. }
  unfold selectFormat. now rewrite E.
Qed.

Lemma selectFormat_order_independent_witness :
  selectFormat (Int 128) [audio_format 1 96; audio_format 2 160]
  = selectFormat (Int 128) [audio_format 2 160; audio_format 1 96].
Proof.
  apply selectFormat_order_independent.
  - apply perm_swap.
  - simpl. repeat constructor; simpl; intuition discriminate.
Defined.

(** With equal bitrates the order does matter: the first listed wins. *)
Example selectFormat_order_of_ties :
  selectFormat (Int 128) [audio_format 1 128; audio_format 2 128]
  <> selectFormat (Int 128) [audio_format 2 128; audio_format 1 128].
Proof. discriminate. Qed.

End SelectorOrder.

(** ** Every execution of the handlers *)

Section HandlerExecutions.
Import Js Sanitizer Selector Server.

Lemma exec_bind_call {X R : Type} (c : resolverCall X)
    (k : X -> prog resolverCall R) (tr : list answered) (r : R) :
  exec (bind (call c) k) tr r <->
  exists x tr', tr = answered_of c x :: tr' /\ exec (k x) tr' r.
Proof. reflexivity. Qed.

Lemma exec_Ret {R : Type} (r' : R) (tr : list answered) (r : R) :
  exec (Ret r') tr r <-> tr = [] /\ r = r'.
Proof. reflexivity. Qed.

(** The executions of the part of /api/download that follows
    validation. *)
Lemma exec_download_audio (url bitrate sampleRate oldPhoneMode : JsValue)
    (tr : list answered) (r : response) :
  exec (download_audio url bitrate sampleRate oldPhoneMode) tr r <->
  exists i1 i2 a,
    tr = [AGetInfo url i1; AGetInfo url i2;
          ADownload url (stream_request bitrate i2) a] /\
    r = match a with
        | Throws message => ErrorResponse 500 (ServerErrorOf (Failure message))
        | Ok audioBuffer =>
            match toString_of oldPhoneMode with
            | None => ErrorResponse 500 (ServerErrorOf TypeError)
            | Some text =>
                if header_value_ok text
                then
                  AudioResponse audioBuffer
                    {| contentType := lit "audio/mp4";
                       xVideoTitle :=
                         match i1 with
                         | Ok info => standardTitle (title info)
                         | Throws _ => default_title
                         end;
                       xBitrate := bitrate;
                       xSampleRate := sampleRate;
                       xOldPhoneMode := oldPhoneMode |}
                else ErrorResponse 500 (ServerErrorOf TypeError)
            end
        end.
Proof.
  unfold download_audio. rewrite exec_bind_call. split.
  - intros (i1 & tr1 & -> & H). rewrite exec_bind_call in H.
    destruct H as (i2 & tr2 & -> & H). rewrite exec_bind_call in H.
    destruct H as (a & tr3 & -> & H).
    exists i1, i2, a. unfold stream_request.
    destruct i2; destruct a as [audioBuffer|m];
      try (destruct (toString_of oldPhoneMode) as [text|];
           [destruct (header_value_ok text)|]);
      destruct H as [-> ->]; split; reflexivity.
  - intros (i1 & i2 & a & -> & ->).
    exists i1. eexists. split; [reflexivity|]. rewrite exec_bind_call.
    exists i2. eexists. split; [reflexivity|]. rewrite exec_bind_call.
    exists a, []. unfold stream_request.
    destruct i2; (split; [reflexivity|]);
      destruct a as [audioBuffer|m];
      try (destruct (toString_of oldPhoneMode) as [text|];
           [destruct (header_value_ok text)|]);
      split; reflexivity.
Qed.

Lemma Json_null_dec (body : Json) : {body = JNull} + {body <> JNull}.
Proof. destruct body; (now left) || (right; discriminate). Qed.

(** The executions of /api/download, by the checks of the handler. *)
Lemma exec_POST_download (body : Json) (tr : list answered) (r : response) :
  exec (POST_download (Ok body)) tr r ->
  (body = JNull /\ tr = [] /\ r = ErrorResponse 500 (ServerErrorOf TypeError))
  \/
  (body <> JNull /\ truthy (field body "url") = false /\
   tr = [] /\ r = ErrorResponse 400 url_required) \/
  (body <> JNull /\ truthy (field body "url") = true /\
   ~ legal_bitrate (bitrate_of body) /\
   tr = [] /\ r = ErrorResponse 400 invalid_bitrate) \/
  (body <> JNull /\ truthy (field body "url") = true /\
   legal_bitrate (bitrate_of body) /\
   ~ legal_sample_rate (sampleRate_of body) /\
   tr = [] /\ r = ErrorResponse 400 invalid_sample_rate) \/
  (body <> JNull /\ truthy (field body "url") = true /\
   legal_bitrate (bitrate_of body) /\
   legal_sample_rate (sampleRate_of body) /\
   ((tr = [AValidateURL (field body "url") false] /\
     r = ErrorResponse 400 invalid_url) \/
    exists tr',
      tr = AValidateURL (field body "url") true :: tr' /\
      exec (download_audio (field body "url") (bitrate_of body)
              (sampleRate_of body)
              (with_default (field body "oldPhoneMode") (Value (JBool true))))
        tr' r)).
Proof.
  intros H. destruct (Json_null_dec body) as [->|Hb].
  { destruct H as [-> ->]. left. auto. }
  rewrite (POST_download_unfold body Hb) in H. right.
  destruct (truthy (field body "url")) eqn:Eu; cbn [negb] in H.
  2:{ destruct H as [-> ->]. left. auto. }
  right.
  destruct (includes [lit "128"; lit "192"] (bitrate_of body)) eqn:Eb;
    cbn [negb] in H.
  2:{ destruct H as [-> ->]. left. repeat split; auto.
      rewrite <- includes_bitrate. congruence. }
  right. apply includes_bitrate in Eb.
  destruct (includes [lit "16000"; lit "22050"; lit "44100"]
              (sampleRate_of body)) eqn:Es; cbn [negb] in H.
  2:{ destruct H as [-> ->]. left. repeat split; auto.
      rewrite <- includes_sample_rate. congruence. }
  right. apply includes_sample_rate in Es.
  rewrite exec_bind_call in H. destruct H as (valid & tr' & -> & H).
  repeat (split; [first [assumption | reflexivity]|]).
  destruct valid; cbn [negb] in H.
  - right. exists tr'. auto.
  - left. destruct H as [-> ->]. auto.
Qed.

End HandlerExecutions.

Section DownloadHandler.
Import Js Sanitizer Selector Server.

(** X8: whatever the body and whatever the resolver answers, one run of
    /api/download either asks the resolver nothing and answers 400 or
    500, or asks for the URL check alone, is told no, and answers 400
    "Invalid YouTube URL", or makes exactly four calls on the same url in
    the order URL check, metadata, metadata, stream, and answers 200 or
    500; it answers 200 only with audio that the resolver delivered. *)
Theorem POST_download_executions (json : result Json)
    (tr : list answered) (r : response) :
  exec (POST_download json) tr r ->
  (tr = [] /\ (status_of r = 400 \/ status_of r = 500)) \/
  (exists u, tr = [AValidateURL u false] /\
             r = ErrorResponse 400 invalid_url) \/
  (exists u i1 i2 o a,
     tr = [AValidateURL u true; AGetInfo u i1; AGetInfo u i2;
           ADownload u o a] /\
     (status_of r = 200 \/ status_of r = 500) /\
     (status_of r = 200 ->
      exists bytes hs, a = Ok bytes /\ r = AudioResponse bytes hs)).
Proof.
  destruct json as [body|m].
  2:{ intros [-> ->]. left. simpl. auto. }
  intros H. apply exec_POST_download in H.
  destruct H as [(_ & -> & ->)|[(_ & _ & -> & ->)|[(_ & _ & _ & -> & ->)
    |[(_ & _ & _ & _ & -> & ->)|(_ & _ & _ & _ & H)]]]];
    try (left; simpl; auto; fail).
  destruct H as [[-> ->]|(tr' & -> & H)].
  - right. left. eauto.
  - right. right. apply exec_download_audio in H.
    destruct H as (i1 & i2 & a & -> & ->).
    exists (field body "url"), i1, i2, (stream_request (bitrate_of body) i2), a.
    split; [reflexivity|].
    destruct a as [bytes|m].
    + destruct (toString_of
                  (with_default (field body "oldPhoneMode")
                     (Value (JBool true)))) as [text|];
        [destruct (header_value_ok text)|];
        simpl; split; auto; try discriminate; eauto.
    + simpl. split; [auto|discriminate].
Qed.

Lemma POST_download_executions_witness :
  exists u, [AValidateURL (Value (JString (lit "ftp://x"))) false]
            = [AValidateURL u false].
Proof.
  destruct (POST_download_executions
              (Ok (JObject [(lit "url", JString (lit "ftp://x"))]))
              [AValidateURL (Value (JString (lit "ftp://x"))) false]
              (ErrorResponse 400 invalid_url))
    as [[H _]|[H|(u & i1 & i2 & o & a & H & _)]].
  - simpl. exists false, []. repeat split.
  - discriminate H.
  - destruct H as (u & H & _). exists u. exact H.
  - discriminate H.
Defined.

(** X9: a 200 answer of /api/download carries exactly the bytes the
    resolver delivered for the stream, labelled audio/mp4; it echoes a
    legal bitrate and a legal sample rate; its title header is the
    sanitized title of the first metadata lookup, or the default when
    that lookup failed; and the stream was requested with the format
    selected from the second lookup, or as best audio when that lookup
    failed. *)
Theorem POST_download_success (json : result Json) (tr : list answered)
    (audio : list Byte.byte) (hs : audioHeaders) :
  exec (POST_download json) tr (AudioResponse audio hs) ->
  exists u i1 i2,
    tr = [AValidateURL u true; AGetInfo u i1; AGetInfo u i2;
          ADownload u (stream_request (xBitrate hs) i2) (Ok audio)] /\
    truthy u = true /\
    contentType hs = lit "audio/mp4" /\
    legal_bitrate (xBitrate hs) /\ legal_sample_rate (xSampleRate hs) /\
    xVideoTitle hs = match i1 with
                     | Ok info => standardTitle (title info)
                     | Throws _ => lit "youtube_audio"
                     end.
Proof.
  destruct json as [body|m]; [|intros [_ H]; discriminate H].
  intros H. apply exec_POST_download in H.
  destruct H as [(_ & _ & H)|[(_ & _ & _ & H)|[(_ & _ & _ & _ & H)
    |[(_ & _ & _ & _ & _ & H)|(_ & Hu & Hb & Hs & H)]]]];
    try discriminate H.
  destruct H as [[_ H]|(tr' & -> & H)]; [discriminate H|].
  apply exec_download_audio in H.
  destruct H as (i1 & i2 & a & -> & H).
  exists (field body "url"), i1, i2.
  destruct a as [bytes|m]; [|discriminate H].
  destruct (toString_of
              (with_default (field body "oldPhoneMode") (Value (JBool true))))
    as [text|]; [destruct (header_value_ok text)|];
    try discriminate H; injection H as -> ->; simpl;
    repeat split; auto.
Qed.

Lemma POST_download_success_witness :
  exists u i1 i2,
    [AValidateURL (Value (JString (lit "https://youtu.be/x"))) true;
     AGetInfo (Value (JString (lit "https://youtu.be/x")))
       (Throws (lit "Video unavailable"));
     AGetInfo (Value (JString (lit "https://youtu.be/x")))
       (Throws (lit "Video unavailable"));
     ADownload (Value (JString (lit "https://youtu.be/x")))
       HighestAudioOnly (Ok [Byte.x00])]
    = [AValidateURL u true; AGetInfo u i1; AGetInfo u i2;
       ADownload u
         (stream_request (Value (JString (lit "128"))) i2) (Ok [Byte.x00])].
Proof.
  destruct (POST_download_success
              (Ok (JObject [(lit "url", JString (lit "https://youtu.be/x"))]))
              [AValidateURL (Value (JString (lit "https://youtu.be/x"))) true;
               AGetInfo (Value (JString (lit "https://youtu.be/x")))
                 (Throws (lit "Video unavailable"));
               AGetInfo (Value (JString (lit "https://youtu.be/x")))
                 (Throws (lit "Video unavailable"));
               ADownload (Value (JString (lit "https://youtu.be/x")))
                 HighestAudioOnly (Ok [Byte.x00])]
              [Byte.x00]
              {| contentType := lit "audio/mp4";
                 xVideoTitle := lit "youtube_audio";
                 xBitrate := Value (JString (lit "128"));
                 xSampleRate := Value (JString (lit "22050"));
                 xOldPhoneMode := Value (JBool true) |})
    as (u & i1 & i2 & H & _).
  - simpl. exists true. eexists. split; [reflexivity|].
    exists (Throws (lit "Video unavailable")). eexists.
    split; [reflexivity|].
    exists (Throws (lit "Video unavailable")). eexists.
    split; [reflexivity|].
    exists (Ok [Byte.x00]), []. repeat split.
  - exists u, i1, i2. exact H.
Defined.

(** X10: a failing metadata lookup alone never fails /api/download: for
    a request that passes validation, once the resolver delivers the
    stream the answer depends on oldPhoneMode alone, whatever the two
    lookups answered: it is 200 with the delivered bytes when the text
    of oldPhoneMode.toString() is one a header takes, as it is for a
    missing oldPhoneMode and for a boolean one, and 500 otherwise. *)
Theorem metadata_failure_not_fatal (body : Json) (tr : list answered)
    (r : response) (u : JsValue) (o : streamOptions)
    (audio : list Byte.byte) :
  exec (POST_download (Ok body)) tr r ->
  In (ADownload u o (Ok audio)) tr ->
  (header_taken (oldPhoneMode_of body) = true ->
   exists hs, r = AudioResponse audio hs) /\
  (header_taken (oldPhoneMode_of body) = false ->
   r = ErrorResponse 500 (ServerErrorOf TypeError)) /\
  (field body "oldPhoneMode" = Undefined \/
   (exists b, field body "oldPhoneMode" = Value (JBool b)) ->
   header_taken (oldPhoneMode_of body) = true).
Proof.
  intros H Hin. apply exec_POST_download in H.
  destruct H as [(_ & -> & _)|[(_ & _ & -> & _)|[(_ & _ & _ & -> & _)
    |[(_ & _ & _ & _ & -> & _)|(_ & _ & _ & _ & H)]]]];
    try (now destruct Hin).
  destruct H as [[-> _]|(tr' & -> & H)].
  - destruct Hin as [Hin|[]]. discriminate Hin.
  - apply exec_download_audio in H.
    destruct H as (i1 & i2 & a & -> & ->).
    destruct Hin as [Hin|[Hin|[Hin|[Hin|[]]]]]; try discriminate Hin.
    injection Hin as _ _ ->.
    unfold header_taken, oldPhoneMode_of.
    split; [|split].
    + destruct (toString_of _) as [text|]; [|discriminate].
      intros ->. eauto.
    + destruct (toString_of _) as [text|]; [|reflexivity].
      now intros ->.
    + intros [->|[[] ->]]; reflexivity.
Qed.

Lemma metadata_failure_not_fatal_witness :
  exists hs,
    fst (run (fixed_resolver true (Throws (lit "Video unavailable"))
                (Ok [Byte.x00]))
           (POST_download
              (Ok (JObject [(lit "url", JString (lit "https://youtu.be/x"))]))))
    = AudioResponse [Byte.x00] hs.
Proof.
  apply (metadata_failure_not_fatal
           (JObject [(lit "url", JString (lit "https://youtu.be/x"))])
           [AValidateURL (Value (JString (lit "https://youtu.be/x"))) true;
            AGetInfo (Value (JString (lit "https://youtu.be/x")))
              (Throws (lit "Video unavailable"));
            AGetInfo (Value (JString (lit "https://youtu.be/x")))
              (Throws (lit "Video unavailable"));
            ADownload (Value (JString (lit "https://youtu.be/x")))
              HighestAudioOnly (Ok [Byte.x00])]
           _ (Value (JString (lit "https://youtu.be/x"))) HighestAudioOnly).
  - simpl. exists true. eexists. split; [reflexivity|].
    exists (Throws (lit "Video unavailable")). eexists.
    split; [reflexivity|].
    exists (Throws (lit "Video unavailable")). eexists.
    split; [reflexivity|].
    exists (Ok [Byte.x00]), []. repeat split.
  - simpl. auto.
  - reflexivity.
Defined.

(** An oldPhoneMode that cannot be printed, or whose text no header
    takes, costs the delivered audio: an object with a toString property
    of its own, a string with a line feed inside, a string with a code
    unit above 255.  A number, an array or a plain object goes
    through. *)
Example oldPhoneMode_header_examples :
  let answer oldPhoneMode :=
    status_of
      (fst (run (fixed_resolver true (Throws (lit "Video unavailable"))
                   (Ok [Byte.x00]))
              (POST_download
                 (Ok (JObject
                        [(lit "url", JString (lit "https://youtu.be/x"));
                         (lit "oldPhoneMode", oldPhoneMode)]))))) in
  answer (JObject [(lit "toString", JNumber 1)]) = 500 /\
  answer (JString [97; 10; 98]) = 500 /\
  answer (JString [2453]) = 500 /\
  answer (JArray [JObject [(lit "toString", JNull)]]) = 500 /\
  answer (JString [10; 97; 32]) = 200 /\
  answer (JNumber 0) = 200 /\
  answer (JArray [JNull; JBool false]) = 200 /\
  answer (JObject [(lit "valueOf", JNumber 1)]) = 200.
Proof. repeat split. Qed.

(** X11: a request whose oldPhoneMode is null never gets a 200: when it
    passes validation and the resolver delivers the stream, the answer is
    still 500, because the header value is taken with toString(). *)
Theorem null_oldPhoneMode_fails (body : Json) (tr : list answered)
    (r : response) :
  field body "oldPhoneMode" = Value JNull ->
  exec (POST_download (Ok body)) tr r ->
  status_of r <> 200 /\
  forall u o audio, In (ADownload u o (Ok audio)) tr ->
                    r = ErrorResponse 500 (ServerErrorOf TypeError).
Proof.
  intros Hopm H. apply exec_POST_download in H.
  destruct H as [(_ & -> & ->)|[(_ & _ & -> & ->)|[(_ & _ & _ & -> & ->)
    |[(_ & _ & _ & _ & -> & ->)|(_ & _ & _ & _ & H)]]]];
    try (split; [discriminate | intros ? ? ? []]).
  destruct H as [[-> ->]|(tr' & -> & H)].
  - split; [discriminate|]. intros u o audio [Hin|[]]. discriminate Hin.
  - apply exec_download_audio in H.
    destruct H as (i1 & i2 & a & -> & ->). rewrite Hopm. simpl.
    destruct a as [bytes|m]; (split; [discriminate|]);
      intros u o audio Hin;
      destruct Hin as [Hin|[Hin|[Hin|[Hin|[]]]]]; try discriminate Hin.
    reflexivity.
Qed.

Lemma null_oldPhoneMode_fails_witness :
  status_of
    (fst (run (fixed_resolver true (Throws (lit "Video unavailable"))
                 (Ok [Byte.x00]))
            (POST_download
               (Ok (JObject [(lit "url", JString (lit "https://youtu.be/x"));
                             (lit "oldPhoneMode", JNull)])))))
  <> 200.
Proof.
  apply (null_oldPhoneMode_fails
           (JObject [(lit "url", JString (lit "https://youtu.be/x"));
                     (lit "oldPhoneMode", JNull)])
           [AValidateURL (Value (JString (lit "https://youtu.be/x"))) true;
            AGetInfo (Value (JString (lit "https://youtu.be/x")))
              (Throws (lit "Video unavailable"));
            AGetInfo (Value (JString (lit "https://youtu.be/x")))
              (Throws (lit "Video unavailable"));
            ADownload (Value (JString (lit "https://youtu.be/x")))
              HighestAudioOnly (Ok [Byte.x00])]).
  - reflexivity.
  - simpl. exists true. eexists. split; [reflexivity|].
    exists (Throws (lit "Video unavailable")). eexists.
    split; [reflexivity|].
    exists (Throws (lit "Video unavailable")). eexists.
    split; [reflexivity|].
    exists (Ok [Byte.x00]), []. repeat split.
Defined.

End DownloadHandler.

(** ** /api/test *)

Section TestHandler.
Import Js Selector Server.

(** X12: whatever the body and whatever the resolver answers, one run of
    /api/test asks the resolver nothing (and answers 400 or 500), or asks
    for the URL check alone, is told no, and answers 400, or asks for
    the URL check and one metadata lookup and answers with the metadata
    or, when the lookup failed, with status 500; it never requests a
    stream. *)
Theorem POST_test_executions (json : result Json) (tr : list answered)
    (r : response) :
  exec (POST_test json) tr r ->
  (tr = [] /\ (r = ErrorResponse 400 url_required \/ status_of r = 500)) \/
  (exists u, tr = [AValidateURL u false] /\
             r = ErrorResponse 400 invalid_url) \/
  (exists u i,
     tr = [AValidateURL u true; AGetInfo u i] /\
     r = match i with
         | Ok info => MetadataResponse info
         | Throws message => ErrorResponse 500 (InfoFailedOf message)
         end).
Proof.
  intros H. unfold POST_test in H. destruct json as [body|m].
  2:{ destruct H as [-> ->]. left. simpl. auto. }
  destruct (destructure body (lit "url")) as [url|].
  2:{ destruct H as [-> ->]. left. simpl. auto. }
  destruct (truthy url); cbn [negb] in H.
  2:{ destruct H as [-> ->]. left. auto. }
  rewrite exec_bind_call in H. destruct H as (valid & tr1 & -> & H).
  destruct valid; cbn [negb] in H.
  - rewrite exec_bind_call in H. destruct H as (i & tr2 & -> & H).
    right. right. exists url, i.
    destruct i; destruct H as [-> ->]; split; reflexivity.
  - destruct H as [-> ->]. right. left. exists url. split; reflexivity.
Qed.

Lemma POST_test_executions_witness :
  exists u i,
    [AValidateURL (Value (JString (lit "https://youtu.be/x"))) true;
     AGetInfo (Value (JString (lit "https://youtu.be/x")))
       (Throws (lit "Video unavailable"))]
    = [AValidateURL u true; AGetInfo u i] /\
    ErrorResponse 500 (InfoFailedOf (lit "Video unavailable"))
    = match i with
      | Ok info => MetadataResponse info
      | Throws message => ErrorResponse 500 (InfoFailedOf message)
      end.
Proof.
  destruct (POST_test_executions
              (Ok (JObject [(lit "url", JString (lit "https://youtu.be/x"))]))
              [AValidateURL (Value (JString (lit "https://youtu.be/x"))) true;
               AGetInfo (Value (JString (lit "https://youtu.be/x")))
                 (Throws (lit "Video unavailable"))]
              (ErrorResponse 500 (InfoFailedOf (lit "Video unavailable"))))
    as [[H _]|[(u & H & _)|H]].
  - simpl. exists true. eexists. split; [reflexivity|].
    exists (Throws (lit "Video unavailable")), []. repeat split.
  - discriminate H.
  - discriminate H.
  - exact H.
Defined.

End TestHandler.

(** ** Numbers read from text *)

Section Numbers.
Import Js.

(** Up to 2^53 in magnitude an integer is a Number as it stands. *)
Lemma round_to_double_safe (n : Z) :
  Z.abs n < 2 ^ 53 -> round_to_double n = Finite n.
Proof.
  intros H. unfold round_to_double.
  assert (Hl : Z.log2 (Z.abs n) < 53).
  { destruct (Z.eq_dec (Z.abs n) 0) as [E|E]; [now rewrite E|].
    apply Z.log2_lt_pow2; lia. }
  apply Z.ltb_lt in Hl. now rewrite Hl.
Qed.

(** Rounding keeps the sign, gives no NaN, and a finite result lies
    below 2^1024 in magnitude. *)
Lemma round_to_double_sign (n : Z) :
  match round_to_double n with
  | NotANumber => False
  | Finite m =>
      (0 < n <-> 0 < m) /\ (n < 0 <-> m < 0) /\ Z.abs m < 2 ^ 1024
  | Infinity negative => negative = (n <? 0) /\ n <> 0
  end.
Proof.
  unfold round_to_double.
  destruct (Z.log2 (Z.abs n) <? 53) eqn:El.
  - apply Z.ltb_lt in El. split; [reflexivity|]. split; [reflexivity|].
    destruct (Z.eq_dec (Z.abs n) 0) as [E|E]; [rewrite E; reflexivity|].
    apply Z.lt_trans with (2 ^ 53); [|reflexivity].
    apply Z.log2_lt_pow2; lia.
  - apply Z.ltb_ge in El.
    remember (Z.abs n) as a eqn:Ea.
    remember (Z.log2 a - 52) as sh eqn:Esh.
    assert (Ha : 0 < a).
    { destruct (Z.eq_dec a 0) as [E|E]; [|lia].
      rewrite E in El. simpl in El. lia. }
    assert (Hsh : 0 < sh) by lia.
    assert (Hq : 0 < Z.shiftr a sh).
    { rewrite Z.shiftr_div_pow2 by lia.
      apply Z.div_str_pos. split; [apply Z.pow_pos_nonneg; lia|].
      apply Z.le_trans with (2 ^ Z.log2 a).
      - apply Z.pow_le_mono_r; lia.
      - apply Z.log2_spec. exact Ha. }
    match goal with
    | |- context [Z.shiftl (if ?c then _ else _) sh] =>
        remember (if c then Z.shiftr a sh + 1 else Z.shiftr a sh) as q'
          eqn:Eq'
    end.
    assert (Hq' : 0 < q') by (rewrite Eq'; destruct (_ || _); lia).
    assert (Hm : 0 < Z.shiftl q' sh).
    { rewrite Z.shiftl_mul_pow2 by lia.
      apply Z.mul_pos_pos; [exact Hq' | apply Z.pow_pos_nonneg; lia]. }
    clear Eq'.
    destruct (2 ^ 1024 <=? Z.shiftl q' sh) eqn:Eo.
    + split; [reflexivity | lia].
    + apply Z.leb_gt in Eo.
      destruct (n <? 0) eqn:En;
        [apply Z.ltb_lt in En | apply Z.ltb_ge in En];
        repeat split; lia.
Qed.

Lemma parseInt_Finite_bound (s : jsstring) (n : Z) :
  parseInt s = Finite n -> Z.abs n < 2 ^ 1024.
Proof.
  unfold parseInt. cbv zeta.
  destruct (digits_value _ _ _) as [v|]; [|discriminate].
  match goal with
  | |- round_to_double ?x = _ -> _ =>
      intros E; pose proof (round_to_double_sign x) as H
  end.
  rewrite E in H. apply H.
Qed.

End Numbers.

(** ** The available qualities of /api/test *)

Section AvailableQualities.
Import Js Selector TestRoute.

Lemma sort_insert_perm_any {A : Type} (cmp : A -> A -> Z) (x : A)
    (l : list A) :
  Permutation (sort_insert cmp x l) (x :: l).
Proof.
  induction l as [|y t IH]; simpl; [reflexivity|].
  destruct (cmp x y <=? 0); [reflexivity|].
  rewrite IH. apply perm_swap.
Qed.

(** Sorting rearranges, whatever the comparator. *)
Lemma Array_sort_perm_any {A : Type} (cmp : A -> A -> Z) (l : list A) :
  Permutation (Array_sort cmp l) l.
Proof.
  induction l as [|x t IH]; simpl; [reflexivity|].
  rewrite sort_insert_perm_any. now constructor.
Qed.

Lemma sort_insert_ext {A : Type} (cmp cmp' : A -> A -> Z) (x : A)
    (l : list A) :
  (forall y, In y l -> (cmp x y <=? 0) = (cmp' x y <=? 0)) ->
  sort_insert cmp x l = sort_insert cmp' x l.
Proof.
  induction l as [|y t IH]; intros H; simpl; [reflexivity|].
  rewrite (H y (or_introl eq_refl)).
  destruct (cmp' x y <=? 0); [reflexivity|].
  f_equal. apply IH. intros z Hz. apply H. now right.
Qed.

(** Only the signs of the comparator on the elements of the array
    count. *)
Lemma Array_sort_ext {A : Type} (cmp cmp' : A -> A -> Z) (l : list A) :
  (forall x y, In x l -> In y l -> (cmp x y <=? 0) = (cmp' x y <=? 0)) ->
  Array_sort cmp l = Array_sort cmp' l.
Proof.
  induction l as [|x t IH]; intros H; simpl; [reflexivity|].
  rewrite IH by (intros; apply H; now right).
  apply sort_insert_ext. intros y Hy. apply H; [now left|].
  right. eapply Permutation_in; [apply Array_sort_perm_any | exact Hy].
Qed.

(** A comparator that follows a key is consistent. *)
Lemma consistent_by_key {A : Type} (cmp : A -> A -> Z) (key : A -> Z)
    (l : list A) :
  (forall x y, In x l -> In y l ->
     (cmp x y < 0 <-> key y < key x) /\ (cmp x y = 0 <-> key y = key x)) ->
  consistent cmp l = true.
Proof.
  intros H. unfold consistent.
  apply forallb_forall. intros a Ha. apply andb_true_iff. split.
  { apply Z.eqb_eq. now apply (H a a Ha Ha). }
  apply forallb_forall. intros b Hb.
  pose proof (H a b Ha Hb) as [Hab1 Hab2].
  pose proof (H b a Hb Ha) as [Hba1 Hba2].
  apply andb_true_iff. split.
  { destruct (Z.eqb_spec (cmp a b) 0) as [E|E]; [|reflexivity].
    simpl. apply Z.eqb_eq. apply Hba2. symmetry. now apply Hab2. }
  apply forallb_forall. intros c Hc.
  pose proof (H b c Hb Hc) as [Hbc1 Hbc2].
  pose proof (H a c Ha Hc) as [Hac1 Hac2].
  rewrite !andb_true_iff. repeat split.
  - destruct (Z.eqb_spec (cmp a b) 0) as [E1|E1]; [|reflexivity].
    destruct (Z.eqb_spec (cmp b c) 0) as [E2|E2]; [|reflexivity].
    simpl. apply Z.eqb_eq. apply Hac2.
    apply Hab2 in E1. apply Hbc2 in E2. congruence.
  - destruct (Z.ltb_spec (cmp a b) 0) as [E1|E1]; [|reflexivity].
    destruct (Z.ltb_spec (cmp b c) 0) as [E2|E2]; [|reflexivity].
    simpl. apply Z.ltb_lt. apply Hac1.
    apply Hab1 in E1. apply Hbc1 in E2. lia.
  - destruct (Z.ltb_spec 0 (cmp a b)) as [E1|E1]; [|reflexivity].
    destruct (Z.ltb_spec 0 (cmp b c)) as [E2|E2]; [|reflexivity].
    simpl. apply Z.ltb_lt.
    assert (key a < key b) by lia.
    assert (key b < key c) by lia.
    lia.
Qed.

(** On labels that read as numbers the comparator follows
    [resolution_key]. *)
Lemma by_resolution_desc_key (a b : entry) :
  resolution a <> NotANumber -> resolution b <> NotANumber ->
  (by_resolution_desc a b < 0 <-> resolution_key b < resolution_key a) /\
  (by_resolution_desc a b = 0 <-> resolution_key b = resolution_key a).
Proof.
  unfold by_resolution_desc, resolution_key. intros Ha Hb.
  pose proof (parseInt_Finite_bound
                match quality a with
                | Some q => or_default (replace_first_p q) (lit "0")
                | None => lit "0"
                end) as Ba.
  pose proof (parseInt_Finite_bound
                match quality b with
                | Some q => or_default (replace_first_p q) (lit "0")
                | None => lit "0"
                end) as Bb.
  fold (resolution a) in Ba. fold (resolution b) in Bb.
  destruct (resolution a) as [|x|s]; [now destruct Ha| |];
    destruct (resolution b) as [|y|t]; try (now destruct Hb).
  - specialize (Ba x eq_refl). specialize (Bb y eq_refl).
    cbn [minus]. pose proof (round_to_double_sign (y - x)) as H.
    destruct (round_to_double (y - x)) as [|m|neg]; [destruct H| |].
    + cbn [sign_of]. lia.
    + cbn [sign_of]. destruct H as [-> Hne].
      destruct (Z.ltb_spec (y - x) 0); lia.
  - specialize (Ba x eq_refl). cbn [minus sign_of].
    destruct t; lia.
  - specialize (Bb y eq_refl). cbn [minus sign_of].
    destruct s; cbn [negb]; lia.
  - cbn [minus]. destruct s, t; cbn [Bool.eqb sign_of]; lia.
Qed.

Lemma In_unsorted_qualities (formats : list videoFormat) (e : entry) :
  In e (unsorted_qualities formats) <->
  exists f c q, In f formats /\ hasVideo f = true /\ hasAudio f = true /\
                qualityLabel f = Some (c :: q) /\ e = to_entry f.
Proof.
  unfold unsorted_qualities. rewrite filter_In, in_map_iff. split.
  - intros [(f & <- & Hf) Hq]. apply filter_In in Hf.
    destruct Hf as [Hin Hva]. apply andb_true_iff in Hva.
    destruct Hva as [Hv Ha].
    unfold quality_truthy, to_entry in Hq. simpl in Hq.
    destruct (qualityLabel f) as [[|c q]|] eqn:E; try discriminate.
    exists f, c, q. auto.
  - intros (f & c & q & Hin & Hv & Ha & Hq & ->). split.
    + exists f. split; [reflexivity|]. apply filter_In.
      now rewrite Hv, Ha.
    + unfold quality_truthy, to_entry. simpl. now rewrite Hq.
Qed.

(** X13: whenever the sort of /api/test has a result fixed by the
    language, the available qualities are the formats that have both
    video and audio and a non-empty quality label, each once, with the
    label, itag and container of the format.  When every such label
    reads as a number (in radix 16 after "0x", rounded to a Number when
    it is long), the result is fixed: the entries stand highest
    resolution number first (the number read from the label without its
    first "p"), and entries of equal number keep the order of the
    resolver. *)
Theorem availableQualities_sorted (formats : list videoFormat) :
  (forall l, availableQualities formats = Some l ->
     Permutation l
       (filter (fun e => match quality e with
                         | Some (_ :: _) => true
                         | _ => false
                         end)
          (map to_entry
             (filter (fun f => hasVideo f && hasAudio f) formats))) /\
     forall e, In e l <->
       exists f c q, In f formats /\ hasVideo f = true /\
                     hasAudio f = true /\
                     qualityLabel f = Some (c :: q) /\ e = to_entry f) /\
  ((forall e, In e (unsorted_qualities formats) ->
      resolution e <> NotANumber) ->
   exists l,
     availableQualities formats = Some l /\
     StronglySorted (fun a b => resolution_key b <= resolution_key a) l /\
     forall v,
       filter (fun e => resolution_key e =? v) l
       = filter (fun e => resolution_key e =? v)
           (unsorted_qualities formats)).
Proof.
  split.
  - intros l E. unfold availableQualities, sort in E.
    destruct (consistent _ _); [|discriminate E]. injection E as <-.
    assert (Hperm : Permutation
                      (Array_sort by_resolution_desc
                         (unsorted_qualities formats))
                      (unsorted_qualities formats))
      by apply Array_sort_perm_any.
    split; [exact Hperm|].
    intros e. rewrite <- In_unsorted_qualities.
    split; apply Permutation_in; [assumption | now symmetry].
  - intros Hparse.
    exists (Array_sort (by_key_desc resolution_key)
              (unsorted_qualities formats)).
    split; [|split].
    + unfold availableQualities, sort.
      rewrite (consistent_by_key _ resolution_key).
      * f_equal. apply Array_sort_ext. intros x y Hx Hy.
        destruct (by_resolution_desc_key x y (Hparse x Hx) (Hparse y Hy))
          as [H1 H2].
        unfold by_key_desc.
        destruct (Z.leb_spec (by_resolution_desc x y) 0);
          destruct (Z.leb_spec (resolution_key y - resolution_key x) 0);
          lia.
      * intros x y Hx Hy.
        apply by_resolution_desc_key; auto.
    + apply (Array_sort_sorted resolution_key).
    + intros v. apply Array_sort_stable.
Qed.

Lemma availableQualities_sorted_witness :
  exists l,
    availableQualities
      [labelled_format 18 "360p" true; labelled_format 137 "1080p" false;
       labelled_format 22 "720p" true] = Some l /\
    StronglySorted (fun a b => resolution_key b <= resolution_key a) l.
Proof.
  destruct (proj2 (availableQualities_sorted
                     [labelled_format 18 "360p" true;
                      labelled_format 137 "1080p" false;
                      labelled_format 22 "720p" true])) as (l & E & Hs & _).
  - intros e He. vm_compute in He.
    destruct He as [<-|[<-|[]]]; vm_compute; discriminate.
  - exists l. split; assumption.
Defined.

(** The frame rate that follows the "p" joins the digits of the height:
    "720p60" is sorted as 72060, in front of "2160p".  A label that
    starts with "0x" is read in radix 16.  A label without a number
    among labels of different numbers leaves the order to the engine. *)
Example availableQualities_examples :
  option_map (map TestRoute.itag)
    (availableQualities
       [labelled_format 313 "2160p" true; labelled_format 298 "720p60" true])
  = Some [298; 313] /\
  option_map (map TestRoute.itag)
    (availableQualities
       [labelled_format 1 "5p" true; labelled_format 2 "0x10p" true])
  = Some [2; 1] /\
  availableQualities
    [labelled_format 22 "720p" true; labelled_format 5 "tiny" true;
     labelled_format 18 "360p" true]
  = None.
Proof. repeat split; vm_compute; reflexivity. Qed.

End AvailableQualities.

(** ** Client: the URL check *)

Section UrlCheck.
Import Js Ui.

Lemma strip_prefix_spec (p s r : jsstring) :
  strip_prefix p s = Some r <-> s = p ++ r.
Proof.
  revert s. induction p as [|c p IH]; intros s; simpl.
  - split; [intros [= ->] | intros ->]; reflexivity.
  - destruct s as [|d s]; [split; discriminate|].
    destruct (c =? d) eqn:E.
    + apply Z.eqb_eq in E. subst d. rewrite IH. split.
      * intros ->. reflexivity.
      * intros [= ->]. reflexivity.
    + apply Z.eqb_neq in E. split; [discriminate|].
      intros [= <- _]. contradiction.
Qed.

Lemma literal_spec (p : string) (k : jsstring -> bool) (s : jsstring) :
  literal p k s = true <-> exists r, s = lit p ++ r /\ k r = true.
Proof.
  unfold literal. destruct (strip_prefix (lit p) s) as [r|] eqn:E.
  - apply strip_prefix_spec in E. split.
    + intros H. eauto.
    + intros (r' & -> & H). apply app_inv_head in E. now subst.
  - split; [discriminate|]. intros (r & Hs & _).
    apply strip_prefix_spec in Hs. congruence.
Qed.

Lemma optional_spec (p : string) (k : jsstring -> bool) (s : jsstring) :
  optional p k s = true <->
  (exists r, s = lit p ++ r /\ k r = true) \/ k s = true.
Proof. unfold optional. now rewrite orb_true_iff, literal_spec. Qed.

Lemma url_path_spec (s : jsstring) : url_path s = true <-> is_path s.
Proof.
  unfold url_path. rewrite literal_spec. unfold is_path, any_plus, is_line_terminator. split.
  - intros (r & -> & H). destruct r as [|c rest]; [discriminate|].
    exists c, rest. split; [reflexivity|].
    apply negb_true_iff in H. rewrite !orb_false_iff, !Z.eqb_neq in H.
    tauto.
  - intros (c & rest & -> & H). exists (c :: rest). split; [reflexivity|].
    apply negb_true_iff. rewrite !orb_false_iff, !Z.eqb_neq. tauto.
Qed.

Lemma url_host_spec (s : jsstring) :
  url_host s = true <->
  exists host path,
    (host = "youtube.com" \/ host = "youtu.be")%string /\
    is_path path /\ s = lit host ++ path.
Proof.
  unfold url_host. rewrite orb_true_iff, !literal_spec. split.
  - intros [(r & -> & H)|(r & -> & H)]; apply url_path_spec in H.
    + exists "youtube.com"%string, r. auto.
    + exists "youtu.be"%string, r. auto.
  - intros (host & path & [-> | ->] & Hp & ->); apply url_path_spec in Hp.
    + left. eauto.
    + right. eauto.
Qed.

Lemma url_www_spec (s : jsstring) :
  url_www s = true <->
  exists www host path,
    (www = "" \/ www = "www.")%string /\
    (host = "youtube.com" \/ host = "youtu.be")%string /\
    is_path path /\ s = lit www ++ lit host ++ path.
Proof.
  unfold url_www. rewrite optional_spec. split.
  - intros [(r & -> & H)|H]; apply url_host_spec in H;
      destruct H as (host & path & Hh & Hp & ->).
    + exists "www."%string, host, path. auto.
    + exists ""%string, host, path. auto.
  - intros (www & host & path & [-> | ->] & Hh & Hp & ->).
    + right. apply url_host_spec. exists host, path. auto.
    + left. exists (lit host ++ path). split; [reflexivity|].
      apply url_host_spec. exists host, path. auto.
Qed.

(** What the pattern of [validateYouTubeUrl] consumes of a URL it
    accepts. *)
Lemma validateYouTubeUrl_accepts (url : jsstring) :
  validateYouTubeUrl url = true -> accepted_url url.
Proof.
  unfold validateYouTubeUrl, accepted_url.
  rewrite orb_true_iff, literal_spec.
  intros [(r & -> & H)|H].
  - apply optional_spec in H.
    destruct H as [(r' & -> & H)|H]; apply literal_spec in H;
      destruct H as (r2 & -> & H); apply url_www_spec in H;
      destruct H as (www & host & path & Hw & Hh & Hp & ->).
    + exists "https://"%string, www, host, path. auto 10.
    + exists "http://"%string, www, host, path. auto 10.
  - apply url_www_spec in H.
    destruct H as (www & host & path & Hw & Hh & Hp & ->).
    exists ""%string, www, host, path. auto 10.
Qed.

(** X14: the client accepts a URL exactly when it is an optional
    "http://" or "https://", an optional "www.", then "youtube.com" or
    "youtu.be", a slash and at least one more code unit that does not end
    a line; what follows is not looked at. *)
Theorem validateYouTubeUrl_spec (url : jsstring) :
  validateYouTubeUrl url = true <-> accepted_url url.
Proof.
  split; [apply validateYouTubeUrl_accepts|].
  unfold validateYouTubeUrl, accepted_url.
  rewrite orb_true_iff, literal_spec.
  - intros (scheme & www & host & path & Hs & Hw & Hh & Hp & ->).
    assert (H : url_www (lit www ++ lit host ++ path) = true).
    { apply url_www_spec. exists www, host, path. auto. }
    destruct Hs as [-> | [-> | ->]].
    + right. exact H.
    + left. exists (lit "://" ++ lit www ++ lit host ++ path).
      split; [reflexivity|]. apply optional_spec. right.
      apply literal_spec. eauto.
    + left. exists (lit "s" ++ lit "://" ++ lit www ++ lit host ++ path).
      split; [reflexivity|]. apply optional_spec. left.
      eexists. split; [reflexivity|]. apply literal_spec. eauto.
Qed.

Lemma validateYouTubeUrl_spec_witness :
  validateYouTubeUrl (lit "https://www.youtube.com/watch?v=dQw4w9WgXcQ")
  = true.
Proof.
  apply (proj2 (validateYouTubeUrl_spec
                  (lit "https://www.youtube.com/watch?v=dQw4w9WgXcQ"))).
  exists "https://"%string, "www."%string, "youtube.com"%string,
    (lit "/watch?v=dQw4w9WgXcQ").
  repeat split; auto.
  exists 119, (lit "atch?v=dQw4w9WgXcQ").
  repeat split; discriminate.
Defined.

Lemma drop_while_In (p : char16 -> bool) (c : char16) (s : jsstring) :
  In c s -> p c = false -> In c (drop_while p s).
Proof.
  intros Hin Hc. induction s as [|d t IH]; [destruct Hin|].
  simpl. destruct (p d) eqn:E; [|exact Hin].
  destruct Hin as [->|Hin]; [congruence | auto].
Qed.

(** An accepted URL is never blank, so it passes the first check of
    [handleDownload] as well. *)
Lemma accepted_url_trim (url : jsstring) :
  validateYouTubeUrl url = true -> trim url <> [].
Proof.
  intros H. apply validateYouTubeUrl_accepts in H.
  destruct H as (scheme & www & host & path & Hs & Hw & Hh & Hp & ->).
  assert (Hy : In 121 (lit scheme ++ lit www ++ lit host ++ path)).
  { apply in_or_app. right. apply in_or_app. right. apply in_or_app. left.
    destruct Hh as [-> | ->]; simpl; auto. }
  assert (Ht : In 121 (trim (lit scheme ++ lit www ++ lit host ++ path))).
  { unfold trim. apply -> in_rev. apply drop_while_In; [|reflexivity].
    apply -> in_rev. apply drop_while_In; [exact Hy | reflexivity]. }
  intros E. rewrite E in Ht. destruct Ht.
Qed.

(** The mobile and music hosts are not accepted, and neither is a bare
    host. *)
Example validateYouTubeUrl_rejects :
  validateYouTubeUrl (lit "https://m.youtube.com/watch?v=dQw4w9WgXcQ")
  = false /\
  validateYouTubeUrl (lit "https://music.youtube.com/watch?v=dQw4w9WgXcQ")
  = false /\
  validateYouTubeUrl (lit "https://www.youtube.com/") = false /\
  validateYouTubeUrl (lit "https://www.youtube.com/ ") = true /\
  validateYouTubeUrl [] = false.
Proof. repeat split. Qed.

End UrlCheck.

(** ** Client: the download flow *)

Section DownloadFlow.
Import Js Sanitizer Client Ui.

Variable w : world.
Variables (url : jsstring) (selectedBitrate : BitrateOption)
  (selectedSampleRate : SampleRateOption) (useOldPhoneMode : bool).

Let request : downloadRequest :=
  {| Ui.url := url; bitrate := selectedBitrate;
     sampleRate := selectedSampleRate; oldPhoneMode := useOldPhoneMode |}.

(** X15: with a blank URL, or one the URL check refuses, [handleDownload]
    sends no request, converts nothing and saves nothing: it only sets
    the status to error, with the message asking for a link (blank) or
    for a valid link (refused), and leaves the progress and the
    isDownloading flag as they were. *)
Theorem handleDownload_refuses (s : DownloadState) :
  trim url = [] \/ validateYouTubeUrl url = false ->
  exists m,
    outcome w (handleDownload url selectedBitrate selectedSampleRate
                 useOldPhoneMode) s
    = ({| isDownloading := isDownloading s; progress := progress s;
          status := Error; error := Some (Text m) |},
       [StateSet {| isDownloading := isDownloading s;
                    progress := progress s;
                    status := Error; error := Some (Text m) |}]) /\
    (trim url = [] -> m = enter_link) /\
    (trim url <> [] -> m = enter_valid_link).
Proof.
  intros H. unfold outcome, handleDownload.
  destruct (trim url) as [|c t] eqn:Et.
  - exists enter_link. split; [reflexivity|]. split; [auto|].
    intros Hn. now destruct Hn.
  - destruct H as [H|H]; [discriminate|]. rewrite H.
    exists enter_valid_link. split; [reflexivity|].
    split; [discriminate | auto].
Qed.

Lemma run_ui_bind {A B : Type} (p : prog uiCall A) (k : A -> prog uiCall B)
    (s : DownloadState) :
  run_ui w (bind p k) s
  = let '(x, s1, es1) := run_ui w p s in
    let '(r, s2, es2) := run_ui w (k x) s1 in
    (r, s2, es1 ++ es2).
Proof.
  revert s. induction p as [a|X c k' IH]; intros s; simpl.
  - now destruct (run_ui w (k a) s) as [[r s2] es2].
  - destruct (step c (w X c) s) as [s1 e]. rewrite IH.
    destruct (run_ui w (k' (w X c)) s1) as [[x s2] es1].
    now destruct (run_ui w (k x) s2) as [[r s3] es2].
Qed.

(** The conversion inside the download flow: the four checkpoints reach
    the download state, and the blob has the bytes it was given. *)
Lemma run_ui_convertToMp3 (audioBuffer : list Byte.byte)
    (a b : jsstring) (c : bool) (st : DownloadState) :
  run_ui w (embed (convertToMp3 audioBuffer a b c true)) st
  = (Resolved {| bytes := audioBuffer; type := lit "audio/mpeg" |},
     {| isDownloading := isDownloading st; progress := Scaled 100;
        status := status st; error := error st |},
     [StateSet {| isDownloading := isDownloading st; progress := Scaled 20;
                  status := status st; error := error st |};
      Slept 300;
      StateSet {| isDownloading := isDownloading st; progress := Scaled 50;
                  status := status st; error := error st |};
      Slept 300;
      StateSet {| isDownloading := isDownloading st; progress := Scaled 80;
                  status := status st; error := error st |};
      Slept 200;
      StateSet {| isDownloading := isDownloading st; progress := Scaled 100;
                  status := status st; error := error st |}]).
Proof.
  unfold convertToMp3, report. rewrite Blob_single. reflexivity.
Qed.

(** X16: for a URL that passes both checks, when the request is
    answered with an ok response and its body can be read,
    [handleDownload] sends exactly one request, with the url and the
    settings of the form, shows downloading, converting (at 50 and at the
    four checkpoints) and completed, and saves exactly one file: its
    bytes are the bytes of the response, typed audio/mpeg, and its name
    is the clean title of the X-Video-Title header ("youtube_audio" when
    the header is missing or empty) followed by ".mp3", a stem of 1 to
    50 code units in [A-Za-z0-9_]; isDownloading is still true at the
    end. *)
Theorem handleDownload_saves (s : DownloadState) (response : httpResponse)
    (audioBuffer : list Byte.byte) :
  validateYouTubeUrl url = true ->
  w _ (Fetch request) = Server.Ok response -> ok response = true ->
  w _ ArrayBuffer = Server.Ok audioBuffer ->
  exists href stem,
    outcome w (handleDownload url selectedBitrate selectedSampleRate
                 useOldPhoneMode) s
    = (finished,
       [StateSet started; Requested request;
        StateSet (converting_at (Percent 50)); ReadBuffer;
        StateSet (converting_at (Scaled 20)); Slept 300;
        StateSet (converting_at (Scaled 50)); Slept 300;
        StateSet (converting_at (Scaled 80)); Slept 200;
        StateSet (converting_at (Scaled 100));
        StateSet finished;
        MadeURL {| bytes := audioBuffer; type := lit "audio/mpeg" |} href;
        Clicked href (stem ++ lit ".mp3");
        RevokeScheduled href 1000]) /\
    stem = cleanTitle (match xVideoTitle response with
                       | Some (c :: t) => c :: t
                       | _ => lit "youtube_audio"
                       end) /\
    (1 <= length stem <= 50)%nat /\
    Forall (fun c => 65 <= c <= 90 \/ 97 <= c <= 122 \/ 48 <= c <= 57
                     \/ c = 95) stem.
Proof.
  intros Hurl Hfetch Hok Hbuf.
  exists (w _ (CreateObjectURL
                 {| bytes := audioBuffer; type := lit "audio/mpeg" |})),
    (cleanTitle (header_or (xVideoTitle response) (lit "youtube_audio"))).
  split; [|split; [|split]].
  - unfold outcome, handleDownload.
    pose proof (accepted_url_trim url Hurl) as Ht.
    destruct (trim url) as [|c0 t0]; [contradiction|]. rewrite Hurl.
    cbn -[embed convertToMp3 cleanTitle]. fold request.
    rewrite Hfetch, Hok.
    cbn -[embed convertToMp3 cleanTitle]. rewrite Hbuf.
    rewrite run_ui_bind, run_ui_convertToMp3.
    reflexivity.
  - unfold header_or. now destruct (xVideoTitle response) as [[|c t]|].
  - destruct (cleanTitle_shape
                (header_or (xVideoTitle response) (lit "youtube_audio")))
      as (_ & Hne & _ & _ & Hlen).
    destruct (cleanTitle _); [contradiction|]. simpl in *. lia.
  - eapply Forall_impl;
      [|apply (cleanTitle_shape
                 (header_or (xVideoTitle response) (lit "youtube_audio")))].
    intros c Hc. now apply is_word_spec.
Qed.

(** X17: for a URL that passes both checks, when the request fails,
    is answered with a response that is not ok, or has a body that
    cannot be read, [handleDownload] sends its one request, never starts
    the conversion and saves nothing, and ends with isDownloading false,
    progress 0 and status error; the message is the one of the failure,
    and for a response that is not ok it is the error text of its JSON
    body. *)
Theorem handleDownload_fails (s : DownloadState) :
  validateYouTubeUrl url = true ->
  (forall e, w _ (Fetch request) = Server.Throws e ->
     outcome w (handleDownload url selectedBitrate selectedSampleRate
                  useOldPhoneMode) s
     = (failed (Text e),
        [StateSet started; Requested request; StateSet (failed (Text e))]))
  /\
  (forall response, w _ (Fetch request) = Server.Ok response ->
     ok response = false ->
     exists m,
       outcome w (handleDownload url selectedBitrate selectedSampleRate
                    useOldPhoneMode) s
       = (failed m,
          [StateSet started; Requested request; ReadJson;
           StateSet (failed m)]) /\
       m = match w _ ResponseJson with
           | Server.Throws e => Text e
           | Server.Ok j => error_of j
           end) /\
  (forall response e, w _ (Fetch request) = Server.Ok response ->
     ok response = true -> w _ ArrayBuffer = Server.Throws e ->
     outcome w (handleDownload url selectedBitrate selectedSampleRate
                  useOldPhoneMode) s
     = (failed (Text e),
        [StateSet started; Requested request;
         StateSet (converting_at (Percent 50)); ReadBuffer;
         StateSet (failed (Text e))])) /\
  (forall c text,
     error_of (Server.JObject [(lit "error", Server.JString (c :: text))])
     = Text (c :: text)) /\
  error_of (Server.JObject []) = Text download_failed.
Proof.
  intros Hurl. pose proof (accepted_url_trim url Hurl) as Ht.
  unfold outcome, handleDownload.
  destruct (trim url) as [|c0 t0]; [contradiction|]. rewrite Hurl.
  cbn -[embed convertToMp3 cleanTitle]. fold request.
  split; [|split; [|split; [|split]]].
  - intros e He. rewrite He. reflexivity.
  - intros response Hf Hok. rewrite Hf, Hok.
    cbn -[embed convertToMp3 cleanTitle].
    destruct (w _ ResponseJson) as [j|e]; eexists; split; reflexivity.
  - intros response e Hf Hok Hb. rewrite Hf, Hok.
    cbn -[embed convertToMp3 cleanTitle]. rewrite Hb. reflexivity.
  - reflexivity.
  - reflexivity.
Qed.

End DownloadFlow.

Section DownloadFlowWitnesses.
Import Js Sanitizer Client Ui.

Lemma handleDownload_refuses_witness :
  exists m,
    outcome (fixed_world (Server.Throws []) (Server.Throws [])
               (Server.Throws []))
      (handleDownload (lit "   ") B128 R22050 true)
      {| isDownloading := false; progress := Percent 0;
         status := Idle; error := None |}
    = ({| isDownloading := false; progress := Percent 0;
          status := Error; error := Some (Text m) |},
       [StateSet {| isDownloading := false; progress := Percent 0;
                    status := Error; error := Some (Text m) |}]).
Proof.
  destruct (handleDownload_refuses
              (fixed_world (Server.Throws []) (Server.Throws [])
                 (Server.Throws []))
              (lit "   ") B128 R22050 true
              {| isDownloading := false; progress := Percent 0;
                 status := Idle; error := None |}) as (m & H & _).
  - left. reflexivity.
  - exists m. exact H.
Defined.

Lemma handleDownload_saves_witness :
  exists href stem,
    clicked
      (snd (outcome
              (fixed_world
                 (Server.Ok {| ok := true;
                               xVideoTitle := Some (lit "lo-fi_mix");
                               xBitrate := Some (lit "128");
                               xSampleRate := Some (lit "22050");
                               xOldPhoneMode := Some (lit "true") |})
                 (Server.Throws []) (Server.Ok [Byte.x49]))
              (handleDownload (lit "https://youtu.be/dQw4w9WgXcQ")
                 B128 R22050 true)
              {| isDownloading := false; progress := Percent 0;
                 status := Idle; error := None |}))
    = [(href, stem ++ lit ".mp3")] /\ stem = lit "lofi_mix".
Proof.
  destruct (handleDownload_saves
              (fixed_world
                 (Server.Ok {| ok := true;
                               xVideoTitle := Some (lit "lo-fi_mix");
                               xBitrate := Some (lit "128");
                               xSampleRate := Some (lit "22050");
                               xOldPhoneMode := Some (lit "true") |})
                 (Server.Throws []) (Server.Ok [Byte.x49]))
              (lit "https://youtu.be/dQw4w9WgXcQ") B128 R22050 true
              {| isDownloading := false; progress := Percent 0;
                 status := Idle; error := None |}
              {| ok := true;
                 xVideoTitle := Some (lit "lo-fi_mix");
                 xBitrate := Some (lit "128");
                 xSampleRate := Some (lit "22050");
                 xOldPhoneMode := Some (lit "true") |}
              [Byte.x49])
    as (href & stem & H & Hstem & _); try reflexivity.
  exists href, stem. rewrite H. split; [reflexivity | exact Hstem].
Defined.

Lemma handleDownload_fails_witness :
  fst (outcome
         (fixed_world (Server.Throws (lit "Failed to fetch"))
            (Server.Throws []) (Server.Throws []))
         (handleDownload (lit "https://youtu.be/dQw4w9WgXcQ")
            B128 R22050 true)
         {| isDownloading := false; progress := Percent 0;
            status := Idle; error := None |})
  = failed (Text (lit "Failed to fetch")).
Proof.
  rewrite (proj1 (handleDownload_fails
                    (fixed_world (Server.Throws (lit "Failed to fetch"))
                       (Server.Throws []) (Server.Throws []))
                    (lit "https://youtu.be/dQw4w9WgXcQ") B128 R22050 true
                    {| isDownloading := false; progress := Percent 0;
                       status := Idle; error := None |}
                    eq_refl)
             (lit "Failed to fetch") eq_refl).
  reflexivity.
Defined.

End DownloadFlowWitnesses.

(** ** Client and server together *)

Section ClientServer.
Import Js Sanitizer Selector Server.

Lemma trim_nil : trim [] = [].
Proof. reflexivity. Qed.

(** X18: a request that [handleDownload] sends passes the checks of
    /api/download on the url field, the bitrate and the sample rate,
    and its body is never null: the server always asks the resolver,
    and answers either 400 "Invalid YouTube URL" after the URL check
    alone, or after the four calls, with the audio or with status 500
    and the message of the failed stream; the format is selected for
    the number of the chosen bitrate. *)
Theorem client_request_passes_validation (request : Ui.downloadRequest)
    (tr : list answered) (r : response) :
  Ui.validateYouTubeUrl (Ui.url request) = true ->
  exec (POST_download (Ok (Ui.request_body request))) tr r ->
  (tr = [AValidateURL (Value (JString (Ui.url request))) false] /\
   r = ErrorResponse 400 invalid_url) \/
  (exists i1 i2 a,
     tr = [AValidateURL (Value (JString (Ui.url request))) true;
           AGetInfo (Value (JString (Ui.url request))) i1;
           AGetInfo (Value (JString (Ui.url request))) i2;
           ADownload (Value (JString (Ui.url request)))
             match i2 with
             | Ok info =>
                 WithFormat
                   (selectFormat
                      (Int (Ui.bitrate_number (Ui.bitrate request)))
                      (formats info))
             | Throws _ => HighestAudioOnly
             end a] /\
     match a with
     | Ok audio => exists hs, r = AudioResponse audio hs
     | Throws message =>
         r = ErrorResponse 500 (ServerErrorOf (Failure message))
     end).
Proof.
  intros Hurl H. apply exec_POST_download in H.
  assert (Hne : Ui.url request <> []).
  { intros E. apply (accepted_url_trim _ Hurl). now rewrite E. }
  assert (Hfield : field (Ui.request_body request) "url"
                   = Value (JString (Ui.url request))) by reflexivity.
  assert (Htruthy : truthy (field (Ui.request_body request) "url") = true).
  { rewrite Hfield. simpl. now destruct (Ui.url request). }
  assert (Hbr : bitrate_of (Ui.request_body request)
                = Value (JString (Ui.bitrate_text (Ui.bitrate request))))
    by reflexivity.
  assert (Hsr : sampleRate_of (Ui.request_body request)
                = Value (JString
                           (Ui.sampleRate_text (Ui.sampleRate request))))
    by reflexivity.
  assert (Hlb : legal_bitrate (bitrate_of (Ui.request_body request))).
  { rewrite Hbr. unfold legal_bitrate.
    destruct (Ui.bitrate request); auto. }
  assert (Hls : legal_sample_rate (sampleRate_of (Ui.request_body request))).
  { rewrite Hsr. unfold legal_sample_rate.
    destruct (Ui.sampleRate request); auto. }
  destruct H as [(E & _)|[(_ & E & _)|[(_ & _ & E & _)
    |[(_ & _ & _ & E & _)|(_ & _ & _ & _ & H)]]]];
    try discriminate E; try congruence; try contradiction.
  rewrite Hfield in H. destruct H as [H|(tr' & -> & H)]; [now left|].
  right. apply exec_download_audio in H.
  destruct H as (i1 & i2 & a & -> & ->).
  exists i1, i2, a. split.
  - rewrite Hbr. unfold stream_request.
    destruct i2; [|reflexivity].
    destruct (Ui.bitrate request); reflexivity.
  - destruct a as [audio|m]; [|reflexivity].
    assert (Ho : with_default (field (Ui.request_body request) "oldPhoneMode")
                   (Value (JBool true))
                 = Value (JBool (Ui.oldPhoneMode request))) by reflexivity.
    rewrite Ho. destruct (Ui.oldPhoneMode request); eexists; reflexivity.
Qed.

Lemma client_request_passes_validation_witness :
  [AValidateURL (Value (JString (lit "https://youtu.be/x"))) false]
  = [AValidateURL (Value (JString (lit "https://youtu.be/x"))) false] /\
  ErrorResponse 400 invalid_url = ErrorResponse 400 invalid_url \/
  False.
Proof.
  destruct (client_request_passes_validation
              {| Ui.url := lit "https://youtu.be/x"; Ui.bitrate := Ui.B192;
                 Ui.sampleRate := Ui.R44100; Ui.oldPhoneMode := false |}
              [AValidateURL (Value (JString (lit "https://youtu.be/x"))) false]
              (ErrorResponse 400 invalid_url)) as [H|(i1 & i2 & a & H & _)].
  - reflexivity.
  - simpl. exists false. eexists. repeat split.
  - left. exact H.
  - discriminate H.
Defined.

End ClientServer.

(** ** The earlier versions *)

Section LegacyVersions.
Import Js Sanitizer Server.

(** X19: whatever the body and whatever the resolver answers, one run of
    the earlier /api/download handler makes no resolver call (answering
    400 "URL is required" or 500), or the URL check alone (told no,
    answering 400), or the URL check, one metadata lookup and one stream
    request, which always asks for the highest audio-only quality; it
    then answers with the delivered bytes, typed audio/mp4 and titled
    with the sanitized title (the default when the lookup failed), or
    with status 500 when the stream failed. *)
Theorem legacy_POST_executions (json : result Json) (tr : list answered)
    (r : Legacy.reply) :
  exec (Legacy.POST json) tr r ->
  (tr = [] /\
   (r = Legacy.ErrorReply 400 url_required \/
    exists e, r = Legacy.ErrorReply 500 (ServerErrorOf e))) \/
  (exists u, tr = [AValidateURL u false] /\
             r = Legacy.ErrorReply 400 invalid_url) \/
  (exists u i a,
     tr = [AValidateURL u true; AGetInfo u i;
           ADownload u HighestAudioOnly a] /\
     r = match a with
         | Ok audio =>
             Legacy.AudioReply audio
               {| Legacy.contentType := lit "audio/mp4";
                  Legacy.xVideoTitle :=
                    match i with
                    | Ok info => standardTitle (title info)
                    | Throws _ => lit "youtube_audio"
                    end |}
         | Throws message =>
             Legacy.ErrorReply 500 (ServerErrorOf (Failure message))
         end).
Proof.
  intros H. unfold Legacy.POST in H. destruct json as [body|m].
  2:{ destruct H as [-> ->]. left. eauto. }
  destruct (destructure body (lit "url")) as [url|].
  2:{ destruct H as [-> ->]. left. eauto. }
  destruct (truthy url); cbn [negb] in H.
  2:{ destruct H as [-> ->]. left. auto. }
  rewrite exec_bind_call in H. destruct H as (valid & tr1 & -> & H).
  destruct valid; cbn [negb] in H.
  - rewrite exec_bind_call in H. destruct H as (i & tr2 & -> & H).
    rewrite exec_bind_call in H. destruct H as (a & tr3 & -> & H).
    right. right. exists url, i, a.
    destruct a; destruct H as [-> ->]; split; reflexivity.
  - destruct H as [-> ->]. right. left. exists url. split; reflexivity.
Qed.

Lemma legacy_POST_executions_witness :
  exists u i a,
    [AValidateURL (Value (JString (lit "https://youtu.be/x"))) true;
     AGetInfo (Value (JString (lit "https://youtu.be/x")))
       (Throws (lit "Video unavailable"));
     ADownload (Value (JString (lit "https://youtu.be/x")))
       HighestAudioOnly (Ok [Byte.x00])]
    = [AValidateURL u true; AGetInfo u i; ADownload u HighestAudioOnly a].
Proof.
  destruct (legacy_POST_executions
              (Ok (JObject [(lit "url", JString (lit "https://youtu.be/x"))]))
              [AValidateURL (Value (JString (lit "https://youtu.be/x"))) true;
               AGetInfo (Value (JString (lit "https://youtu.be/x")))
                 (Throws (lit "Video unavailable"));
               ADownload (Value (JString (lit "https://youtu.be/x")))
                 HighestAudioOnly (Ok [Byte.x00])]
              (Legacy.AudioReply [Byte.x00]
                 {| Legacy.contentType := lit "audio/mp4";
                    Legacy.xVideoTitle := lit "youtube_audio" |}))
    as [[H _]|[(u & H & _)|(u & i & a & H & _)]].
  - simpl. exists true. eexists. split; [reflexivity|].
    exists (Throws (lit "Video unavailable")). eexists.
    split; [reflexivity|].
    exists (Ok [Byte.x00]), []. repeat split.
  - discriminate H.
  - discriminate H.
  - exists u, i, a. exact H.
Defined.

Lemma replace_runs_from_nil (cls : char16 -> bool) (c : char16) (b : bool)
    (s : jsstring) :
  b = false -> replace_runs_from cls [c] b s = [] -> s = [].
Proof.
  intros -> H. destruct s as [|d t]; [reflexivity|].
  rewrite replace_runs_from_cons in H. destruct (cls d); discriminate H.
Qed.

(** X20: the earlier client leaves the title header of the server as it
    is, so its file name is that title followed by ".mp3" and never
    empty; on other input its stem is empty (the file is named ".mp3")
    exactly when the title has no letter, digit, underscore, hyphen or
    white space. *)
Theorem legacy_cleanTitle_of_header (x : jsstring) :
  Legacy.cleanTitle (standardTitle x) = standardTitle x /\
  standardTitle x <> [] /\
  (Legacy.cleanTitle x = [] <->
   Forall (fun c => ~ (65 <= c <= 90 \/ 97 <= c <= 122 \/ 48 <= c <= 57
                       \/ c = 95 \/ c = 45) /\ is_space c = false) x).
Proof.
  split; [|split].
  - pose proof (standardTitle_chars x) as Hc.
    pose proof (standardTitle_nonempty x) as Hn.
    pose proof (standardTitle_fixed (standardTitle x) Hc Hn) as Hf.
    rewrite standardTitle_body in Hf at 1.
    change (standard_body (standardTitle x))
      with (Legacy.cleanTitle (standardTitle x)) in Hf.
    destruct (Legacy.cleanTitle (standardTitle x)) as [|c t] eqn:E;
      [|exact Hf].
    apply (replace_runs_from_nil is_space underscore false) in E;
      [|reflexivity].
    exfalso. revert E. apply filter_nonempty.
    destruct (standardTitle x) as [|c t]; [contradiction|].
    apply Exists_cons_hd. apply negb_true_iff, negb_false_iff.
    inversion Hc as [|? ? [Hw| ->] _]; subst; unfold keep_standard.
    + now rewrite Hw.
    + reflexivity.
  - apply standardTitle_nonempty.
  - unfold Legacy.cleanTitle, remove_class. split.
    + intros E. apply replace_runs_from_nil in E; [|reflexivity].
      apply Forall_forall. intros c Hc.
      assert (Hk : keep_standard c = false).
      { apply not_true_is_false. intros Hk.
        assert (Hin : In c (filter (fun c0 => negb (negb (keep_standard c0)))
                              x))
          by (apply filter_In; rewrite Hk; auto).
        rewrite E in Hin. destruct Hin. }
      unfold keep_standard in Hk. rewrite !orb_false_iff in Hk.
      destruct Hk as [[Hw Hs] Hh]. split; [|exact Hs].
      apply Z.eqb_neq in Hh. unfold hyphen in Hh.
      intros H. assert (is_word c = true) by (apply is_word_spec; lia).
      congruence.
    + intros H.
      assert (E : filter (fun c => negb (negb (keep_standard c))) x = []).
      { induction H as [|c t [Hn Hs] _ IH]; [reflexivity|].
        simpl. rewrite IH.
        assert (Hk : keep_standard c = false).
        { unfold keep_standard. rewrite Hs.
          rewrite !orb_false_iff. repeat split.
          - apply not_true_is_false. intros Hw.
            apply is_word_spec in Hw. apply Hn. lia.
          - apply Z.eqb_neq. unfold hyphen. intros ->. apply Hn. lia. }
        now rewrite Hk. }
      now rewrite E.
Qed.

Lemma legacy_cleanTitle_of_header_witness :
  Legacy.cleanTitle (lit "(!)") = [].
Proof.
  apply (proj2 (proj2 (proj2 (legacy_cleanTitle_of_header (lit "(!)"))))).
  simpl. repeat (apply Forall_cons; [split; [lia | reflexivity]|]).
  apply Forall_nil.
Defined.

End LegacyVersions.

(** ** Client: the metadata preview *)

Section PreviewFlow.
Import Js Preview.

(** X21: [fetchVideoInfo] does nothing at all for a URL the URL check
    refuses; for an accepted URL it sends exactly one request, always
    ends with isLoadingInfo false, and leaves a video info exactly when
    the request and the parsing succeeded and the answer has status
    "success" (the info is then made of the answer's fields); in every
    other case the previous info has been cleared. *)
Theorem fetchVideoInfo_outcome (n : network) (videoUrl : jsstring)
    (s : previewState) :
  (Ui.validateYouTubeUrl videoUrl = false ->
   run n (fetchVideoInfo videoUrl) s = (s, [])) /\
  (Ui.validateYouTubeUrl videoUrl = true ->
   exists info,
     run n (fetchVideoInfo videoUrl) s
     = ({| videoInfo := info; isLoadingInfo := false |}, [videoUrl]) /\
     info = match n _ (FetchTest videoUrl), n _ ResponseJson with
            | Server.Ok _, Server.Ok data =>
                if is_success data
                then Some {| title := get data "title";
                             duration := get data "duration";
                             author := get data "author";
                             viewCount := get data "viewCount";
                             thumbnail := get data "thumbnail" |}
                else None
            | _, _ => None
            end).
Proof.
  unfold fetchVideoInfo. split; intros H; rewrite H; cbn [negb].
  - reflexivity.
  - cbn -[is_success get].
    destruct (n _ (FetchTest videoUrl)) as [u|e];
      [|eexists; split; reflexivity].
    cbn -[is_success get].
    destruct (n _ ResponseJson) as [data|e];
      [|eexists; split; reflexivity].
    destruct data; cbn -[is_success get];
      try (eexists; split; reflexivity);
      match goal with
      | |- context [is_success ?d] =>
          destruct (is_success d); cbn -[get]; eexists; split; reflexivity
      end.
Qed.

Lemma fetchVideoInfo_outcome_witness :
  exists info,
    run (fixed_network (Server.Ok tt) (Server.Throws []))
      (fetchVideoInfo (lit "https://youtu.be/dQw4w9WgXcQ"))
      {| videoInfo := None; isLoadingInfo := true |}
    = ({| videoInfo := info; isLoadingInfo := false |},
       [lit "https://youtu.be/dQw4w9WgXcQ"]).
Proof.
  destruct (proj2 (fetchVideoInfo_outcome
                     (fixed_network (Server.Ok tt) (Server.Throws []))
                     (lit "https://youtu.be/dQw4w9WgXcQ")
                     {| videoInfo := None; isLoadingInfo := true |})
              eq_refl) as (info & H & _).
  exists info. exact H.
Defined.

End PreviewFlow.

Section DurationShown.
Import Js Preview.

(** Rounded to five binary places or more, a quotient by 60 keeps its
    integer part: the fraction of the exact quotient ends at 59/60, more
    than half a step below the next integer. *)
Lemma shiftr_round_half_even (n s : Z) :
  0 <= n -> 5 <= s ->
  Z.shiftr (round_half_even (n * 2 ^ s) 60) s = n / 60.
Proof.
  intros Hn Hs. rewrite Z.shiftr_div_pow2 by lia.
  assert (HP : 32 <= 2 ^ s).
  { change 32 with (2 ^ 5). apply Z.pow_le_mono_r; lia. }
  remember (2 ^ s) as P eqn:EP. clear EP Hs.
  unfold round_half_even.
  pose proof (Z.div_mod (n * P) 60 ltac:(lia)) as Hp.
  pose proof (Z.mod_pos_bound (n * P) 60 ltac:(lia)) as Hr0.
  pose proof (Z.div_mod n 60 ltac:(lia)) as Hnm.
  pose proof (Z.mod_pos_bound n 60 ltac:(lia)) as Hr.
  remember (n * P / 60) as k0. remember ((n * P) mod 60) as r0.
  remember (n / 60) as m. remember (n mod 60) as r.
  assert (HnP : n * P = 60 * (m * P) + r * P) by (rewrite Hnm at 1; ring).
  assert (HrP : 0 <= r * P <= 59 * P) by nia.
  remember (m * P) as mP. remember (r * P) as rP.
  symmetry.
  destruct ((60 <? 2 * r0) || ((2 * r0 =? 60) && Z.odd k0)) eqn:Eup.
  - assert (30 <= r0).
    { apply orb_true_iff in Eup. destruct Eup as [E|E].
      - apply Z.ltb_lt in E. lia.
      - apply andb_true_iff in E. destruct E as [E _].
        apply Z.eqb_eq in E. lia. }
    apply Z.div_unique with (r := k0 + 1 - mP); [lia|].
    rewrite HeqmP. ring.
  - apply Z.div_unique with (r := k0 - mP); [lia|].
    rewrite HeqmP. ring.
Qed.

(** Below 2^53 the division by 60 and [Math.floor] give the integer
    quotient. *)
Lemma floor_quotient_safe (n : Z) :
  0 <= n < 2 ^ 53 -> floor_quotient (Finite n) 60 = Finite (n / 60).
Proof.
  intros Hn. unfold floor_quotient.
  rewrite Z.abs_eq by lia.
  destruct (Z.eqb_spec n 0) as [->|Hn0]; [reflexivity|].
  assert (Hl : Z.log2 n < 53) by (apply Z.log2_lt_pow2; lia).
  change (Z.log2 60) with 5.
  remember (Z.log2 n - 5) as l eqn:El.
  match goal with
  | |- context [if ?c then l else l - 1] =>
      remember (if c then l else l - 1) as e eqn:Ee
  end.
  assert (He : e <= 47) by (rewrite Ee; destruct (_ <=? _); lia).
  clear Ee.
  assert (E52 : (e <=? 52) = true) by (apply Z.leb_le; lia).
  rewrite E52.
  assert (E0 : (n <? 0) = false) by (apply Z.ltb_ge; lia).
  rewrite E0. f_equal. apply shiftr_round_half_even; lia.
Qed.

Lemma seconds_read_back (k : Z) :
  0 <= k < 60 -> reads_two_digits (padStart2 (toString k)) k = true.
Proof.
  intros Hk.
  assert (Hall : forallb (fun k => reads_two_digits (padStart2 (toString k)) k)
                   (map Z.of_nat (seq 0 60)) = true) by (vm_compute; reflexivity).
  rewrite forallb_forall in Hall. apply Hall.
  rewrite <- (Z2Nat.id k) by lia. apply in_map, in_seq. lia.
Qed.

(** X22: for a duration that reads as a number of seconds n from 0 up to
    2^53 (in radix 16 after "0x"), the preview shows floor(n / 60)
    minutes, the division in floating point notwithstanding, and
    exactly two decimal digits of seconds below 60, and 60 times the
    minutes plus the seconds shown is n. *)
Theorem duration_shown_adds_up (duration : jsstring) (n : Z) :
  parseInt duration = Finite n -> 0 <= n < 2 ^ 53 ->
  exists minutes d1 d2,
    duration_shown duration = (Finite minutes, [d1; d2]) /\
    48 <= d1 <= 53 /\ 48 <= d2 <= 57 /\
    0 <= minutes /\
    60 * minutes + (10 * (d1 - 48) + (d2 - 48)) = n.
Proof.
  intros Hp Hn. unfold duration_shown. rewrite Hp.
  rewrite (floor_quotient_safe n Hn). cbn [remainder].
  assert (Hrem : Z.rem n 60 = n mod 60) by (apply Z.rem_mod_nonneg; lia).
  rewrite Hrem.
  pose proof (Z.mod_pos_bound n 60 ltac:(lia)) as Hk.
  pose proof (seconds_read_back (n mod 60) Hk) as H.
  unfold reads_two_digits in H.
  destruct (padStart2 (toString (n mod 60))) as [|d1 [|d2 [|d3 t]]];
    try discriminate H.
  rewrite !andb_true_iff, !Z.leb_le, Z.eqb_eq in H.
  destruct H as ((((H1 & H2) & H3) & H4) & H5).
  exists (n / 60), d1, d2. split; [reflexivity|].
  pose proof (Z.div_mod n 60 ltac:(lia)) as Hdm.
  pose proof (Z.div_pos n 60 ltac:(lia) ltac:(lia)).
  repeat split; lia.
Qed.

Lemma duration_shown_adds_up_witness :
  exists minutes d1 d2,
    duration_shown (lit "212") = (Finite minutes, [d1; d2]) /\
    60 * minutes + (10 * (d1 - 48) + (d2 - 48)) = 212.
Proof.
  destruct (duration_shown_adds_up (lit "212") 212)
    as (m & d1 & d2 & H & _ & _ & _ & Hsum).
  - reflexivity.
  - split; [lia | reflexivity].
  - exists m, d1, d2. auto.
Defined.

(** "3:32" for 212 seconds and "0:16" for "0x10"; a text that is no
    number shows "NaN:NaN", a negative one its sign twice. *)
Example duration_shown_examples :
  duration_shown (lit "212") = (Finite 3, lit "32") /\
  duration_shown (lit "605") = (Finite 10, lit "05") /\
  duration_shown (lit "0x10") = (Finite 0, lit "16") /\
  duration_shown (lit "live") = (NotANumber, lit "NaN") /\
  duration_shown (lit "-5") = (Finite (-1), lit "-5").
Proof. repeat split. Qed.

End DurationShown.
